(** * compiledtrees: the code generator and build driver of [code_gen.py]

    A shallow embedding of [src/compiledtrees/code_gen.py].  The Python module
    turns the node arrays of decision trees into C++ source text, one
    translation unit per tree plus one combining unit, and drives the C++
    compiler to build a shared library from them.

    Text is [String.string]; Python integers are [Z]; exceptions are the
    left summand of [result]; file objects and the processes started through
    the shell live in an explicit [world] that is threaded through the build
    driver. *)

From Stdlib Require Import ZArith List Bool Ascii String Lia.
From Stdlib Require Import DecimalString DecimalZ DecimalNat Permutation.
Import ListNotations.

Open Scope string_scope.
Open Scope Z_scope.

(* ================================================================== *)
(** * Python text                                                      *)
(* ================================================================== *)

Module PyText.

  (** The characters the generator needs by code point. *)
Definition LF : ascii := "010"%char.
Definition CR : ascii := "013"%char.
Definition DQUOTE : ascii := "034"%char.
Definition BACKSLASH : ascii := "092"%char.
Definition SPACE : ascii := " "%char.

Definition chr (c : ascii) : string := String c EmptyString.

  (** [s * n]: Python repeats [s]; a count of zero or less gives the empty text. *)
Fixpoint repeat_text (s : string) (n : nat) : string :=
    match n with
    | O => EmptyString
    | S n' => s ++ repeat_text s n'
    end.

Definition str_mul (s : string) (n : Z) : string :=
    repeat_text s (Z.to_nat n).

  (** [sep.join(parts)]. *)
Definition join (sep : string) (parts : list string) : string :=
    String.concat sep parts.

  (** ["{0}".format(n)] for an integer [n]. *)
Definition str_of_Z (n : Z) : string :=
    NilEmpty.string_of_int (Z.to_int n).

Definition str_of_nat (n : nat) : string := str_of_Z (Z.of_nat n).

  (** [s.replace(a, new)] for a one-character pattern [a]. *)
Fixpoint replace_char (a : ascii) (new : string) (s : string) : string :=
    match s with
    | EmptyString => EmptyString
    | String c s' =>
        if Ascii.eqb c a then new ++ replace_char a new s'
        else String c (replace_char a new s')
    end.

  (** [s.find(pat) >= 0]. *)
Fixpoint contains (pat s : string) : bool :=
    String.prefix pat s
    || match s with
       | EmptyString => false
       | String _ s' => contains pat s'
       end.

  (** Every character of [s] satisfies [P]. *)
Fixpoint all_chars (P : ascii -> bool) (s : string) : bool :=
    match s with
    | EmptyString => true
    | String c s' => P c && all_chars P s'
    end.

  (** [c not in s]. *)
Definition lacks (c : ascii) (s : string) : bool :=
    all_chars (fun a => negb (Ascii.eqb a c)) s.

  (** The code points the ["ascii"] codec accepts. *)
Definition is_ascii_char (c : ascii) : bool := (nat_of_ascii c <? 128)%nat.

Definition is_ascii (s : string) : bool := all_chars is_ascii_char s.

  (** Decimal digits. *)
Definition is_digit (c : ascii) : bool :=
    ((48 <=? nat_of_ascii c) && (nat_of_ascii c <=? 57))%nat.

  (** Letters, digits and the underscore: the characters of a C identifier. *)
Definition is_ident_char (c : ascii) : bool :=
    let n := nat_of_ascii c in
    ((48 <=? n) && (n <=? 57) || (65 <=? n) && (n <=? 90)
     || (97 <=? n) && (n <=? 122) || (n =? 95))%nat.

Definition identifier (s : string) : bool :=
    match s with
    | EmptyString => false
    | _ => all_chars is_ident_char s
    end.


End PyText.
Import PyText.

(* ================================================================== *)
(** * Exceptions                                                       *)
(* ================================================================== *)

Inductive exn : Type :=
| AssertionError
| IndexError
| ValueError
| TypeError
| UnicodeEncodeError
| RecursionError
| UnboundLocalError
| OSError
| CalledProcessError (cmd : string) (status : Z)
| Exception (msg : string).

(** A Python call either raises or returns. *)
Definition result (A : Type) : Type := (exn + A)%type.

Definition ret {A : Type} (a : A) : result A := inr a.
Definition raise {A : Type} (e : exn) : result A := inl e.

Definition bind {A B : Type} (m : result A) (k : A -> result B) : result B :=
  match m with
  | inl e => inl e
  | inr a => k a
  end.

Notation "x <- m ;; k" := (bind m (fun x => k))
  (at level 61, m at next level, right associativity).

(** [s.encode("ascii")]. *)
Definition encode_ascii (s : string) : result string :=
  if is_ascii s then ret s else raise UnicodeEncodeError.

(** [l[i]] on a Python sequence or NumPy array: a negative index counts from
    the end, an index outside [-len, len) raises. *)
Definition py_index {A : Type} (l : list A) (i : Z) : result A :=
  let n := Z.of_nat (List.length l) in
  let j := if i <? 0 then i + n else i in
  if (0 <=? j) && (j <? n) then
    match nth_error l (Z.to_nat j) with
    | Some a => ret a
    | None => raise IndexError
    end
  else raise IndexError.

(* ================================================================== *)
(** * The emitter: class [CodeGenerator]                               *)
(* ================================================================== *)

(** A [tempfile.NamedTemporaryFile]: its path and the bytes written to it. *)
Record tmpfile : Type := mk_tmpfile {
  f_name : string;
  f_data : string
}.

Record CodeGenerator : Type := mk_gen {
  _file : tmpfile;
  _indent : Z
}.

Definition file_write (f : tmpfile) (bytes : string) : tmpfile :=
  {| f_name := f_name f; f_data := f_data f ++ bytes |}.

(** [CodeGenerator.write]. *)
Definition write (line : string) (gen : CodeGenerator) : result CodeGenerator :=
  bytes <- encode_ascii (str_mul "  " (_indent gen) ++ line ++ chr LF) ;;
  ret {| _file := file_write (_file gen) bytes; _indent := _indent gen |}.

Definition set_indent (d : Z) (gen : CodeGenerator) : CodeGenerator :=
  {| _file := _file gen; _indent := d |}.

(** [CodeGenerator.bracketed], a context manager: [body] is the block of the
    [with] statement.  An exception in the block leaves through the [yield],
    so what follows the [yield] is skipped. *)
Definition bracketed (preamble postamble : string)
    (body : CodeGenerator -> result CodeGenerator)
    (gen : CodeGenerator) : result CodeGenerator :=
  if _indent gen >=? 0 then
    g1 <- write preamble gen ;;
    g2 <- body (set_indent (_indent g1 + 1) g1) ;;
    write postamble (set_indent (_indent g2 - 1) g2)
  else raise AssertionError.

(* ================================================================== *)
(** * The host: platform, environment, file system and shell           *)
(* ================================================================== *)

Inductive system_name : Type := Windows | Darwin | Linux.

Definition system_eqb (a b : system_name) : bool :=
  match a, b with
  | Windows, Windows | Darwin, Darwin | Linux, Linux => true
  | _, _ => false
  end.

(** What the module reads from its surroundings: [platform.system()],
    [os.environ], [sysconfig], the answer of the compiler to [--version], the
    directory of temporary files and the exit status of a shell command. *)
Record host : Type := mk_host {
  platform_system : system_name;
  environ_CXX : option string;
  sysconfig_CXX : option string;
  cxx_version : result string;
  tempdir : string;
  shell_status : string -> Z
}.

(** The module-level names set when [code_gen.py] is imported. *)
Record globals : Type := mk_globals {
  CXX_COMPILER : option string;
  delete_files : bool;
  OPENMP_SUPPORT : bool
}.

(** Lines 16-31.  On Darwin the compiler is asked for its version; a missing
    compiler makes the argument list ill-typed there. *)
Definition module_init (h : host) : result globals :=
  let cxx :=
    if system_eqb (platform_system h) Windows then environ_CXX h
    else sysconfig_CXX h in
  let del := negb (system_eqb (platform_system h) Windows) in
  omp <- (if system_eqb (platform_system h) Darwin then
            match cxx with
            | None => raise TypeError
            | Some _ =>
                c_ver <- cxx_version h ;;
                ret (negb (contains "clang" c_ver))
            end
          else ret true) ;;
  ret {| CXX_COMPILER := cxx; delete_files := del; OPENMP_SUPPORT := omp |}.

Definition EVALUATE_FN_NAME : string := "evaluate".
Definition ALWAYS_INLINE : string := "__attribute__((__always_inline__))".

(** One command handed to the shell, with the files it could see. *)
Record shell_call : Type := mk_call {
  sc_cmd : string;
  sc_disk : list (string * string)
}.

Record world : Type := mk_world {
  w_tmp : nat;
  w_disk : list (string * string);
  w_calls : list shell_call
}.

Definition empty_world : world :=
  {| w_tmp := 0; w_disk := []; w_calls := [] |}.

(** Effectful calls: they change the world and either raise or return. *)
Definition io (A : Type) : Type := world -> result A * world.

Definition io_ret {A : Type} (a : A) : io A := fun w => (inr a, w).
Definition io_raise {A : Type} (e : exn) : io A := fun w => (inl e, w).
Definition lift {A : Type} (r : result A) : io A := fun w => (r, w).

Definition io_bind {A B : Type} (m : io A) (k : A -> io B) : io B :=
  fun w =>
    match m w with
    | (inl e, w') => (inl e, w')
    | (inr a, w') => k a w'
    end.

Notation "x <~ m ;; k" := (io_bind m (fun x => k))
  (at level 61, m at next level, right associativity).

(** An effectful call that hands no command to the shell. *)
Definition quiet {A : Type} (c : io A) : Prop :=
  forall w, w_calls (snd (c w)) = w_calls w.

Fixpoint io_map {A B : Type} (f : A -> io B) (l : list A) : io (list B) :=
  match l with
  | [] => io_ret []
  | a :: l' =>
      b <~ f a ;;
      bs <~ io_map f l' ;;
      io_ret (b :: bs)
  end.

Fixpoint io_iter {A : Type} (f : A -> io unit) (l : list A) : io unit :=
  match l with
  | [] => io_ret tt
  | a :: l' => _ <~ f a ;; io_iter f l'
  end.

Fixpoint disk_remove (path : string) (d : list (string * string))
    : list (string * string) :=
  match d with
  | [] => []
  | (p, c) :: d' =>
      if String.eqb p path then disk_remove path d'
      else (p, c) :: disk_remove path d'
  end.

Definition disk_put (path bytes : string) (d : list (string * string))
    : list (string * string) :=
  (path, bytes) :: disk_remove path d.

Fixpoint disk_get (path : string) (d : list (string * string))
    : option string :=
  match d with
  | [] => None
  | (p, c) :: d' => if String.eqb p path then Some c else disk_get path d'
  end.

Section Host.

Variable h : host.
Variable m : globals.

  (** The path of the temporary file number [k]. *)
Definition numbered (prefix : string) (k : nat) (suffix : string) : string :=
    tempdir h ++ prefix ++ str_of_nat k ++ suffix.

Definition tmp_path (prefix suffix : string) (w : world) : string :=
    numbered prefix (w_tmp w) suffix.

  (** [tempfile.NamedTemporaryFile(mode='w+b', prefix, suffix, delete)]:
      a new, empty file under a name not used before; the names are numbered
      in the order of creation. *)
Definition NamedTemporaryFile (prefix suffix : string) : io tmpfile :=
    fun w =>
      let name := tmp_path prefix suffix w in
      (inr {| f_name := name; f_data := EmptyString |},
       {| w_tmp := S (w_tmp w);
          w_disk := disk_put name EmptyString (w_disk w);
          w_calls := w_calls w |}).

  (** [f.flush()]: the bytes written so far reach the disk. *)
Definition flush (f : tmpfile) : io unit :=
    fun w =>
      (inr tt,
       {| w_tmp := w_tmp w;
          w_disk := disk_put (f_name f) (f_data f) (w_disk w);
          w_calls := w_calls w |}).

  (** [f.close()]: flushed, and removed when the file was opened with
      [delete=True]. *)
Definition close (f : tmpfile) : io unit :=
    fun w =>
      (inr tt,
       {| w_tmp := w_tmp w;
          w_disk := if delete_files m then disk_remove (f_name f) (w_disk w)
                    else disk_put (f_name f) (f_data f) (w_disk w);
          w_calls := w_calls w |}).

  (** [os.unlink(path)]. *)
Definition unlink (path : string) : io unit :=
    fun w =>
      match disk_get path (w_disk w) with
      | None => (inl OSError, w)
      | Some _ =>
          (inr tt,
           {| w_tmp := w_tmp w;
              w_disk := disk_remove path (w_disk w);
              w_calls := w_calls w |})
      end.

  (** [CodeGenerator()]. *)
Definition new_CodeGenerator : io CodeGenerator :=
    f <~ NamedTemporaryFile "compiledtrees_" ".cpp" ;;
    io_ret {| _file := f; _indent := 0 |}.

  (** The property [CodeGenerator.file]. *)
Definition file (gen : CodeGenerator) : io tmpfile :=
    _ <~ flush (_file gen) ;;
    io_ret (_file gen).

End Host.

(* ================================================================== *)
(** * Trees and their code generator                                   *)
(* ================================================================== *)

(** Python's text for a float, ["{0}".format(x)], is not part of the
    repository; it is the one operation the generator needs on the numbers it
    prints. *)
Class PyFloat (real : Type) : Type := {
  format_float : real -> string
}.

(** The node arrays of a fitted scikit-learn tree.  [value[i]] is an array,
    one entry per output and class. *)
Record Tree (real : Type) : Type := mk_tree {
  children_left : list Z;
  children_right : list Z;
  feature : list Z;
  threshold : list real;
  value : list (list real)
}.

Arguments mk_tree {real}.
Arguments children_left {real}.
Arguments children_right {real}.
Arguments feature {real}.
Arguments threshold {real}.
Arguments value {real}.

(** [a.item()] on an array: its only element. *)
Definition item {A : Type} (a : list A) : result A :=
  match a with
  | [x] => ret x
  | _ => raise ValueError
  end.

Section TreeCodegen.

Context {real : Type} `{PyFloat real}.

Definition leaf_line (v : real) : string :=
    "return " ++ format_float v ++ ";".

Definition branch_line (k : Z) (t : real) : string :=
    "if (f[" ++ str_of_Z k ++ "] <= " ++ format_float t ++ "f) {".

  (** The local function [recur] of [code_gen_tree].  [depth] is the number
      of nested calls the interpreter still allows. *)
Fixpoint recur (depth : nat) (tree : Tree real) (node : Z)
      (gen : CodeGenerator) : result CodeGenerator :=
    match depth with
    | O => raise RecursionError
    | S depth' =>
        l <- py_index (children_left tree) node ;;
        if l =? -1 then
          v <- py_index (value tree) node ;;
          if (List.length v =? 1)%nat then
            x <- item v ;;
            write (leaf_line x) gen
          else raise AssertionError
        else
          k <- py_index (feature tree) node ;;
          t <- py_index (threshold tree) node ;;
          g1 <- bracketed (branch_line k t) "}"
                  (fun g =>
                     c <- py_index (children_left tree) node ;;
                     recur depth' tree c g)
                  gen ;;
          bracketed "else {" "}"
            (fun g =>
               c <- py_index (children_right tree) node ;;
               recur depth' tree c g)
            g1
    end.

Definition extern_C : string := "extern " ++ chr DQUOTE ++ "C" ++ chr DQUOTE ++ " {".

Definition tree_fn_decl (evaluate_fn : string) : string :=
    ALWAYS_INLINE ++ " double " ++ evaluate_fn ++ "(float* f) {".

  (** The two [with] blocks at the end of [code_gen_tree]. *)
Definition emit_tree (depth : nat) (tree : Tree real) (evaluate_fn : string)
      (gen : CodeGenerator) : result CodeGenerator :=
    bracketed extern_C "}"
      (bracketed (tree_fn_decl evaluate_fn) "}" (recur depth tree 0))
      gen.

Variable h : host.
Variable m : globals.

  (** [code_gen_tree(tree, evaluate_fn, gen)]; [gen] is [None] by default. *)
Definition code_gen_tree (depth : nat) (tree : Tree real)
      (evaluate_fn : string) (gen : option CodeGenerator) : io tmpfile :=
    g <~ match gen with
         | None => new_CodeGenerator h
         | Some g => io_ret g
         end ;;
    g' <~ lift (emit_tree depth tree evaluate_fn g) ;;
    file g'.

Definition partial_name (i : nat) : string :=
    EVALUATE_FN_NAME ++ "_" ++ str_of_nat i.

  (** [_gen_tree(i, tree)]. *)
Definition _gen_tree (depth : nat) (i : nat) (tree : Tree real) : io tmpfile :=
    let name := partial_name i in
    gen_tree <~ new_CodeGenerator h ;;
    code_gen_tree depth tree name (Some gen_tree).

  (** [enumerate(l)]. *)
Fixpoint enumerate_from {A : Type} (i : nat) (l : list A) : list (nat * A) :=
    match l with
    | [] => []
    | a :: l' => (i, a) :: enumerate_from (S i) l'
    end.

Definition enumerate {A : Type} (l : list A) : list (nat * A) :=
    enumerate_from 0 l.

  (** [for x in l: gen.write(line(x))]. *)
Fixpoint write_each {A : Type} (line : A -> string) (l : list A)
      (gen : CodeGenerator) : result CodeGenerator :=
    match l with
    | [] => ret gen
    | a :: l' => g <- write (line a) gen ;; write_each line l' g
    end.

Definition forward_decl (i : nat) : string :=
    "double " ++ partial_name i ++ "(float* f);".

Definition funcs_line (n : nat) : string :=
    let func_pointers :=
      join ", " (map (fun i => "&" ++ partial_name i) (seq 0 n)) in
    "double (" ++ "* funcs [" ++ str_of_nat n ++ "])(float* f) = {" ++ func_pointers ++ "};".

Definition combiner_fn_decl : string :=
    "double " ++ EVALUATE_FN_NAME ++ "(float* f, int n_jobs) {".

Definition pragma_line : string :=
    "#pragma omp parallel for num_threads(n_jobs) schedule(static) private(i) reduction(+:result)".

Definition for_line (n : nat) : string :=
    "for(int i=0; i<" ++ str_of_nat n ++ "; ++i)" ++ chr LF ++ "{".

Definition increment_line (weight : real) : string :=
    "result += funcs[i](f) * " ++ format_float weight ++ ";".

  (** The value of the loop variable [i] after
      [for i, tree in enumerate(trees)]: unbound when the loop never ran. *)
Definition last_index {A : Type} (l : list A) : result nat :=
    match l with
    | [] => raise UnboundLocalError
    | _ :: l' => ret (List.length l')
    end.

  (** What [code_gen_ensemble] writes to [gen]. *)
Definition emit_ensemble (trees : list (Tree real))
      (individual_learner_weight initial_value : real)
      (gen : CodeGenerator) : result CodeGenerator :=
    g0 <- (if OPENMP_SUPPORT m then write "#include <omp.h>" gen else ret gen) ;;
    bracketed extern_C "}"
      (fun g =>
         g1 <- write_each (fun it => forward_decl (fst it)) (enumerate trees) g ;;
         g2 <- write (funcs_line (List.length trees)) g1 ;;
         bracketed combiner_fn_decl "}"
           (fun g =>
              g3 <- write ("double result = " ++ format_float initial_value ++ ";") g ;;
              g4 <- write "int i;" g3 ;;
              g5 <- write pragma_line g4 ;;
              g6 <- bracketed (for_line (List.length trees)) "}"
                      (fun g =>
                         i <- last_index trees ;;
                         write (increment_line individual_learner_weight) g)
                      g5 ;;
              write "return result;" g6)
           g2)
      g0.

  (** [code_gen_ensemble(trees, individual_learner_weight, initial_value, gen)];
      [gen] is [None] by default. *)
Definition code_gen_ensemble (depth : nat) (trees : list (Tree real))
      (individual_learner_weight initial_value : real)
      (gen : option CodeGenerator) : io (list tmpfile) :=
    g <~ match gen with
         | None => new_CodeGenerator h
         | Some g => io_ret g
         end ;;
    tree_files <~ io_map (fun it => _gen_tree depth (fst it) (snd it))
                    (enumerate trees) ;;
    g' <~ lift (emit_ensemble trees individual_learner_weight initial_value g) ;;
    f <~ file g' ;;
    io_ret (tree_files ++ [f])%list.

End TreeCodegen.

(* ================================================================== *)
(** * The build driver                                                 *)
(* ================================================================== *)

Section Build.

Variable h : host.
Variable m : globals.

  (** [" ".join(args)]: every item has to be text. *)
Fixpoint all_text (args : list (option string)) : result (list string) :=
    match args with
    | [] => ret []
    | None :: _ => raise TypeError
    | Some a :: args' => rest <- all_text args' ;; ret (a :: rest)
    end.

  (** [_call(args)]: the joined command goes to the shell; a non-zero exit
      status raises. *)
Definition _call (args : list (option string)) : io unit :=
    words <~ lift (all_text args) ;;
    let cmd := join " " words in
    fun w =>
      let w' := {| w_tmp := w_tmp w;
                   w_disk := w_disk w;
                   w_calls := (w_calls w ++ [mk_call cmd (w_disk w)])%list |} in
      if shell_status h cmd =? 0 then (inr tt, w')
      else (inl (CalledProcessError cmd (shell_status h cmd)), w').

Definition openmp_flag : string :=
    if OPENMP_SUPPORT m then "-fopenmp" else EmptyString.

Definition no_compiler_message : string :=
    "CXX compiler was not found. You should set CXX environmental variable".

  (** The command of one compile job. *)
Definition compile_cmd (cxx cpp_f o_name : string) : string :=
    join " " [cxx; cpp_f; "-c"; "-fPIC"; openmp_flag; "-o"; o_name;
              "-O3"; "-pipe"].

  (** The link command of the Windows branch. *)
Definition link_cmd_windows (cxx list_name so_name : string) : string :=
    join " " [cxx; "-shared"; "@" ++ list_name; openmp_flag; "-fPIC";
              "-flto"; "-o"; so_name; "-O3"; "-pipe"].

  (** [_compile(cpp_f)]. *)
Definition _compile (cpp_f : string) : io tmpfile :=
    match CXX_COMPILER m with
    | None => io_raise (Exception no_compiler_message)
    | Some cxx =>
        o_f <~ NamedTemporaryFile h "compiledtrees_" ".o" ;;
        _ <~ (if system_eqb (platform_system h) Windows then close m o_f
              else io_ret tt) ;;
        _ <~ _call [Some cxx; Some cpp_f; Some "-c"; Some "-fPIC";
                    Some openmp_flag; Some "-o"; Some (f_name o_f);
                    Some "-O3"; Some "-pipe"] ;;
        io_ret o_f
    end.

  (** [_compile] as a thread of a pool runs it, in two steps: up to the call
      of the compiler (lines 202-210), and that call with the return (lines
      211-212). *)
Definition _compile_open (cpp_f : string) : io tmpfile :=
    match CXX_COMPILER m with
    | None => io_raise (Exception no_compiler_message)
    | Some _ =>
        o_f <~ NamedTemporaryFile h "compiledtrees_" ".o" ;;
        _ <~ (if system_eqb (platform_system h) Windows then close m o_f
              else io_ret tt) ;;
        io_ret o_f
    end.

Definition _compile_run (cpp_f : string) (o_f : tmpfile) : io tmpfile :=
    _ <~ _call [CXX_COMPILER m; Some cpp_f; Some "-c"; Some "-fPIC";
                Some openmp_flag; Some "-o"; Some (f_name o_f);
                Some "-O3"; Some "-pipe"] ;;
    io_ret o_f.

  (** How far a job [_compile(cpp_f)] of a pool has come: not started, its
      object file made and the compiler about to be called, or returned or
      raised. *)
Inductive stage : Type :=
  | Waiting
  | Opened (o_f : tmpfile)
  | Finished (r : result tmpfile).

  (** The next step of one job. *)
Definition advance (cpp_f : string) (s : stage) : world -> stage * world :=
    fun w =>
      match s with
      | Waiting =>
          match _compile_open cpp_f w with
          | (inl e, w') => (Finished (inl e), w')
          | (inr o_f, w') => (Opened o_f, w')
          end
      | Opened o_f =>
          let (r, w') := _compile_run cpp_f o_f w in (Finished r, w')
      | Finished r => (Finished r, w)
      end.

  (** Job [i] of the pool takes its next step. *)
Fixpoint tick (i : nat) (pool : list (string * stage)) {struct pool}
      : world -> list (string * stage) * world :=
    fun w =>
      match pool with
      | [] => ([], w)
      | (cpp_f, s) :: rest =>
          match i with
          | O => let (s', w') := advance cpp_f s w in ((cpp_f, s') :: rest, w')
          | S i' => let (rest', w') := tick i' rest w in ((cpp_f, s) :: rest', w')
          end
      end.

Fixpoint run_ticks (order : list nat) (pool : list (string * stage))
      : world -> list (string * stage) * world :=
    fun w =>
      match order with
      | [] => (pool, w)
      | i :: order' => let (pool', w') := tick i pool w in run_ticks order' pool' w'
      end.

  (** The exception of the first job, in the order of the jobs, that has
      raised. *)
Fixpoint first_error (pool : list (string * stage)) : option exn :=
    match pool with
    | [] => None
    | (_, Finished (inl e)) :: _ => Some e
    | _ :: rest => first_error rest
    end.

  (** The caller takes the results in the order of the jobs, each job being
      brought to its end when its turn comes. *)
Fixpoint finish (pool : list (string * stage)) : io (list tmpfile) :=
    match pool with
    | [] => io_ret []
    | (cpp_f, s) :: rest =>
        o_f <~ match s with
               | Waiting => _compile cpp_f
               | Opened o_f => _compile_run cpp_f o_f
               | Finished r => lift r
               end ;;
        o_files <~ finish rest ;;
        io_ret (o_f :: o_files)
    end.

  (** [Parallel(n_jobs=n_jobs, backend='threading')(delayed(_compile)(f.name)
      for f in files)] of joblib.  [n_jobs = 0] is refused with [ValueError]
      before any job runs; with [n_jobs = 1] the jobs run in the caller, one
      after the other, and the first exception ends the call.  Any other
      [n_jobs] asks for a pool of threads (or, where it comes down to one
      worker, for the sequential run, which is the empty [order]): the jobs
      take their steps in an order that the program does not fix, here the
      list [order] of job numbers, the caller gets the results in the order
      of the jobs, and when a job has raised, the exception of the first such
      job is raised in the caller, whatever the jobs behind it have done by
      then. *)
Definition Parallel_compile (n_jobs : Z) (order : list nat)
      (files : list tmpfile) : io (list tmpfile) :=
    if n_jobs =? 0 then io_raise ValueError
    else if n_jobs =? 1 then io_map (fun f => _compile (f_name f)) files
    else
      fun w =>
        let (pool, w1) :=
          run_ticks order (map (fun f => (f_name f, Waiting)) files) w in
        match first_error pool with
        | Some e => (inl e, w1)
        | None => finish pool w1
        end.

  (** The argument [files]: one file object or a list of them. *)
Inductive files_arg : Type :=
  | OneFile (f : tmpfile)
  | FileList (fs : list tmpfile).

Definition as_list (files : files_arg) : list tmpfile :=
    match files with
    | OneFile f => [f]
    | FileList fs => fs
    end.

  (** One entry of the file of object names given to the linker on Windows. *)
Definition list_entry (o_f : tmpfile) : string :=
    replace_char BACKSLASH (chr BACKSLASH ++ chr BACKSLASH) (f_name o_f) ++ chr CR.

  (** [for f in o_files: list_ofiles.write(...)]. *)
Definition write_entries (o_files : list tmpfile) (list_ofiles : tmpfile)
      : tmpfile :=
    fold_left (fun lf o_f => file_write lf (list_entry o_f)) o_files list_ofiles.

  (** [compile_code_to_object(files, n_jobs)]; [n_jobs] is 1 by default.
      [order] is the order in which the threads of the pool take their steps,
      see [Parallel_compile]. *)
Definition compile_code_to_object (files : files_arg) (n_jobs : Z)
      (order : list nat) : io tmpfile :=
    let files := as_list files in
    let windows := system_eqb (platform_system h) Windows in
    _ <~ (if windows then io_iter (close m) files else io_ret tt) ;;
    o_files <~ Parallel_compile n_jobs order files ;;
    so_f <~ NamedTemporaryFile h "compiledtrees_" ".so" ;;
    _ <~ (if windows then close m so_f else io_ret tt) ;;
    _ <~ (if windows then
            list_ofiles <~ NamedTemporaryFile h "list_ofiles_" EmptyString ;;
            let list_ofiles := write_entries o_files list_ofiles in
            _ <~ close m list_ofiles ;;
            _ <~ _call [CXX_COMPILER m; Some "-shared";
                        Some ("@" ++ f_name list_ofiles);
                        Some openmp_flag; Some "-fPIC"; Some "-flto";
                        Some "-o"; Some (f_name so_f);
                        Some "-O3"; Some "-pipe"] ;;
            _ <~ io_iter (fun f => unlink (f_name f)) o_files ;;
            _ <~ io_iter (fun f => unlink (f_name f)) files ;;
            unlink (f_name list_ofiles)
          else
            _call ([CXX_COMPILER m; Some "-shared"]
                   ++ map (fun f => Some (f_name f)) o_files
                   ++ [Some "-fPIC"; Some "-flto"; Some openmp_flag;
                       Some "-o"; Some (f_name so_f);
                       Some "-O3"; Some "-pipe"])%list) ;;
    io_ret so_f.

End Build.

(** What a pool of compile jobs has done so far. *)
Section PoolState.

Variable h : host.
Variable m : globals.

(** The object files of the jobs that have made theirs, in the order of the
    jobs. *)
Fixpoint pool_objects (pool : list (string * stage)) : list tmpfile :=
  match pool with
  | [] => []
  | (_, Opened o_f) :: rest => o_f :: pool_objects rest
  | (_, Finished (inr o_f)) :: rest => o_f :: pool_objects rest
  | _ :: rest => pool_objects rest
  end.

(** The compile commands of the jobs that have returned, in the order of the
    jobs. *)
Fixpoint pool_commands (cxx : string) (pool : list (string * stage))
    : list string :=
  match pool with
  | [] => []
  | (cpp_f, Finished (inr o_f)) :: rest =>
      compile_cmd m cxx cpp_f (f_name o_f) :: pool_commands cxx rest
  | _ :: rest => pool_commands cxx rest
  end.

(** Files that are closed stay on the disk. *)
Definition keeps_files : Prop :=
  platform_system h = Windows -> delete_files m = false.

(** A pool for the units [names], started when [t0] temporary files had been
    made, the commands [calls0] run and the disk was [disk0], in which no job
    has raised: the object files made are the next temporary files, in some
    order; the commands run since are those of the jobs that have returned, in
    some order; and where closed files are kept, nothing has left the disk. *)
Definition pool_ok (cxx : string) (names : list string) (t0 : nat)
    (calls0 : list shell_call) (disk0 : list (string * string))
    (pool : list (string * stage)) (w : world) : Prop :=
  map fst pool = names
  /\ first_error pool = None
  /\ (t0 <= w_tmp w)%nat
  /\ Permutation (map f_name (pool_objects pool))
       (map (fun k => numbered h "compiledtrees_" k ".o")
          (seq t0 (w_tmp w - t0)))
  /\ (exists cs : list shell_call,
        w_calls w = (calls0 ++ cs)%list
        /\ Permutation (map sc_cmd cs) (pool_commands cxx pool))
  /\ (keeps_files ->
      forall q : string,
        In q (map f_name (pool_objects pool)) \/ disk_get q disk0 <> None ->
        disk_get q (w_disk w) <> None).

End PoolState.

(* ================================================================== *)
(** * The generated C++: reading the text and running it               *)
(* ================================================================== *)

(** The generated units use a small fragment of C++.  Its meaning is given on
    the text itself: a unit is cut into lines, every line is read as one
    token, and the tokens are run.  The two operations on literals that
    depend on the floating-point format, and the arithmetic, are those of the
    class [CFloat]. *)
Class CFloat (real : Type) : Type := {
  read_double : string -> option real;   (* a literal of type double *)
  read_float : string -> option real;    (* a literal with the suffix f *)
  real_le : real -> real -> bool;
  real_add : real -> real -> real;
  real_mul : real -> real -> real
}.

Module CText.

(** The pieces of [s] between the occurrences of [c]; a text without [c] is
    one piece. *)
Fixpoint pieces_at (c : ascii) (s : string) : list string :=
  match s with
  | EmptyString => [EmptyString]
  | String a s' =>
      if Ascii.eqb a c then EmptyString :: pieces_at c s'
      else match pieces_at c s' with
           | p :: ps => String a p :: ps
           | [] => [String a EmptyString]
           end
  end.

(** The lines of a text, without their line feeds. *)
Definition lines_of (s : string) : list string := pieces_at LF s.

Fixpoint lstrip (s : string) : string :=
  match s with
  | String c s' => if Ascii.eqb c SPACE then lstrip s' else s
  | EmptyString => EmptyString
  end.

Fixpoint strip_prefix (p s : string) : option string :=
  match p, s with
  | EmptyString, _ => Some s
  | String a p', String b s' =>
      if Ascii.eqb a b then strip_prefix p' s' else None
  | String _ _, EmptyString => None
  end.

Fixpoint strip_suffix (suf s : string) : option string :=
  if String.eqb s suf then Some EmptyString
  else match s with
       | EmptyString => None
       | String c s' => option_map (String c) (strip_suffix suf s')
       end.

(** The text before and after the first [c]. *)
Fixpoint split_at (c : ascii) (s : string) : option (string * string) :=
  match s with
  | EmptyString => None
  | String a s' =>
      if Ascii.eqb a c then Some (EmptyString, s')
      else option_map (fun p => (String a (fst p), snd p)) (split_at c s')
  end.

(** The items of a list written with the separator [c]; the empty text has
    no item. *)
Definition pieces (c : ascii) (s : string) : list string :=
  match s with
  | EmptyString => []
  | _ => pieces_at c s
  end.

Definition parse_Z (s : string) : option Z :=
  option_map Z.of_int (NilZero.int_of_string s).

Definition parse_nat (s : string) : option nat :=
  match parse_Z s with
  | Some z => if 0 <=? z then Some (Z.to_nat z) else None
  | None => None
  end.

Fixpoint all_some {A : Type} (l : list (option A)) : option (list A) :=
  match l with
  | [] => Some []
  | None :: _ => None
  | Some a :: l' => option_map (cons a) (all_some l')
  end.

End CText.
Import CText.

Inductive ctoken : Type :=
| TOpen                                   (* {                              *)
| TClose                                  (* }                              *)
| TElse                                   (* else {                         *)
| TIf (index : Z) (lit : string)          (* if (f[index] <= litf) {        *)
| TReturn (expr : string)                 (* return expr;                   *)
| TFunDef (name : string) (arity : nat)   (* double name(float* f ...) {    *)
| TTable (size : nat) (names : list string)
                                          (* the table funcs of size pointers *)
| TInit (lit : string)                    (* double result = lit;           *)
| TFor (bound : nat)                      (* for(int i=0; i<bound; ++i)     *)
| TAccum (lit : string)                   (* result += funcs[i](f) * lit;   *)
| TSkip                                   (* a line without effect at run time *)
| TBad.                                   (* a line outside the fragment    *)

(** [return expr;] *)
Definition read_return (s : string) : option ctoken :=
  match strip_prefix "return " s with
  | Some rest => option_map TReturn (strip_suffix ";" rest)
  | None => None
  end.

(** [if (f[index] <= litf) {] *)
Definition read_if (s : string) : option ctoken :=
  match strip_prefix "if (f[" s with
  | Some rest =>
      match split_at "]" rest with
      | Some (idx, rest2) =>
          match parse_Z idx, strip_prefix " <= " rest2 with
          | Some k, Some rest3 => option_map (TIf k) (strip_suffix "f) {" rest3)
          | _, _ => None
          end
      | None => None
      end
  | None => None
  end.

(** [for(int i=0; i<bound; ++i)] *)
Definition read_for (s : string) : option ctoken :=
  match strip_prefix "for(int i=0; i<" s with
  | Some rest =>
      match split_at ";" rest with
      | Some (n, rest2) =>
          match parse_nat n with
          | Some bound => if String.eqb rest2 " ++i)" then Some (TFor bound) else None
          | None => None
          end
      | None => None
      end
  | None => None
  end.

(** [result += funcs[i](f) * lit;] *)
Definition read_accum (s : string) : option ctoken :=
  match strip_prefix "result += funcs[i](f) * " s with
  | Some rest => option_map TAccum (strip_suffix ";" rest)
  | None => None
  end.

(** The items [&name] of an initializer list. *)
Definition read_names (items : string) : option (list string) :=
  all_some (map (fun it => strip_prefix "&" (lstrip it)) (pieces "," items)).

(** [name(float* f) {], [name(float* f, int n_jobs) {] or the declaration
    [name(float* f);]. *)
Definition read_function (rest : string) : option ctoken :=
  match split_at "(" rest with
  | Some (name, params) =>
      if identifier name then
        if String.eqb params "float* f) {" then Some (TFunDef name 1)
        else if String.eqb params "float* f, int n_jobs) {" then Some (TFunDef name 2)
        else if String.eqb params "float* f);" then Some TSkip
        else None
      else None
  | None => None
  end.

(** [result = lit;] *)
Definition read_init (rest : string) : option ctoken :=
  match strip_prefix "result = " rest with
  | Some init => option_map TInit (strip_suffix ";" init)
  | None => None
  end.

(** The table of function pointers, behind [double ]. *)
Definition read_table (rest : string) : option ctoken :=
  match strip_prefix ("(" ++ "* funcs [") rest with
  | Some tab =>
      match split_at "]" tab with
      | Some (n, rest2) =>
          match parse_nat n, strip_prefix ")(float* f) = {" rest2 with
          | Some size, Some rest3 =>
              match strip_suffix "};" rest3 with
              | Some items => option_map (TTable size) (read_names items)
              | None => None
              end
          | _, _ => None
          end
      | None => None
      end
  | None => None
  end.

(** After [double ]: a function, the accumulator or the table. *)
Definition read_double_line (rest : string) : option ctoken :=
  match read_function rest with
  | Some t => Some t
  | None =>
      match read_init rest with
      | Some t => Some t
      | None => read_table rest
      end
  end.

Fixpoint first_of (rs : list (option ctoken)) : ctoken :=
  match rs with
  | [] => TBad
  | Some t :: _ => t
  | None :: rs' => first_of rs'
  end.

(** One line, without its indentation, as a token. *)
Definition classify (s : string) : ctoken :=
  if String.eqb s EmptyString then TSkip
  else if String.eqb s "{" then TOpen
  else if String.eqb s "}" then TClose
  else if String.eqb s "else {" then TElse
  else if String.eqb s "int i;" then TSkip
  else if String.prefix "#" s then TSkip
  else if String.prefix "extern " s then TSkip
  else
    first_of
      [ read_return s;
        read_if s;
        read_for s;
        read_accum s;
        match strip_prefix "double " s with
        | Some rest => read_double_line rest
        | None => None
        end;
        match strip_prefix (ALWAYS_INLINE ++ " double ") s with
        | Some rest => read_double_line rest
        | None => None
        end ].

Definition tokens_of (unit_text : string) : list ctoken :=
  map (fun l => classify (lstrip l)) (lines_of unit_text).

Section CSemantics.

Context {real : Type} `{CFloat real}.

(** [f[k]] for the argument [f]: reading outside the array is undefined. *)
Definition feature_at (fvec : list real) (k : Z) : option real :=
  if k <? 0 then None else nth_error fvec (Z.to_nat k).

(** Running the body of a per-tree function, one token after the other. *)
Inductive tree_state : Type :=
| Run                          (* executing statements *)
| Skip (depth : nat)           (* inside a block that is not executed *)
| Closed (taken : bool)        (* just behind the brace closing a block *)
| Done (v : option real).      (* returned, or undefined *)

Definition tree_run (fvec : list real) (tok : ctoken) : tree_state :=
  match tok with
  | TReturn e => Done (read_double e)
  | TIf k lit =>
      match feature_at fvec k, read_float lit with
      | Some x, Some t => if real_le x t then Run else Skip 0
      | _, _ => Done None
      end
  | TClose => Closed true
  | TOpen | TSkip => Run
  | _ => Done None
  end.

Definition tree_step (fvec : list real) (st : tree_state) (tok : ctoken)
    : tree_state :=
  match st with
  | Done v => Done v
  | Run => tree_run fvec tok
  | Skip d =>
      match tok with
      | TIf _ _ | TElse | TOpen | TFunDef _ _ => Skip (S d)
      | TClose => match d with O => Closed false | S d' => Skip d' end
      | _ => Skip d
      end
  | Closed taken =>
      match tok with
      | TElse => if taken then Skip 0 else Run
      | _ => tree_run fvec tok
      end
  end.

Definition exec_body (fvec : list real) (toks : list ctoken) : option real :=
  match fold_left (tree_step fvec) toks Run with
  | Done v => v
  | _ => None
  end.

(** The tokens behind the head of the definition of [name]. *)
Fixpoint body_of (name : string) (arity : nat) (toks : list ctoken)
    : option (list ctoken) :=
  match toks with
  | [] => None
  | TFunDef n a :: rest =>
      if String.eqb n name && Nat.eqb a arity then Some rest
      else body_of name arity rest
  | _ :: rest => body_of name arity rest
  end.

Fixpoint table_of (toks : list ctoken) : option (nat * list string) :=
  match toks with
  | [] => None
  | TTable size names :: _ => Some (size, names)
  | _ :: rest => table_of rest
  end.

(** The units of a program, linked: all their tokens. *)
Definition link (units : list string) : list ctoken :=
  List.concat (map tokens_of units).

(** A call [name(f)] of a per-tree function. *)
Definition call_partial (units : list string) (name : string)
    (fvec : list real) : option real :=
  match body_of name 1 (link units) with
  | Some body => exec_body fvec body
  | None => None
  end.

(** A call [funcs[i](f)]. *)
Definition call_funcs (units : list string) (i : nat) (fvec : list real)
    : option real :=
  match table_of (link units) with
  | Some (size, names) =>
      if (i <? size)%nat then
        match nth_error names i with
        | Some name => call_partial units name fvec
        | None => None
        end
      else None
  | None => None
  end.

(** One pass of a loop body, a list of weights accumulated into [result]. *)
Fixpoint loop_pass (units : list string) (fvec : list real)
    (body : list string) (i : nat) (acc : option real) : option real :=
  match body with
  | [] => acc
  | lit :: body' =>
      match acc, call_funcs units i fvec, read_double lit with
      | Some a, Some p, Some w =>
          loop_pass units fvec body' i (Some (real_add a (real_mul p w)))
      | _, _, _ => None
      end
  end.

(** [for(int i=0; i<n; ++i) { body }], the passes in the order of [i]. *)
Definition for_loop (units : list string) (fvec : list real)
    (n : nat) (body : list string) (acc : option real) : option real :=
  fold_left (fun a i => loop_pass units fvec body i a) (seq 0 n) acc.

(** Running the body of the combining function. *)
Inductive main_mode : Type :=
| Top
| ForHead (n : nat)
| InLoop (n : nat) (body : list string)
| Fin (v : option real).

Definition main_step (units : list string) (fvec : list real)
    (st : option real * main_mode) (tok : ctoken) : option real * main_mode :=
  let (acc, mode) := st in
  match mode with
  | Fin v => (acc, Fin v)
  | Top =>
      match tok with
      | TInit lit =>
          match read_double lit with
          | Some v => (Some v, Top)
          | None => (acc, Fin None)
          end
      | TSkip => (acc, Top)
      | TFor n => (acc, ForHead n)
      | TReturn e =>
          (acc, Fin (if String.eqb e "result" then acc else read_double e))
      | _ => (acc, Fin None)
      end
  | ForHead n =>
      match tok with
      | TOpen => (acc, InLoop n [])
      | _ => (acc, Fin None)
      end
  | InLoop n body =>
      match tok with
      | TAccum lit => (acc, InLoop n (body ++ [lit])%list)
      | TSkip => (acc, InLoop n body)
      | TClose =>
          match for_loop units fvec n body acc with
          | Some v => (Some v, Top)
          | None => (acc, Fin None)
          end
      | _ => (acc, Fin None)
      end
  end.


(* ================================================================== *)
(** * The reference: interpreting the node arrays                      *)
(* ================================================================== *)

Definition entry {A : Type} (l : list A) (i : Z) : option A :=
  if i <? 0 then None else nth_error l (Z.to_nat i).

(** The prediction of a tree read off its node arrays: from [node], go left
    when the feature is at most the threshold, right otherwise, down to a
    leaf. *)
Fixpoint predict (depth : nat) (tree : Tree real) (node : Z)
    (fvec : list real) : option real :=
  match depth with
  | O => None
  | S depth' =>
      match entry (children_left tree) node with
      | None => None
      | Some l =>
          if l =? -1 then
            match entry (value tree) node with
            | Some (v :: _) => Some v
            | _ => None
            end
          else
            match entry (children_right tree) node,
                  entry (feature tree) node, entry (threshold tree) node with
            | Some r, Some k, Some t =>
                match feature_at fvec k with
                | Some x =>
                    if real_le x t then predict depth' tree l fvec
                    else predict depth' tree r fvec
                | None => None
                end
            | _, _, _ => None
            end
      end
  end.


(** A node and all below it are laid out as a tree of height at most
    [depth]: ids are in range, an inner node has its two children, its
    feature and its threshold, and the value stored at a leaf satisfies
    [P]. *)
Fixpoint laid_out (P : list real -> bool) (depth : nat) (tree : Tree real)
    (node : Z) : bool :=
  match depth with
  | O => false
  | S depth' =>
      match entry (children_left tree) node with
      | None => false
      | Some l =>
          if l =? -1 then
            match entry (value tree) node with
            | Some v => P v
            | None => false
            end
          else
            match entry (children_right tree) node,
                  entry (feature tree) node, entry (threshold tree) node with
            | Some r, Some _, Some _ =>
                laid_out P depth' tree l && laid_out P depth' tree r
            | _, _, _ => false
            end
      end
  end.

(** The layout alone. *)
Definition wf_layout (depth : nat) (tree : Tree real) : bool :=
  laid_out (fun _ => true) depth tree 0.

(** A well-formed tree: node 0 is the root and every leaf stores one
    number. *)
Definition wf_tree (depth : nat) (tree : Tree real) : bool :=
  laid_out (fun v => (List.length v =? 1)%nat) depth tree 0.

End CSemantics.

(* ================================================================== *)
(** * A number format to run the model on                              *)
(* ================================================================== *)

(** Decimal numbers with three digits behind the point, counted in
    thousandths; they are printed the way Python prints such floats
    ([0.5], [1.0], [0.176]) and read back exactly. *)
Module Milli.

Record milli : Type := Milli { thousandths : Z }.

Definition digit (d : Z) : string := str_of_Z (d mod 10).

Definition frac_text (n : Z) : string :=
  let d1 := n / 100 in
  let d2 := n / 10 in
  let d3 := n in
  if negb (d3 mod 10 =? 0) then digit d1 ++ digit d2 ++ digit d3
  else if negb (d2 mod 10 =? 0) then digit d1 ++ digit d2
  else digit d1.

Definition format (x : milli) : string :=
  let z := thousandths x in
  (if z <? 0 then "-" else EmptyString)
  ++ str_of_Z (Z.abs z / 1000) ++ "." ++ frac_text (Z.abs z mod 1000).

Definition scale (digits : nat) : option Z :=
  match digits with
  | 1%nat => Some 100
  | 2%nat => Some 10
  | 3%nat => Some 1
  | _ => None
  end.

Definition read_unsigned (s : string) : option Z :=
  match split_at "." s with
  | Some (ip, fp) =>
      match parse_nat ip, parse_nat fp, scale (String.length fp) with
      | Some i, Some f, Some k => Some (Z.of_nat i * 1000 + Z.of_nat f * k)
      | _, _, _ => None
      end
  | None => None
  end.

Definition read (s : string) : option milli :=
  match strip_prefix "-" s with
  | Some rest => option_map (fun z => Milli (- z)) (read_unsigned rest)
  | None => option_map Milli (read_unsigned s)
  end.

Definition le (x y : milli) : bool := thousandths x <=? thousandths y.

Definition add (x y : milli) : milli := Milli (thousandths x + thousandths y).

Definition mul (x y : milli) : milli :=
  Milli (thousandths x * thousandths y / 1000).

#[export] Instance milli_PyFloat : PyFloat milli := {| format_float := format |}.

#[export] Instance milli_CFloat : CFloat milli := {|
  read_double := read;
  read_float := read;
  real_le := le;
  real_add := add;
  real_mul := mul
|}.

End Milli.
Import Milli.

(** Whole numbers as floats.  A float64 that is a whole number of magnitude
    below 2^53 is printed by Python as its digits followed by [.0]; a C++
    compiler reads such a literal exactly when it is a double, and with the
    suffix f as the nearest single-precision number: 24 significant bits,
    a tie going to the neighbour with the even significand. *)
Module Whole.

Record whole : Type := Whole { units : Z }.

Definition format (x : whole) : string := str_of_Z (units x) ++ ".0".

(** The whole number written as [<digits>.0]. *)
Definition read_exact (s : string) : option Z :=
  match split_at "." s with
  | Some (ip, fp) => if String.eqb fp "0" then parse_Z ip else None
  | None => None
  end.

(** Rounding to single precision. *)
Definition to_single (z : Z) : Z :=
  let a := Z.abs z in
  if a <? 2 ^ 24 then z
  else
    let e := Z.log2 a - 23 in
    let q := a / 2 ^ e in
    let r := a mod 2 ^ e in
    let half := 2 ^ (e - 1) in
    let q' := if r <? half then q
              else if half <? r then q + 1
              else if Z.even q then q else q + 1 in
    Z.sgn z * (q' * 2 ^ e).

Definition read_as_double (s : string) : option whole :=
  option_map Whole (read_exact s).

Definition read_as_single (s : string) : option whole :=
  option_map (fun z => Whole (to_single z)) (read_exact s).

Definition le (x y : whole) : bool := units x <=? units y.

Definition add (x y : whole) : whole := Whole (units x + units y).

Definition mul (x y : whole) : whole := Whole (units x * units y).

#[export] Instance whole_PyFloat : PyFloat whole := {| format_float := format |}.

#[export] Instance whole_CFloat : CFloat whole := {|
  read_double := read_as_double;
  read_float := read_as_single;
  real_le := le;
  real_add := add;
  real_mul := mul
|}.

End Whole.
Import Whole.

(* ================================================================== *)
(** * Inputs to run the model on                                       *)
(* ================================================================== *)

Definition linux_host : host :=
  {| platform_system := Linux;
     environ_CXX := None;
     sysconfig_CXX := Some "g++";
     cxx_version := inr "g++ (GCC) 9.3.0";
     tempdir := "/tmp/";
     shell_status := fun _ => 0 |}.

Definition linux_globals : globals :=
  {| CXX_COMPILER := Some "g++"; delete_files := true; OPENMP_SUPPORT := true |}.

(** The tree of the docstring: one split on feature 9, leaves 0.0 and 1.0. *)
Definition stump (k : Z) (t lo hi : milli) : Tree milli :=
  {| children_left := [1; -1; -1];
     children_right := [2; -1; -1];
     feature := [k; -2; -2];
     threshold := [t; Milli (-2000); Milli (-2000)];
     value := [[Milli 500]; [lo]; [hi]] |}.

Definition stump9 : Tree milli :=
  stump 9 (Milli 176) (Milli 0) (Milli 1000).

(* ================================================================== *)
(** * What the generator is expected to write                          *)
(* ================================================================== *)

Section Expected.

Context {real : Type} `{PyFloat real} `{CFloat real}.

(** The indentation of depth [d]: two spaces per level. *)
Definition indentation (d : Z) : string := str_mul "  " d.

(** A text from its lines, each ended by a line feed. *)
Fixpoint unlines (ls : list string) : string :=
  match ls with
  | [] => EmptyString
  | l :: ls' => l ++ chr LF ++ unlines ls'
  end.

(** The nested conditional for [node], as lines at depth [d]: a leaf is a
    return statement; an inner node is the test of its feature against its
    threshold, the lowering of the left child in braces, and the lowering of
    the right child in the braces of the else. *)
Fixpoint lowering (depth : nat) (tree : Tree real) (node : Z) (d : Z)
    : list string :=
  match depth with
  | O => []
  | S depth' =>
      match entry (children_left tree) node with
      | None => []
      | Some l =>
          if l =? -1 then
            match entry (value tree) node with
            | Some (v :: _) =>
                [indentation d ++ "return " ++ format_float v ++ ";"]
            | _ => []
            end
          else
            match entry (children_right tree) node,
                  entry (feature tree) node, entry (threshold tree) node with
            | Some r, Some k, Some t =>
                let test := indentation d ++ "if (f[" ++ str_of_Z k ++ "] <= "
                              ++ format_float t ++ "f) {" in
                let close := indentation d ++ "}" in
                let other := indentation d ++ "else {" in
                (test :: lowering depth' tree l (d + 1)
                   ++ close :: other :: lowering depth' tree r (d + 1)
                   ++ [close])%list
            | _, _, _ => []
            end
      end
  end.

(** The unit of one tree. *)
Definition tree_unit (depth : nat) (tree : Tree real) (name : string)
    : list string :=
  let linkage := "extern " ++ chr DQUOTE ++ "C" ++ chr DQUOTE ++ " {" in
  let head := "  __attribute__((__always_inline__)) double " ++ name
                ++ "(float* f) {" in
  (linkage :: head :: lowering depth tree 0 2 ++ ["  }"; "}"])%list.

(** The unit of the combiner for [n] trees. *)
Definition combiner_unit (omp : bool) (n : nat) (weight initial_value : real)
    : list string :=
  let linkage := "extern " ++ chr DQUOTE ++ "C" ++ chr DQUOTE ++ " {" in
  let declaration i := "  double evaluate_" ++ str_of_nat i ++ "(float* f);" in
  let pointer i := "&evaluate_" ++ str_of_nat i in
  let table := "  double (" ++ "* funcs [" ++ str_of_nat n ++ "])(float* f) = {"
                 ++ join ", " (map pointer (seq 0 n)) ++ "};" in
  let init := "    double result = " ++ format_float initial_value ++ ";" in
  let loop := "    for(int i=0; i<" ++ str_of_nat n ++ "; ++i)" in
  let step := "      result += funcs[i](f) * " ++ format_float weight ++ ";" in
  ((if omp then ["#include <omp.h>"] else [])
   ++ linkage :: map declaration (seq 0 n)
   ++ [table;
       "  double evaluate(float* f, int n_jobs) {";
       init;
       "    int i;";
       "    #pragma omp parallel for num_threads(n_jobs) schedule(static) private(i) reduction(+:result)";
       loop;
       "{";
       step;
       "    }";
       "    return result;";
       "  }";
       "}"])%list.

(** The tokens of the nested conditional for [node]. *)
Fixpoint node_tokens (depth : nat) (tree : Tree real) (node : Z)
    : list ctoken :=
  match depth with
  | O => []
  | S depth' =>
      match entry (children_left tree) node with
      | None => []
      | Some l =>
          if l =? -1 then
            match entry (value tree) node with
            | Some (v :: _) => [TReturn (format_float v)]
            | _ => []
            end
          else
            match entry (children_right tree) node,
                  entry (feature tree) node, entry (threshold tree) node with
            | Some r, Some k, Some t =>
                (TIf k (format_float t) :: node_tokens depth' tree l
                   ++ TClose :: TElse :: node_tokens depth' tree r
                   ++ [TClose])%list
            | _, _, _ => []
            end
      end
  end.





(** One written line: indentation, the line, a line feed. *)
Definition emit_line (d : Z) (line : string) : string :=
  indentation d ++ line ++ chr LF.

(** The generator [g] with [t] appended to its file. *)
Definition append_text (t : string) (g : CodeGenerator) : CodeGenerator :=
  {| _file := file_write (_file g) t; _indent := _indent g |}.

(** Started at depth [d], [body] appends [t] and comes back at depth [d]. *)
Definition emits (body : CodeGenerator -> result CodeGenerator) (d : Z)
    (t : string) : Prop :=
  forall g, _indent g = d -> body g = inr (append_text t g).

(** Two generators that differ at most in the name of their file. *)
Definition same_text (g g' : CodeGenerator) : Prop :=
  f_data (_file g) = f_data (_file g') /\ _indent g = _indent g'.

(** Two outcomes that agree: the same exception, or the same text. *)
Definition agree (r r' : result CodeGenerator) : Prop :=
  match r, r' with
  | inr g, inr g' => same_text g g'
  | inl e, inl e' => e = e'
  | _, _ => False
  end.



(** A number whose text can be written to a unit and stays on its line. *)
Definition printable (x : real) : bool :=
  is_ascii (format_float x) && lacks LF (format_float x).

Definition tree_printable (tree : Tree real) : bool :=
  forallb printable (threshold tree)
  && forallb (forallb printable) (value tree).

(** The literals written for the numbers of the tree denote these numbers:
    thresholds are read with the suffix f, leaf values as doubles. *)
Definition literals_exact (tree : Tree real) : Prop :=
  Forall (fun t => read_float (format_float t) = Some t) (threshold tree)
  /\ Forall (Forall (fun v => read_double (format_float v) = Some v))
       (value tree).

(** The node arrays as the generated code has them: every threshold is
    replaced by the value its literal has when read with the suffix f, every
    stored value by the value its literal has when read as a double. *)
Definition reread (tree : Tree real) : option (Tree real) :=
  match all_some (map (fun t => read_float (format_float t)) (threshold tree)),
        all_some
          (map (fun vs =>
                  all_some (map (fun v => read_double (format_float v)) vs))
             (value tree)) with
  | Some ts, Some vss =>
      Some {| children_left := children_left tree;
              children_right := children_right tree;
              feature := feature tree;
              threshold := ts;
              value := vss |}
  | _, _ => None
  end.

(** Every feature an inner node tests is an index into a vector of [n]
    numbers. *)
Definition features_fit (tree : Tree real) (n : nat) : bool :=
  forallb (fun p => (fst p =? -1)
                    || ((0 <=? snd p) && (snd p <? Z.of_nat n)))
    (combine (children_left tree) (feature tree)).

End Expected.

(** Two stumps: on the vector [probe] the first one answers 1.0, the second
    one 0.0. *)
Definition tree_a : Tree milli := stump 0 (Milli 500) (Milli 1000) (Milli 0).
Definition tree_b : Tree milli := stump 1 (Milli 500) (Milli 1000) (Milli 0).

(** A single leaf that stores two numbers, as the tree of a classifier with
    two classes does. *)
Definition two_class_leaf : Tree milli :=
  {| children_left := [-1];
     children_right := [-1];
     feature := [-2];
     threshold := [Milli (-2000)];
     value := [[Milli 200; Milli 800]] |}.

(** A tree without nodes. *)
Definition no_nodes : Tree milli :=
  {| children_left := [];
     children_right := [];
     feature := [];
     threshold := [];
     value := [] |}.

(** A stump on whole numbers whose threshold, 2^24 + 3, lies halfway
    between two single-precision numbers. *)
Definition wide_stump : Tree whole :=
  {| children_left := [1; -1; -1];
     children_right := [2; -1; -1];
     feature := [0; -2; -2];
     threshold := [Whole 16777219; Whole (-2); Whole (-2)];
     value := [[Whole 0]; [Whole 0]; [Whole 1]] |}.

(** The same stump with the threshold the generated code compares with. *)
Definition wide_stump_single : Tree whole :=
  {| children_left := [1; -1; -1];
     children_right := [2; -1; -1];
     feature := [0; -2; -2];
     threshold := [Whole 16777220; Whole (-2); Whole (-2)];
     value := [[Whole 0]; [Whole 0]; [Whole 1]] |}.

(** A generator that has written nothing yet. *)
Definition blank_gen : CodeGenerator :=
  {| _file := {| f_name := "/tmp/compiledtrees_0.cpp"; f_data := EmptyString |};
     _indent := 0 |}.

(** A source unit on the disk of the Windows host. *)
Definition unit_a : tmpfile :=
  {| f_name := "C:" ++ chr BACKSLASH ++ "Temp" ++ chr BACKSLASH ++ "a.cpp";
     f_data := EmptyString |}.

Definition unit_d : tmpfile :=
  {| f_name := "C:" ++ chr BACKSLASH ++ "Temp" ++ chr BACKSLASH ++ "d.cpp";
     f_data := EmptyString |}.

(** A host on which the compiler fails on the unit [b.cpp]. *)
Definition flaky_host : host :=
  {| platform_system := Linux;
     environ_CXX := None;
     sysconfig_CXX := Some "g++";
     cxx_version := inr "g++ (GCC) 9.3.0";
     tempdir := "/tmp/";
     shell_status := fun c => if contains "b.cpp" c then 1 else 0 |}.

(** A host on which the linker fails. *)
Definition no_link_host : host :=
  {| platform_system := Windows;
     environ_CXX := Some "g++";
     sysconfig_CXX := None;
     cxx_version := inr "g++ (MinGW) 9.3.0";
     tempdir := "C:" ++ chr BACKSLASH ++ "Temp" ++ chr BACKSLASH;
     shell_status := fun c => if contains "-shared" c then 1 else 0 |}.

Definition unit_b : tmpfile :=
  {| f_name := "/tmp/b.cpp"; f_data := EmptyString |}.

Definition unit_c : tmpfile :=
  {| f_name := "/tmp/c.cpp"; f_data := EmptyString |}.

Definition windows_host : host :=
  {| platform_system := Windows;
     environ_CXX := Some "g++";
     sysconfig_CXX := None;
     cxx_version := inr "g++ (MinGW) 9.3.0";
     tempdir := "C:" ++ chr BACKSLASH ++ "Temp" ++ chr BACKSLASH;
     shell_status := fun _ => 0 |}.

Definition windows_globals : globals :=
  {| CXX_COMPILER := Some "g++"; delete_files := false; OPENMP_SUPPORT := true |}.

(** A host without a compiler: Windows with [CXX] not set. *)
Definition bare_host : host :=
  {| platform_system := Windows;
     environ_CXX := None;
     sysconfig_CXX := None;
     cxx_version := inl OSError;
     tempdir := "C:" ++ chr BACKSLASH ++ "Temp" ++ chr BACKSLASH;
     shell_status := fun _ => 0 |}.

Definition bare_globals : globals :=
  {| CXX_COMPILER := None; delete_files := false; OPENMP_SUPPORT := true |}.

(** Darwin with the clang of Xcode. *)
Definition darwin_host : host :=
  {| platform_system := Darwin;
     environ_CXX := None;
     sysconfig_CXX := Some "c++";
     cxx_version := inr "Apple clang version 12.0.0";
     tempdir := "/tmp/";
     shell_status := fun _ => 0 |}.

Definition darwin_globals : globals :=
  {| CXX_COMPILER := Some "c++"; delete_files := true; OPENMP_SUPPORT := false |}.

(* ================================================================== *)
(** * Facts about text                                                 *)
(* ================================================================== *)

Section TextFacts.

Lemma append_nil_r (s : string) : s ++ EmptyString = s.
Proof. induction s as [|c s IH]; simpl; [reflexivity | now rewrite IH]. Qed.

Lemma append_assoc (a b c : string) : (a ++ b) ++ c = a ++ b ++ c.
Proof. induction a as [|x a IH]; simpl; [reflexivity | now rewrite IH]. Qed.

Lemma all_chars_app (P : ascii -> bool) (a b : string) :
  all_chars P (a ++ b) = all_chars P a && all_chars P b.
Proof.
  induction a as [|x a IH]; simpl; [reflexivity|].
  now rewrite IH, andb_assoc.
Qed.

Lemma all_chars_impl (P Q : ascii -> bool) (s : string) :
  (forall c, P c = true -> Q c = true) ->
  all_chars P s = true -> all_chars Q s = true.
Proof.
  intros HPQ. induction s as [|c s IH]; simpl; [reflexivity|].
  intros [Hc Hs]%andb_prop. now rewrite (HPQ _ Hc), IH.
Qed.

Lemma is_ascii_app (a b : string) :
  is_ascii (a ++ b) = is_ascii a && is_ascii b.
Proof. apply all_chars_app. Qed.

Lemma lacks_app (c : ascii) (a b : string) :
  lacks c (a ++ b) = lacks c a && lacks c b.
Proof. apply all_chars_app. Qed.

Lemma all_chars_repeat (P : ascii -> bool) (s : string) (n : nat) :
  all_chars P s = true -> all_chars P (repeat_text s n) = true.
Proof.
  intros Hs. induction n as [|n IH]; simpl; [reflexivity|].
  now rewrite all_chars_app, Hs, IH.
Qed.



Lemma string_length_app (a b : string) :
  String.length (a ++ b) = (String.length a + String.length b)%nat.
Proof. induction a as [|x a IH]; simpl; [reflexivity | now rewrite IH]. Qed.


Lemma uint_digits (d : Decimal.uint) :
  all_chars is_digit (NilEmpty.string_of_uint d) = true.
Proof. induction d; simpl; auto. Qed.

Lemma str_of_nat_digits (n : nat) : all_chars is_digit (str_of_nat n) = true.
Proof.
  unfold str_of_nat, str_of_Z.
  destruct (Z.of_nat n) as [|p|p] eqn:E; simpl; try apply uint_digits; try lia.
Qed.

Lemma str_of_Z_chars (z : Z) :
  all_chars (fun c => is_digit c || Ascii.eqb c "-") (str_of_Z z) = true.
Proof.
  unfold str_of_Z.
  destruct z as [|p|p]; simpl; try reflexivity.
  - apply all_chars_impl with (P := is_digit); [|apply uint_digits].
    intros c ->. reflexivity.
  - apply all_chars_impl with (P := is_digit); [|apply uint_digits].
    intros c ->. reflexivity.
Qed.

End TextFacts.

(* ================================================================== *)
(** * Facts about the emitter                                          *)
(* ================================================================== *)

Section EmitterFacts.

Lemma append_text_app (t1 t2 : string) (g : CodeGenerator) :
  append_text t2 (append_text t1 g) = append_text (t1 ++ t2) g.
Proof.
  destruct g as [[n dta] i]. unfold append_text, file_write. simpl.
  now rewrite append_assoc.
Qed.

Lemma append_text_nil (g : CodeGenerator) : append_text EmptyString g = g.
Proof.
  destruct g as [[n dta] i]. unfold append_text, file_write. simpl.
  now rewrite append_nil_r.
Qed.

Lemma is_ascii_indentation (d : Z) : is_ascii (indentation d) = true.
Proof. apply all_chars_repeat. reflexivity. Qed.

Lemma is_ascii_emit_line (d : Z) (line : string) :
  is_ascii line = true -> is_ascii (emit_line d line) = true.
Proof.
  intros Hl. unfold emit_line.
  now rewrite !is_ascii_app, is_ascii_indentation, Hl.
Qed.

Lemma write_ascii (line : string) (g : CodeGenerator) :
  is_ascii line = true ->
  write line g = inr (append_text (emit_line (_indent g) line) g).
Proof.
  intros Hl. unfold write, encode_ascii.
  fold (indentation (_indent g)). fold (emit_line (_indent g) line).
  now rewrite (is_ascii_emit_line _ _ Hl).
Qed.

Lemma write_not_ascii (line : string) (g : CodeGenerator) :
  is_ascii line = false -> write line g = inl UnicodeEncodeError.
Proof.
  intros Hl. unfold write, encode_ascii.
  rewrite !is_ascii_app, Hl. simpl.
  now rewrite andb_false_r.
Qed.

Lemma write_emits (line : string) (d : Z) :
  is_ascii line = true -> emits (write line) d (emit_line d line).
Proof. intros Hl g <-. now apply write_ascii. Qed.

Lemma emits_nil (d : Z) : emits (fun g => ret g) d EmptyString.
Proof. intros g _. unfold ret. now rewrite append_text_nil. Qed.

Lemma emits_seq (b1 b2 : CodeGenerator -> result CodeGenerator)
    (d : Z) (t1 t2 : string) :
  emits b1 d t1 -> emits b2 d t2 ->
  emits (fun g => g1 <- b1 g ;; b2 g1) d (t1 ++ t2).
Proof.
  intros H1 H2 g Hg. rewrite (H1 g Hg). simpl.
  rewrite (H2 (append_text t1 g) Hg). now rewrite append_text_app.
Qed.

Lemma emits_ext (b b' : CodeGenerator -> result CodeGenerator)
    (d : Z) (t : string) :
  (forall g, b g = b' g) -> emits b d t -> emits b' d t.
Proof. intros E Hb g Hg. rewrite <- E. now apply Hb. Qed.

Lemma bracketed_emits (pre post : string)
    (body : CodeGenerator -> result CodeGenerator) (d : Z) (t : string) :
  0 <= d -> is_ascii pre = true -> is_ascii post = true ->
  emits body (d + 1) t ->
  emits (bracketed pre post body) d (emit_line d pre ++ t ++ emit_line d post).
Proof.
  intros Hd Hpre Hpost Hbody g Hg. unfold bracketed.
  rewrite Hg. destruct (Z.geb_spec d 0) as [_|]; [|lia].
  rewrite (write_ascii pre g Hpre), Hg. simpl. rewrite Hg.
  rewrite (Hbody (set_indent (d + 1) (append_text (emit_line d pre) g)) eq_refl).
  simpl. rewrite write_ascii by assumption. simpl.
  replace (d + 1 - 1) with d by lia.
  destruct g as [[n dta] i]. simpl in Hg. subst i.
  unfold append_text, set_indent, file_write. simpl.
  now rewrite !append_assoc.
Qed.

Lemma bracketed_raises (pre post : string)
    (body : CodeGenerator -> result CodeGenerator) (d : Z) (e : exn) :
  0 <= d -> is_ascii pre = true ->
  (forall g, _indent g = d + 1 -> body g = inl e) ->
  forall g, _indent g = d -> bracketed pre post body g = inl e.
Proof.
  intros Hd Hpre Hbody g Hg. unfold bracketed.
  rewrite Hg. destruct (Z.geb_spec d 0) as [_|]; [|lia].
  rewrite (write_ascii pre g Hpre), Hg. simpl. rewrite Hg.
  now rewrite Hbody.
Qed.

End EmitterFacts.

(* ================================================================== *)
(** * Facts about the tree generator                                   *)
(* ================================================================== *)

Section TreeFacts.

Context {real : Type} `{PyFloat real} `{CFloat real}.

Lemma entry_py_index {A : Type} (l : list A) (i : Z) (a : A) :
  entry l i = Some a -> py_index l i = inr a.
Proof.
  unfold entry, py_index. destruct (Z.ltb_spec i 0) as [|Hi]; [discriminate|].
  intros Hn. assert (Hlt : (Z.to_nat i < List.length l)%nat).
  { apply nth_error_Some. congruence. }
  destruct (Z.leb_spec 0 i); [|lia].
  destruct (Z.ltb_spec i (Z.of_nat (List.length l))); [|lia].
  simpl. now rewrite Hn.
Qed.

Lemma entry_In {A : Type} (l : list A) (i : Z) (a : A) :
  entry l i = Some a -> In a l.
Proof.
  unfold entry. destruct (i <? 0); [discriminate|]. apply nth_error_In.
Qed.

Lemma digit_or_minus_ascii (c : ascii) :
  is_digit c || Ascii.eqb c "-" = true -> is_ascii_char c = true.
Proof.
  destruct c as [[] [] [] [] [] [] [] []]; vm_compute; congruence.
Qed.

Lemma is_ascii_str_of_Z (z : Z) : is_ascii (str_of_Z z) = true.
Proof.
  eapply all_chars_impl; [|apply str_of_Z_chars]. apply digit_or_minus_ascii.
Qed.

Lemma is_ascii_str_of_nat (n : nat) : is_ascii (str_of_nat n) = true.
Proof. apply is_ascii_str_of_Z. Qed.

Lemma unlines_app (a b : list string) :
  unlines (a ++ b) = unlines a ++ unlines b.
Proof.
  induction a as [|l a IH]; simpl; [reflexivity|].
  now rewrite IH, !append_assoc.
Qed.

Lemma unlines_emit (d : Z) (x : string) (rest : list string) :
  unlines ((indentation d ++ x) :: rest) = emit_line d x ++ unlines rest.
Proof. unfold emit_line. simpl. now rewrite !append_assoc. Qed.

Lemma printable_threshold (tree : Tree real) (node : Z) (t : real) :
  tree_printable tree = true -> entry (threshold tree) node = Some t ->
  is_ascii (format_float t) = true /\ lacks LF (format_float t) = true.
Proof.
  intros [Ht _]%andb_prop Hn. apply entry_In in Hn.
  rewrite forallb_forall in Ht. now apply andb_prop, Ht.
Qed.

Lemma printable_value (tree : Tree real) (node : Z) (v : real) (vs : list real) :
  tree_printable tree = true -> entry (value tree) node = Some (v :: vs) ->
  is_ascii (format_float v) = true /\ lacks LF (format_float v) = true.
Proof.
  intros [_ Hv]%andb_prop Hn. apply entry_In in Hn.
  rewrite forallb_forall in Hv. specialize (Hv _ Hn). simpl in Hv.
  apply andb_prop in Hv as [Hv _]. now apply andb_prop.
Qed.

Lemma is_ascii_leaf_line (v : real) :
  is_ascii (format_float v) = true -> is_ascii (leaf_line v) = true.
Proof. intros Hv. unfold leaf_line. now rewrite !is_ascii_app, Hv. Qed.

Lemma is_ascii_branch_line (k : Z) (t : real) :
  is_ascii (format_float t) = true -> is_ascii (branch_line k t) = true.
Proof.
  intros Ht. unfold branch_line.
  now rewrite !is_ascii_app, Ht, is_ascii_str_of_Z.
Qed.

Lemma bind_inr {A B : Type} (a : A) (k : A -> result B) :
  bind (inr a) k = k a.
Proof. reflexivity. Qed.

Lemma recur_S (depth : nat) (tree : Tree real) (node : Z) (gen : CodeGenerator) :
  recur (S depth) tree node gen =
  (l <- py_index (children_left tree) node ;;
   if l =? -1 then
     v <- py_index (value tree) node ;;
     if (List.length v =? 1)%nat then
       x <- item v ;; write (leaf_line x) gen
     else raise AssertionError
   else
     k <- py_index (feature tree) node ;;
     t <- py_index (threshold tree) node ;;
     g1 <- bracketed (branch_line k t) "}"
             (fun g => c <- py_index (children_left tree) node ;;
                       recur depth tree c g) gen ;;
     bracketed "else {" "}"
       (fun g => c <- py_index (children_right tree) node ;;
                 recur depth tree c g) g1).
Proof. reflexivity. Qed.

Lemma lowering_leaf (depth : nat) (tree : Tree real) (node d : Z)
    (v : real) (vs : list real) :
  entry (children_left tree) node = Some (-1) ->
  entry (value tree) node = Some (v :: vs) ->
  unlines (lowering (S depth) tree node d) = emit_line d (leaf_line v).
Proof.
  intros El Ev. simpl. rewrite El, Ev. simpl.
  unfold emit_line, leaf_line, chr.
  repeat (simpl; rewrite ?append_assoc). reflexivity.
Qed.

Lemma lowering_split (depth : nat) (tree : Tree real) (node d l r k : Z)
    (t : real) :
  entry (children_left tree) node = Some l -> (l =? -1) = false ->
  entry (children_right tree) node = Some r ->
  entry (feature tree) node = Some k ->
  entry (threshold tree) node = Some t ->
  unlines (lowering (S depth) tree node d) =
  (emit_line d (branch_line k t) ++ unlines (lowering depth tree l (d + 1))
     ++ emit_line d "}")
  ++ emit_line d "else {" ++ unlines (lowering depth tree r (d + 1))
     ++ emit_line d "}".
Proof.
  intros El Hl Er Ek Et. cbn [lowering]. rewrite El, Hl, Er, Ek, Et.
  cbv zeta. fold (branch_line k t).
  rewrite unlines_emit, unlines_app, unlines_emit, unlines_emit,
    unlines_app, unlines_emit.
  cbn [unlines]. now rewrite !append_assoc, ?append_nil_r.
Qed.

(** The text [recur] writes for a well-formed subtree. *)
Lemma recur_emits (tree : Tree real) :
  tree_printable tree = true ->
  forall (depth : nat) (node d : Z),
    0 <= d ->
    laid_out (fun v => (List.length v =? 1)%nat) depth tree node = true ->
    emits (recur depth tree node) d (unlines (lowering depth tree node d)).
Proof.
  intros Hp. induction depth as [|depth IH]; intros node d Hd Hwf;
    [discriminate|].
  cbn [laid_out] in Hwf. intros g Hg. rewrite recur_S.
  destruct (entry (children_left tree) node) as [l|] eqn:El; [|discriminate].
  rewrite (entry_py_index _ _ _ El), bind_inr.
  destruct (l =? -1) eqn:Hl.
  - apply Z.eqb_eq in Hl. subst l.
    destruct (entry (value tree) node) as [vs|] eqn:Ev; [|discriminate].
    rewrite (entry_py_index _ _ _ Ev), bind_inr, Hwf.
    destruct vs as [|v [|v' vs]]; try discriminate.
    destruct (printable_value _ _ _ _ Hp Ev) as [Ha _].
    cbn [item ret]. rewrite bind_inr.
    rewrite (write_emits _ d (is_ascii_leaf_line v Ha) g Hg).
    now rewrite (lowering_leaf depth tree node d v [] El Ev).
  - destruct (entry (children_right tree) node) as [r|] eqn:Er; [|discriminate].
    destruct (entry (feature tree) node) as [k|] eqn:Ek; [|discriminate].
    destruct (entry (threshold tree) node) as [t|] eqn:Et; [|discriminate].
    apply andb_prop in Hwf as [Hwl Hwr].
    rewrite (entry_py_index _ _ _ Ek), bind_inr.
    rewrite (entry_py_index _ _ _ Et), bind_inr.
    destruct (printable_threshold _ _ _ Hp Et) as [Ha _].
    rewrite (entry_py_index _ _ _ Er).
    assert (Hleft : emits (bracketed (branch_line k t) "}" (recur depth tree l)) d
                     (emit_line d (branch_line k t)
                      ++ unlines (lowering depth tree l (d + 1))
                      ++ emit_line d "}")).
    { apply bracketed_emits; try easy. { now apply is_ascii_branch_line. }
      apply IH; [lia | assumption]. }
    assert (Hright : emits (bracketed "else {" "}" (recur depth tree r)) d
                     (emit_line d "else {"
                      ++ unlines (lowering depth tree r (d + 1))
                      ++ emit_line d "}")).
    { apply bracketed_emits; try easy. apply IH; [lia | assumption]. }
    rewrite (lowering_split depth tree node d l r k t El Hl Er Ek Et).
    exact (emits_seq _ _ _ _ _ Hleft Hright g Hg).
Qed.

(** A leaf that does not hold exactly one number stops the generator. *)
Lemma recur_asserts (tree : Tree real) :
  tree_printable tree = true ->
  forall (depth : nat) (node d : Z),
    0 <= d ->
    laid_out (fun _ => true) depth tree node = true ->
    laid_out (fun v => (List.length v =? 1)%nat) depth tree node = false ->
    forall g, _indent g = d -> recur depth tree node g = inl AssertionError.
Proof.
  intros Hp. induction depth as [|depth IH]; intros node d Hd Hlay Hbad g Hg;
    [discriminate|].
  cbn [laid_out] in Hlay, Hbad. rewrite recur_S.
  destruct (entry (children_left tree) node) as [l|] eqn:El; [|discriminate].
  rewrite (entry_py_index _ _ _ El), bind_inr.
  destruct (l =? -1) eqn:Hl.
  - destruct (entry (value tree) node) as [vs|] eqn:Ev; [|discriminate].
    now rewrite (entry_py_index _ _ _ Ev), bind_inr, Hbad.
  - destruct (entry (children_right tree) node) as [r|] eqn:Er; [|discriminate].
    destruct (entry (feature tree) node) as [k|] eqn:Ek; [|discriminate].
    destruct (entry (threshold tree) node) as [t|] eqn:Et; [|discriminate].
    apply andb_prop in Hlay as [Hll Hlr].
    rewrite (entry_py_index _ _ _ Ek), bind_inr.
    rewrite (entry_py_index _ _ _ Et), bind_inr.
    rewrite (entry_py_index _ _ _ Er).
    destruct (printable_threshold _ _ _ Hp Et) as [Ha _].
    pose proof (is_ascii_branch_line k t Ha) as Hb.
    destruct (laid_out (fun v => (List.length v =? 1)%nat) depth tree l) eqn:Hwl.
    + assert (Hleft : emits (bracketed (branch_line k t) "}" (recur depth tree l))
                        d (emit_line d (branch_line k t)
                           ++ unlines (lowering depth tree l (d + 1))
                           ++ emit_line d "}")).
      { apply bracketed_emits; try easy.
        apply recur_emits; [assumption | lia | assumption]. }
      change (bind (bracketed (branch_line k t) "}" (recur depth tree l) g)
                (bracketed "else {" "}" (recur depth tree r))
              = inl AssertionError).
      rewrite (Hleft g Hg), bind_inr.
      apply bracketed_raises with (d := d); try easy.
      intros g' Hg'. apply IH with (d := d + 1); try assumption; lia.
    + change (bind (bracketed (branch_line k t) "}" (recur depth tree l) g)
                (bracketed "else {" "}" (recur depth tree r))
              = inl AssertionError).
      rewrite (bracketed_raises (branch_line k t) "}" (recur depth tree l) d
                 AssertionError Hd Hb); [reflexivity | | assumption].
      intros g' Hg'. apply IH with (d := d + 1); try assumption; lia.
Qed.

Lemma extern_C_ascii : is_ascii extern_C = true.
Proof. reflexivity. Qed.

Lemma identifier_chars (name : string) :
  identifier name = true -> all_chars is_ident_char name = true.
Proof. destruct name; [discriminate | trivial]. Qed.

Lemma ident_char_facts (c : ascii) :
  is_ident_char c = true ->
  is_ascii_char c = true
  /\ negb (Ascii.eqb c LF) = true
  /\ negb (Ascii.eqb c "(") = true
  /\ negb (Ascii.eqb c SPACE) = true
  /\ negb (Ascii.eqb c ",") = true.
Proof.
  destruct c as [[] [] [] [] [] [] [] []]; vm_compute; intuition congruence.
Qed.

Lemma identifier_ascii (name : string) :
  identifier name = true -> is_ascii name = true.
Proof.
  intros Hn%identifier_chars. eapply all_chars_impl; [|exact Hn].
  intros c Hc. apply ident_char_facts, Hc.
Qed.

Lemma identifier_lacks_LF (name : string) :
  identifier name = true -> lacks LF name = true.
Proof.
  intros Hn%identifier_chars. eapply all_chars_impl; [|exact Hn].
  intros c Hc. apply ident_char_facts, Hc.
Qed.

Lemma identifier_lacks_paren (name : string) :
  identifier name = true -> lacks "(" name = true.
Proof.
  intros Hn%identifier_chars. eapply all_chars_impl; [|exact Hn].
  intros c Hc. apply ident_char_facts, Hc.
Qed.

Lemma is_ascii_tree_fn_decl (name : string) :
  identifier name = true -> is_ascii (tree_fn_decl name) = true.
Proof.
  intros Hn%identifier_ascii. unfold tree_fn_decl.
  now rewrite !is_ascii_app, Hn.
Qed.

(** The text of a whole unit. *)
Lemma emit_tree_emits (depth : nat) (tree : Tree real) (name : string) :
  tree_printable tree = true -> identifier name = true ->
  wf_tree depth tree = true ->
  emits (emit_tree depth tree name) 0 (unlines (tree_unit depth tree name)).
Proof.
  intros Hp Hn Hwf. unfold emit_tree.
  assert (E : unlines (tree_unit depth tree name) =
              emit_line 0 extern_C
              ++ (emit_line 1 (tree_fn_decl name)
                  ++ unlines (lowering depth tree 0 2) ++ emit_line 1 "}")
              ++ emit_line 0 "}").
  { unfold tree_unit. cbv zeta.
    change ("extern " ++ chr DQUOTE ++ "C" ++ chr DQUOTE ++ " {")
      with (indentation 0 ++ extern_C).
    change ("  __attribute__((__always_inline__)) double " ++ name ++ "(float* f) {")
      with (indentation 1 ++ tree_fn_decl name).
    rewrite !unlines_emit, unlines_app.
    change ["  }"; "}"] with [indentation 1 ++ "}"; indentation 0 ++ "}"].
    rewrite !unlines_emit. cbn [unlines].
    now rewrite !append_assoc, ?append_nil_r. }
  rewrite E.
  apply bracketed_emits; try easy.
  apply (bracketed_emits _ _ _ 1); try easy.
  { now apply is_ascii_tree_fn_decl. }
  apply (recur_emits tree Hp depth 0 2); [lia | exact Hwf].
Qed.

Lemma emit_tree_asserts (depth : nat) (tree : Tree real) (name : string) :
  tree_printable tree = true -> identifier name = true ->
  wf_layout depth tree = true -> wf_tree depth tree = false ->
  forall g, _indent g = 0 -> emit_tree depth tree name g = inl AssertionError.
Proof.
  intros Hp Hn Hlay Hbad. unfold emit_tree.
  apply bracketed_raises; try easy.
  apply (bracketed_raises _ _ _ 1); try easy.
  { now apply is_ascii_tree_fn_decl. }
  intros g Hg. apply (recur_asserts tree Hp depth 0 2); try assumption; lia.
Qed.

End TreeFacts.

(* ================================================================== *)
(** * Facts about reading the generated text                           *)
(* ================================================================== *)

Section ReaderFacts.


Lemma eqb_length (a b : string) :
  String.length a <> String.length b -> String.eqb a b = false.
Proof.
  intros Hl. apply String.eqb_neq. intros ->. now apply Hl.
Qed.

Lemma strip_suffix_app (suf s : string) :
  strip_suffix suf (s ++ suf) = Some s.
Proof.
  induction s as [|c s IH].
  - simpl. destruct suf; simpl; [reflexivity|].
    now rewrite Ascii.eqb_refl, String.eqb_refl.
  - cbn [append strip_suffix]. rewrite eqb_length.
    + now rewrite IH.
    + simpl. rewrite string_length_app. lia.
Qed.

Lemma split_at_app (c : ascii) (a b : string) :
  lacks c a = true -> split_at c (a ++ String c b) = Some (a, b).
Proof.
  induction a as [|x a IH]; simpl.
  - intros _. now rewrite Ascii.eqb_refl.
  - intros [Hx Ha]%andb_prop. apply negb_true_iff in Hx.
    now rewrite Hx, (IH Ha).
Qed.


Lemma pieces_at_app (c : ascii) (a b : string) :
  lacks c a = true -> pieces_at c (a ++ String c b) = a :: pieces_at c b.
Proof.
  induction a as [|x a IH]; simpl.
  - intros _. now rewrite Ascii.eqb_refl.
  - intros [Hx Ha]%andb_prop. apply negb_true_iff in Hx.
    now rewrite Hx, (IH Ha).
Qed.

Lemma lines_of_unlines (ls : list string) :
  forallb (lacks LF) ls = true ->
  lines_of (unlines ls) = (ls ++ [EmptyString])%list.
Proof.
  unfold lines_of. induction ls as [|l ls IH]; simpl; [reflexivity|].
  intros [Hl Hls]%andb_prop. unfold chr.
  change (l ++ String LF EmptyString ++ unlines ls)
    with (l ++ String LF (unlines ls)).
  now rewrite (pieces_at_app _ _ _ Hl), (IH Hls).
Qed.

Lemma lstrip_indentation (d : Z) (c : ascii) (s : string) :
  Ascii.eqb c SPACE = false ->
  lstrip (indentation d ++ String c s) = String c s.
Proof.
  intros Hc. unfold indentation, str_mul.
  induction (Z.to_nat d) as [|n IH]; simpl; [now rewrite Hc | exact IH].
Qed.

Lemma to_int_not_nil (z : Z) :
  Z.to_int z <> Decimal.Pos Decimal.Nil /\ Z.to_int z <> Decimal.Neg Decimal.Nil.
Proof.
  destruct z as [|p|p]; simpl; split; try discriminate;
    intros [= E]; now apply (DecimalPos.Unsigned.to_uint_nonnil p).
Qed.

Lemma parse_Z_str_of_Z (z : Z) : parse_Z (str_of_Z z) = Some z.
Proof.
  unfold parse_Z, str_of_Z.
  destruct (to_int_not_nil z) as [Hp Hn].
  assert (E : NilEmpty.string_of_int (Z.to_int z)
              = NilZero.string_of_int (Z.to_int z)).
  { destruct (Z.to_int z) as [d|d]; simpl; destruct d; try reflexivity;
      congruence. }
  rewrite E, NilZero.isi by assumption. simpl.
  now rewrite DecimalZ.of_to.
Qed.

Lemma parse_nat_str_of_nat (n : nat) : parse_nat (str_of_nat n) = Some n.
Proof.
  unfold parse_nat, str_of_nat. rewrite parse_Z_str_of_Z.
  destruct (Z.leb_spec 0 (Z.of_nat n)); [|lia]. now rewrite Nat2Z.id.
Qed.

Lemma digit_or_minus_plain (c : ascii) :
  is_digit c || Ascii.eqb c "-" = true ->
  negb (Ascii.eqb c "]") = true /\ negb (Ascii.eqb c ";") = true
  /\ negb (Ascii.eqb c LF) = true.
Proof.
  destruct c as [[] [] [] [] [] [] [] []]; vm_compute; intuition congruence.
Qed.

Lemma str_of_Z_lacks_bracket (z : Z) : lacks "]" (str_of_Z z) = true.
Proof.
  eapply all_chars_impl; [|apply str_of_Z_chars].
  intros c Hc. apply digit_or_minus_plain, Hc.
Qed.


Lemma str_of_Z_lacks_LF (z : Z) : lacks LF (str_of_Z z) = true.
Proof.
  eapply all_chars_impl; [|apply str_of_Z_chars].
  intros c Hc. apply digit_or_minus_plain, Hc.
Qed.

Lemma digit_ident (c : ascii) : is_digit c = true -> is_ident_char c = true.
Proof.
  destruct c as [[] [] [] [] [] [] [] []]; vm_compute; congruence.
Qed.

Lemma identifier_partial_name (i : nat) : identifier (partial_name i) = true.
Proof.
  unfold partial_name, EVALUATE_FN_NAME. simpl.
  eapply all_chars_impl; [apply digit_ident | apply str_of_nat_digits].
Qed.

(** ** The token of each kind of line *)

Lemma classify_return (lit : string) :
  classify ("return " ++ lit ++ ";") = TReturn lit.
Proof.
  unfold classify. simpl. unfold read_return. simpl.
  now rewrite strip_suffix_app.
Qed.

Lemma classify_if (k : Z) (lit : string) :
  classify ("if (f[" ++ str_of_Z k ++ "] <= " ++ lit ++ "f) {") = TIf k lit.
Proof.
  unfold classify. simpl. unfold read_if. simpl.
  rewrite (split_at_app _ _ _ (str_of_Z_lacks_bracket k)).
  rewrite parse_Z_str_of_Z. simpl.
  now rewrite strip_suffix_app.
Qed.


Lemma read_function_def (name : string) :
  identifier name = true ->
  read_function (name ++ "(float* f) {") = Some (TFunDef name 1).
Proof.
  intros Hn. unfold read_function.
  change (name ++ "(float* f) {") with (name ++ String "(" "float* f) {").
  now rewrite (split_at_app _ _ _ (identifier_lacks_paren _ Hn)), Hn.
Qed.




Lemma classify_inline_double (rest : string) (t : ctoken) :
  read_double_line rest = Some t ->
  classify (ALWAYS_INLINE ++ " double " ++ rest) = t.
Proof. intros Hr. unfold classify. simpl. now rewrite Hr. Qed.

Lemma classify_tree_fn_decl (name : string) :
  identifier name = true -> classify (tree_fn_decl name) = TFunDef name 1.
Proof.
  intros Hn. unfold tree_fn_decl. apply classify_inline_double.
  unfold read_double_line. now rewrite (read_function_def _ Hn).
Qed.











Lemma lowering_tokens {real : Type} `{PyFloat real} (tree : Tree real) :
  forall (depth : nat) (node d : Z),
    map (fun l => classify (lstrip l)) (lowering depth tree node d)
    = node_tokens depth tree node.
Proof.
  induction depth as [|depth IH]; intros node d; [reflexivity|].
  cbn [lowering node_tokens].
  destruct (entry (children_left tree) node) as [l|]; [|reflexivity].
  destruct (l =? -1).
  - destruct (entry (value tree) node) as [[|v vs]|]; try reflexivity.
    cbn [map]. change ("return " ++ format_float v ++ ";")
      with (String "r" ("eturn " ++ format_float v ++ ";")).
    rewrite lstrip_indentation by reflexivity.
    change (String "r" ("eturn " ++ format_float v ++ ";"))
      with ("return " ++ format_float v ++ ";").
    now rewrite classify_return.
  - destruct (entry (children_right tree) node) as [r|]; [|reflexivity].
    destruct (entry (feature tree) node) as [k|]; [|reflexivity].
    destruct (entry (threshold tree) node) as [t|]; [|reflexivity].
    cbv zeta. cbn [map]. rewrite map_app. cbn [map]. rewrite map_app.
    cbn [map]. rewrite !IH.
    change ("if (f[" ++ str_of_Z k ++ "] <= " ++ format_float t ++ "f) {")
      with (String "i" ("f (f[" ++ str_of_Z k ++ "] <= " ++ format_float t ++ "f) {")).
    rewrite !lstrip_indentation by reflexivity.
    change (String "i" ("f (f[" ++ str_of_Z k ++ "] <= " ++ format_float t ++ "f) {"))
      with ("if (f[" ++ str_of_Z k ++ "] <= " ++ format_float t ++ "f) {").
    rewrite classify_if. reflexivity.
Qed.

Lemma lacks_LF_indentation (d : Z) : lacks LF (indentation d) = true.
Proof. apply all_chars_repeat. reflexivity. Qed.

Lemma lowering_lacks_LF {real : Type} `{PyFloat real} `{CFloat real}
    (tree : Tree real) :
  tree_printable tree = true ->
  forall (depth : nat) (node d : Z),
    forallb (lacks LF) (lowering depth tree node d) = true.
Proof.
  intros Hp. induction depth as [|depth IH]; intros node d; [reflexivity|].
  cbn [lowering].
  destruct (entry (children_left tree) node) as [l|]; [|reflexivity].
  destruct (l =? -1).
  - destruct (entry (value tree) node) as [[|v vs]|] eqn:Ev; try reflexivity.
    destruct (printable_value _ _ _ _ Hp Ev) as [_ Hv].
    cbn [forallb]. now rewrite !lacks_app, lacks_LF_indentation, Hv.
  - destruct (entry (children_right tree) node) as [r|]; [|reflexivity].
    destruct (entry (feature tree) node) as [k|]; [|reflexivity].
    destruct (entry (threshold tree) node) as [t|] eqn:Et; [|reflexivity].
    destruct (printable_threshold _ _ _ Hp Et) as [_ Ht].
    cbv zeta. cbn [forallb]. rewrite forallb_app. cbn [forallb].
    rewrite forallb_app. cbn [forallb].
    rewrite !IH, !lacks_app, lacks_LF_indentation, Ht, str_of_Z_lacks_LF.
    reflexivity.
Qed.

End ReaderFacts.

(* ================================================================== *)
(** * Running the unit of a tree                                       *)
(* ================================================================== *)

Section RunFacts.

Context {real : Type} `{PyFloat real} `{CFloat real}.

Lemma fold_done (fvec : list real) (toks : list ctoken) (v : option real) :
  fold_left (tree_step fvec) toks (Done v) = Done v.
Proof. induction toks as [|t toks IH]; simpl; auto. Qed.

(** The tokens of a subtree are a balanced block: skipping goes through. *)
Lemma skip_node (fvec : list real) (tree : Tree real) :
  forall (depth : nat) (node : Z) (n : nat) (rest : list ctoken),
    fold_left (tree_step fvec) (node_tokens depth tree node ++ rest) (Skip n)
    = fold_left (tree_step fvec) rest (Skip n).
Proof.
  induction depth as [|depth IH]; intros node n rest; [reflexivity|].
  cbn [node_tokens].
  destruct (entry (children_left tree) node) as [l|]; [|reflexivity].
  destruct (l =? -1).
  - destruct (entry (value tree) node) as [[|v vs]|]; reflexivity.
  - destruct (entry (children_right tree) node) as [r|]; [|reflexivity].
    destruct (entry (feature tree) node) as [k|]; [|reflexivity].
    destruct (entry (threshold tree) node) as [t|]; [|reflexivity].
    cbn [app fold_left tree_step]. rewrite <- app_assoc, IH.
    cbn [app fold_left tree_step]. rewrite <- app_assoc, IH.
    reflexivity.
Qed.

Lemma exact_threshold (tree : Tree real) (node : Z) (t : real) :
  literals_exact tree -> entry (threshold tree) node = Some t ->
  read_float (format_float t) = Some t.
Proof.
  intros [Ht _] Hn. apply entry_In in Hn.
  rewrite Forall_forall in Ht. now apply Ht.
Qed.

Lemma exact_value (tree : Tree real) (node : Z) (v : real) (vs : list real) :
  literals_exact tree -> entry (value tree) node = Some (v :: vs) ->
  read_double (format_float v) = Some v.
Proof.
  intros [_ Hv] Hn. apply entry_In in Hn.
  rewrite Forall_forall in Hv. specialize (Hv _ Hn).
  now inversion Hv.
Qed.

(** Running the tokens of a subtree gives the prediction of the subtree. *)
Lemma run_node (fvec : list real) (tree : Tree real) :
  literals_exact tree ->
  forall (depth : nat) (node : Z) (rest : list ctoken),
    laid_out (fun v => (List.length v =? 1)%nat) depth tree node = true ->
    fold_left (tree_step fvec) (node_tokens depth tree node ++ rest) Run
    = Done (predict depth tree node fvec).
Proof.
  intros Hex. induction depth as [|depth IH]; intros node rest Hwf;
    [discriminate|].
  cbn [laid_out] in Hwf. cbn [node_tokens predict].
  destruct (entry (children_left tree) node) as [l|]; [|discriminate].
  destruct (l =? -1).
  - destruct (entry (value tree) node) as [[|v vs]|] eqn:Ev; try discriminate.
    cbn [app fold_left tree_step tree_run].
    now rewrite (exact_value _ _ _ _ Hex Ev), fold_done.
  - destruct (entry (children_right tree) node) as [r|]; [|discriminate].
    destruct (entry (feature tree) node) as [k|]; [|discriminate].
    destruct (entry (threshold tree) node) as [t|] eqn:Et; [|discriminate].
    apply andb_prop in Hwf as [Hwl Hwr].
    cbn [app fold_left tree_step tree_run].
    rewrite (exact_threshold _ _ _ Hex Et).
    destruct (feature_at fvec k) as [x|]; [|apply fold_done].
    destruct (real_le x t).
    + rewrite <- app_assoc. now apply IH.
    + rewrite <- app_assoc, skip_node.
      cbn [app fold_left tree_step]. rewrite <- app_assoc. now apply IH.
Qed.

Lemma all_some_nth {A B : Type} (f : A -> option B) (l : list A) :
  forall (l' : list B) (i : nat) (a : A),
    all_some (map f l) = Some l' ->
    nth_error l i = Some a ->
    exists b : B, f a = Some b /\ nth_error l' i = Some b.
Proof.
  induction l as [|x l IH]; intros l' i a E Hi.
  - destruct i; discriminate.
  - cbn [map all_some] in E.
    destruct (f x) as [y|] eqn:Ex; [|discriminate].
    destruct (all_some (map f l)) as [ys|] eqn:El; [|discriminate].
    injection E as <-.
    destruct i as [|i]; cbn [nth_error] in *.
    + injection Hi as <-. now exists y.
    + now apply (IH ys).
Qed.

Lemma all_some_entry {A B : Type} (f : A -> option B) (l : list A)
    (l' : list B) (i : Z) (a : A) :
  all_some (map f l) = Some l' ->
  entry l i = Some a ->
  exists b : B, f a = Some b /\ entry l' i = Some b.
Proof.
  unfold entry. intros E. destruct (i <? 0); [discriminate|].
  now apply all_some_nth.
Qed.

(** Running the tokens of a subtree gives the prediction of the subtree of
    the tree as it is read back. *)
Lemma run_node_reread (fvec : list real) (tree tree' : Tree real) :
  reread tree = Some tree' ->
  forall (depth : nat) (node : Z) (rest : list ctoken),
    laid_out (fun v => (List.length v =? 1)%nat) depth tree node = true ->
    fold_left (tree_step fvec) (node_tokens depth tree node ++ rest) Run
    = Done (predict depth tree' node fvec).
Proof.
  unfold reread. intros Hr.
  destruct (all_some (map _ (threshold tree))) as [ts|] eqn:Et; [|discriminate].
  destruct (all_some (map _ (value tree))) as [vss|] eqn:Ev; [|discriminate].
  injection Hr as <-.
  induction depth as [|depth IH]; intros node rest Hwf; [discriminate|].
  cbn [laid_out] in Hwf. cbn [node_tokens predict].
  cbn [children_left children_right feature threshold value].
  destruct (entry (children_left tree) node) as [l|]; [|discriminate].
  destruct (l =? -1).
  - destruct (entry (value tree) node) as [[|v vs]|] eqn:En; try discriminate.
    destruct (all_some_entry _ _ _ _ _ Ev En) as (vs' & Rv & En').
    rewrite En'. cbn [map all_some] in Rv.
    destruct (read_double (format_float v)) as [v'|] eqn:Rd; [|discriminate].
    destruct (all_some (map _ vs)) as [vs2|]; [|discriminate].
    injection Rv as <-.
    cbn [app fold_left tree_step tree_run].
    now rewrite Rd, fold_done.
  - destruct (entry (children_right tree) node) as [r|]; [|discriminate].
    destruct (entry (feature tree) node) as [k|]; [|discriminate].
    destruct (entry (threshold tree) node) as [t|] eqn:En; [|discriminate].
    destruct (all_some_entry _ _ _ _ _ Et En) as (t' & Rt & En').
    rewrite En'.
    apply andb_prop in Hwf as [Hwl Hwr].
    cbn [app fold_left tree_step tree_run].
    rewrite Rt.
    destruct (feature_at fvec k) as [x|]; [|apply fold_done].
    destruct (real_le x t').
    + rewrite <- app_assoc. now apply IH.
    + rewrite <- app_assoc, skip_node.
      cbn [app fold_left tree_step]. rewrite <- app_assoc. now apply IH.
Qed.

Lemma tree_unit_lacks_LF (depth : nat) (tree : Tree real) (name : string) :
  tree_printable tree = true -> identifier name = true ->
  forallb (lacks LF) (tree_unit depth tree name) = true.
Proof.
  intros Hp Hn. unfold tree_unit. cbv zeta. cbn [forallb].
  rewrite forallb_app, (lowering_lacks_LF tree Hp).
  rewrite !lacks_app, (identifier_lacks_LF _ Hn). reflexivity.
Qed.

Lemma tree_unit_tokens (depth : nat) (tree : Tree real) (name : string) :
  tree_printable tree = true -> identifier name = true ->
  tokens_of (unlines (tree_unit depth tree name))
  = TSkip :: TFunDef name 1
      :: (node_tokens depth tree 0 ++ [TClose; TClose; TSkip])%list.
Proof.
  intros Hp Hn. unfold tokens_of.
  rewrite (lines_of_unlines _ (tree_unit_lacks_LF depth tree name Hp Hn)).
  unfold tree_unit. cbv zeta. rewrite map_app. cbn [map].
  rewrite map_app, lowering_tokens. cbn [map].
  change (lstrip ("  __attribute__((__always_inline__)) double " ++ name ++ "(float* f) {"))
    with (tree_fn_decl name).
  rewrite (classify_tree_fn_decl _ Hn).
  cbn [app]. rewrite <- app_assoc. reflexivity.
Qed.

(** A call of the function of a unit gives the prediction of its tree. *)
Lemma call_tree_unit (depth : nat) (tree : Tree real) (name : string)
    (fvec : list real) (others : list string) :
  tree_printable tree = true -> identifier name = true ->
  wf_tree depth tree = true -> literals_exact tree ->
  call_partial (unlines (tree_unit depth tree name) :: others) name fvec
  = predict depth tree 0 fvec.
Proof.
  intros Hp Hn Hwf Hex. unfold call_partial, link. cbn [map List.concat].
  rewrite (tree_unit_tokens depth tree name Hp Hn).
  cbn [app body_of]. rewrite String.eqb_refl. cbn [andb Nat.eqb].
  unfold exec_body. rewrite <- app_assoc.
  now rewrite (run_node fvec tree Hex depth 0 _ Hwf).
Qed.

End RunFacts.

(* ================================================================== *)
(** * The emitter and the tree generator: the claims                   *)
(* ================================================================== *)

Section TreeClaims.

Context {real : Type} `{PyFloat real} `{CFloat real}.

Lemma write_agree (line : string) (g g' : CodeGenerator) :
  same_text g g' -> agree (write line g) (write line g').
Proof.
  intros [Hd Hi]. unfold write. rewrite Hi.
  destruct (encode_ascii _) as [e|bytes]; simpl; [reflexivity|].
  split; simpl; congruence.
Qed.

Lemma agree_bind_const {A : Type} (r : result A)
    (k k' : A -> result CodeGenerator) :
  (forall a, agree (k a) (k' a)) -> agree (a <- r ;; k a) (a <- r ;; k' a).
Proof. intros Hk. destruct r as [e|a]; simpl; [reflexivity | apply Hk]. Qed.

Lemma agree_bind (r r' : result CodeGenerator)
    (k k' : CodeGenerator -> result CodeGenerator) :
  agree r r' ->
  (forall g g', same_text g g' -> agree (k g) (k' g')) ->
  agree (g <- r ;; k g) (g <- r' ;; k' g).
Proof.
  intros Hr Hk. destruct r as [e|g], r' as [e'|g']; simpl in *;
    try assumption; try contradiction. now apply Hk.
Qed.

Lemma bracketed_agree (pre post : string)
    (body : CodeGenerator -> result CodeGenerator) :
  (forall g g', same_text g g' -> agree (body g) (body g')) ->
  forall g g', same_text g g' ->
    agree (bracketed pre post body g) (bracketed pre post body g').
Proof.
  intros Hbody g g' Hs. unfold bracketed.
  destruct Hs as [Hd Hi]. rewrite <- Hi.
  destruct (_indent g >=? 0); [|reflexivity].
  apply agree_bind; [apply write_agree; now split|].
  intros g1 g1' [Hd1 Hi1]. apply agree_bind.
  - apply Hbody. split; simpl; congruence.
  - intros g2 g2' [Hd2 Hi2]. apply write_agree. split; simpl; congruence.
Qed.

Lemma recur_agree (tree : Tree real) :
  forall (depth : nat) (node : Z) (g g' : CodeGenerator),
    same_text g g' -> agree (recur depth tree node g) (recur depth tree node g').
Proof.
  induction depth as [|depth IH]; intros node g g' Hs; [reflexivity|].
  rewrite !recur_S. apply agree_bind_const. intros l.
  destruct (l =? -1).
  - apply agree_bind_const. intros v.
    destruct (List.length v =? 1)%nat; [|reflexivity].
    apply agree_bind_const. intros x. now apply write_agree.
  - apply agree_bind_const. intros k. apply agree_bind_const. intros t.
    apply agree_bind.
    + apply bracketed_agree; [|assumption].
      intros a a' Ha. apply agree_bind_const. intros c. now apply IH.
    + apply bracketed_agree.
      intros a a' Ha. apply agree_bind_const. intros c. now apply IH.
Qed.

Lemma emit_tree_agree (depth : nat) (tree : Tree real) (name : string)
    (g g' : CodeGenerator) :
  same_text g g' ->
  agree (emit_tree depth tree name g) (emit_tree depth tree name g').
Proof.
  intros Hs. unfold emit_tree. apply bracketed_agree; [|assumption].
  apply bracketed_agree. apply recur_agree.
Qed.

(** [code_gen_tree] on a new generator, step by step. *)
Lemma code_gen_tree_new (h : host) (depth : nat) (tree : Tree real)
    (name : string) (w : world) :
  let f0 := {| f_name := tmp_path h "compiledtrees_" ".cpp" w;
               f_data := EmptyString |} in
  let w1 := {| w_tmp := S (w_tmp w);
               w_disk := disk_put (f_name f0) EmptyString (w_disk w);
               w_calls := w_calls w |} in
  code_gen_tree h depth tree name None w
  = match emit_tree depth tree name {| _file := f0; _indent := 0 |} with
    | inl e => (inl e, w1)
    | inr g' =>
        (inr (_file g'),
         {| w_tmp := w_tmp w1;
            w_disk := disk_put (f_name (_file g')) (f_data (_file g')) (w_disk w1);
            w_calls := w_calls w1 |})
    end.
Proof.
  cbv beta iota zeta delta [code_gen_tree io_bind new_CodeGenerator
    NamedTemporaryFile io_ret lift file flush].
  now destruct (emit_tree depth tree name _).
Qed.

(** C1, as the code has it.  For every well-formed tree [code_gen_tree]
    lowers node 0 recursively: the unit it writes is the linkage block and
    the function head around [lowering], in which a leaf is the statement
    [return <value>;] and an inner node is [if (f[<feature>] <= <threshold>f) {]
    followed by the lowering of the left child, then [else {] followed by the
    lowering of the right child.  When the literals denote the numbers they
    were printed from (a threshold read in single precision, a leaf value
    read as a double), the function of that unit, run on any feature vector,
    returns what the recursive interpretation [predict] of the node arrays
    returns. *)
Theorem C1_tree_unit_agrees_with_node_arrays :
  forall (h : host) (depth : nat) (tree : Tree real) (name : string)
         (w : world),
    wf_tree depth tree = true ->
    tree_printable tree = true ->
    identifier name = true ->
    exists (f : tmpfile) (w' : world),
      code_gen_tree h depth tree name None w = (inr f, w')
      /\ f_data f = unlines (tree_unit depth tree name)
      /\ (literals_exact tree ->
          forall fvec : list real,
            call_partial [f_data f] name fvec = predict depth tree 0 fvec).
Proof.
  intros h depth tree name w Hwf Hp Hn.
  rewrite code_gen_tree_new. cbv zeta.
  pose proof (emit_tree_emits depth tree name Hp Hn Hwf) as He.
  unfold emits in He. rewrite He by reflexivity.
  eexists _, _. split; [reflexivity|]. split; [reflexivity|].
  intros Hex fvec. cbn [append_text _file file_write f_data append].
  now apply call_tree_unit.
Qed.

(** C6, as the code has it.  The literals are read back by the compiler of
    the generated code: a leaf value as a double, a threshold, which is
    written with the suffix f, in single precision.  The function generated
    for a well-formed tree decides as the node arrays do once every number
    in them has been replaced by the value its literal is read back to: the
    decision boundaries are the thresholds as read back. *)
Theorem C6_evaluator_decides_by_the_literals_read_back :
  forall (h : host) (depth : nat) (tree tree' : Tree real) (name : string)
         (w : world),
    wf_tree depth tree = true ->
    tree_printable tree = true ->
    identifier name = true ->
    reread tree = Some tree' ->
    exists (f : tmpfile) (w' : world),
      code_gen_tree h depth tree name None w = (inr f, w')
      /\ (forall (node : Z) (t : real),
            entry (threshold tree) node = Some t ->
            exists t' : real,
              read_float (format_float t) = Some t'
              /\ entry (threshold tree') node = Some t')
      /\ forall fvec : list real,
           call_partial [f_data f] name fvec = predict depth tree' 0 fvec.
Proof.
  intros h depth tree tree' name w Hwf Hp Hn Hr.
  rewrite code_gen_tree_new. cbv zeta.
  pose proof (emit_tree_emits depth tree name Hp Hn Hwf) as He.
  unfold emits in He. rewrite He by reflexivity.
  eexists _, _. split; [reflexivity|]. split.
  - intros node t Ht. pose proof Hr as Hr'. unfold reread in Hr'.
    destruct (all_some (map _ (threshold tree))) as [ts|] eqn:Et;
      [|discriminate].
    destruct (all_some (map _ (value tree))) as [vss|]; [|discriminate].
    injection Hr' as <-. cbn [threshold].
    exact (all_some_entry _ _ _ _ _ Et Ht).
  - intros fvec. cbn [append_text _file file_write f_data append].
    unfold call_partial, link. cbn [map List.concat].
    rewrite (tree_unit_tokens depth tree name Hp Hn).
    cbn [app body_of]. rewrite String.eqb_refl. cbn [andb Nat.eqb].
    unfold exec_body. rewrite <- app_assoc.
    now rewrite (run_node_reread fvec tree tree' Hr depth 0 _ Hwf).
Qed.

(** C10. At a leaf [code_gen_tree] checks that the stored value has exactly
    one element before it writes the return statement: a leaf with another
    number of elements raises [AssertionError] and writes nothing, and a tree
    that is laid out properly but has such a leaf makes the whole call raise
    [AssertionError] instead of returning a unit. *)
Theorem C10_leaf_value_must_be_scalar :
  forall (h : host) (depth : nat) (tree : Tree real) (name : string)
         (w : world),
    wf_layout depth tree = true ->
    wf_tree depth tree = false ->
    tree_printable tree = true ->
    identifier name = true ->
    (exists w' : world,
       code_gen_tree h depth tree name None w = (inl AssertionError, w'))
    /\ forall (node : Z) (vs : list real) (g : CodeGenerator),
         entry (children_left tree) node = Some (-1) ->
         entry (value tree) node = Some vs ->
         List.length vs <> 1%nat ->
         recur (S depth) tree node g = inl AssertionError.
Proof.
  intros h depth tree name w Hlay Hbad Hp Hn. split.
  - rewrite code_gen_tree_new. cbv zeta.
    rewrite (emit_tree_asserts depth tree name Hp Hn Hlay Hbad) by reflexivity.
    now eexists.
  - intros node vs g El Ev Hlen. rewrite recur_S.
    rewrite (entry_py_index _ _ _ El), bind_inr. cbn [Z.eqb Pos.eqb].
    rewrite (entry_py_index _ _ _ Ev), bind_inr.
    apply Nat.eqb_neq in Hlen. now rewrite Hlen.
Qed.

(** C8. Generating the unit of the same tree under the same function name
    twice gives the same bytes: whatever the host and the temporary files
    that exist, two calls either return files with equal contents or raise
    the same exception. *)
Theorem C8_generation_is_deterministic :
  forall (h h' : host) (depth : nat) (tree : Tree real) (name : string)
         (w w' : world),
    match fst (code_gen_tree h depth tree name None w),
          fst (code_gen_tree h' depth tree name None w') with
    | inr f, inr f' => f_data f = f_data f'
    | inl e, inl e' => e = e'
    | _, _ => False
    end.
Proof.
  intros h h' depth tree name w w'. rewrite !code_gen_tree_new. cbv zeta.
  match goal with
  | |- context [emit_tree depth tree name ?a] =>
      match goal with
      | |- context [emit_tree depth tree name ?b] =>
          tryif constr_eq a b then fail else
            pose proof (emit_tree_agree depth tree name a b) as Ha
      end
  end.
  specialize (Ha (conj eq_refl eq_refl)).
  destruct (emit_tree depth tree name _) as [e|g],
           (emit_tree depth tree name _) as [e'|g'];
    simpl in *; try assumption; try contradiction.
  now destruct Ha.
Qed.

End TreeClaims.

Section EmitterClaims.


End EmitterClaims.

(* ================================================================== *)
(** * Facts about the ensemble generator                               *)
(* ================================================================== *)

Section EnsembleFacts.

Context {real : Type} `{PyFloat real} `{CFloat real}.

Lemma is_ascii_join (sep : string) (parts : list string) :
  is_ascii sep = true -> forallb is_ascii parts = true ->
  is_ascii (join sep parts) = true.
Proof.
  intros Hs. induction parts as [|a parts IH]; [reflexivity|].
  intros [Ha Hp]%andb_prop. destruct parts as [|b parts]; [exact Ha|].
  change (join sep (a :: b :: parts)) with (a ++ sep ++ join sep (b :: parts)).
  now rewrite !is_ascii_app, Ha, Hs, IH.
Qed.

Lemma is_ascii_partial_name (i : nat) : is_ascii (partial_name i) = true.
Proof. apply identifier_ascii, identifier_partial_name. Qed.

Lemma is_ascii_forward_decl (i : nat) : is_ascii (forward_decl i) = true.
Proof.
  unfold forward_decl. now rewrite !is_ascii_app, is_ascii_partial_name.
Qed.

Lemma is_ascii_funcs_line (n : nat) : is_ascii (funcs_line n) = true.
Proof.
  unfold funcs_line. cbv zeta.
  rewrite !is_ascii_app, is_ascii_str_of_nat, is_ascii_join; try reflexivity.
  apply forallb_forall. intros x [i [<- _]]%in_map_iff.
  now rewrite is_ascii_app, is_ascii_partial_name.
Qed.

Lemma is_ascii_for_line (n : nat) : is_ascii (for_line n) = true.
Proof.
  unfold for_line. now rewrite !is_ascii_app, is_ascii_str_of_nat.
Qed.

Lemma write_each_emits {A : Type} (line : A -> string) (d : Z) :
  forall l : list A,
    forallb (fun a => is_ascii (line a)) l = true ->
    emits (write_each line l) d
      (unlines (map (fun a => indentation d ++ line a) l)).
Proof.
  induction l as [|a l IH]; intros Hl.
  - apply emits_nil.
  - apply andb_prop in Hl as [Ha Hl]. cbn [map]. rewrite unlines_emit.
    cbn [write_each].
    exact (emits_seq _ _ _ _ _ (write_emits _ d Ha) (IH Hl)).
Qed.

Lemma map_enumerate_from {A B : Type} (f : nat -> B) (l : list A) (i : nat) :
  map (fun it => f (fst it)) (enumerate_from i l)
  = map f (seq i (List.length l)).
Proof.
  revert i. induction l as [|a l IH]; intros i; [reflexivity|].
  cbn [enumerate_from map List.length seq fst]. now rewrite IH.
Qed.

Lemma combiner_unit_text (n : nat) (weight initial_value : real) :
  unlines (combiner_unit false n weight initial_value)
  = emit_line 0 extern_C
    ++ (unlines (map (fun i => indentation 1 ++ forward_decl i) (seq 0 n))
        ++ emit_line 1 (funcs_line n)
        ++ emit_line 1 combiner_fn_decl
        ++ (emit_line 2 ("double result = " ++ format_float initial_value ++ ";")
            ++ emit_line 2 "int i;"
            ++ emit_line 2 pragma_line
            ++ (emit_line 2 (for_line n)
                ++ emit_line 3 (increment_line weight) ++ emit_line 2 "}")
            ++ emit_line 2 "return result;")
        ++ emit_line 1 "}")
    ++ emit_line 0 "}".
Proof.
  unfold combiner_unit. cbv zeta. cbn [app unlines]. rewrite unlines_app.
  change (map (fun i => "  double evaluate_" ++ str_of_nat i ++ "(float* f);") (seq 0 n))
    with (map (fun i => indentation 1 ++ forward_decl i) (seq 0 n)).
  generalize (unlines (map (fun i => indentation 1 ++ forward_decl i) (seq 0 n))).
  intros decls.
  change (join ", " (map (fun i => "&evaluate_" ++ str_of_nat i) (seq 0 n)))
    with (join ", " (map (fun i => "&" ++ partial_name i) (seq 0 n))).
  unfold emit_line, funcs_line, for_line, increment_line, combiner_fn_decl,
    pragma_line, extern_C, EVALUATE_FN_NAME. cbv zeta.
  generalize (join ", " (map (fun i => "&" ++ partial_name i) (seq 0 n))).
  intros ptrs. generalize (str_of_nat n). intros sn.
  generalize (format_float weight) (format_float initial_value).
  intros sw sv.
  change (indentation 0) with EmptyString.
  change (indentation 1) with "  ".
  change (indentation 2) with "    ".
  change (indentation 3) with "      ".
  unfold chr.
  repeat (cbn [append unlines]; rewrite ?append_assoc). reflexivity.
Qed.

Lemma combiner_unit_omp (n : nat) (weight initial_value : real) :
  combiner_unit true n weight initial_value
  = "#include <omp.h>" :: combiner_unit false n weight initial_value.
Proof. reflexivity. Qed.

(** The text of the combiner. *)
Lemma emit_ensemble_emits (m : globals) (trees : list (Tree real))
    (weight initial_value : real) :
  trees <> [] -> printable weight = true -> printable initial_value = true ->
  emits (emit_ensemble m trees weight initial_value) 0
    (unlines (combiner_unit (OPENMP_SUPPORT m) (List.length trees)
                weight initial_value)).
Proof.
  intros Hne [Hw _]%andb_prop [Hv _]%andb_prop.
  set (n := List.length trees).
  assert (Hdecl : emits (write_each (fun it : nat * Tree real => forward_decl (fst it))
                           (enumerate trees)) 1
                    (unlines (map (fun i => indentation 1 ++ forward_decl i)
                                (seq 0 n)))).
  { unfold n, enumerate.
    rewrite <- (map_enumerate_from (fun i => indentation 1 ++ forward_decl i)).
    apply write_each_emits, forallb_forall. intros x _.
    apply is_ascii_forward_decl. }
  assert (Hloop : emits (bracketed (for_line n) "}"
                    (fun g => i <- last_index trees ;;
                              write (increment_line weight) g)) 2
                    (emit_line 2 (for_line n)
                     ++ emit_line 3 (increment_line weight)
                     ++ emit_line 2 "}")).
  { apply bracketed_emits; try easy. { apply is_ascii_for_line. }
    destruct trees as [|t0 trees0]; [congruence|]. cbn [last_index ret bind].
    apply write_emits. unfold increment_line.
    now rewrite !is_ascii_app, Hw. }
  assert (Hfn : emits (bracketed combiner_fn_decl "}"
                  (fun g =>
                     g3 <- write ("double result = " ++ format_float initial_value ++ ";") g ;;
                     g4 <- write "int i;" g3 ;;
                     g5 <- write pragma_line g4 ;;
                     g6 <- bracketed (for_line n) "}"
                             (fun g => i <- last_index trees ;;
                                       write (increment_line weight) g) g5 ;;
                     write "return result;" g6)) 1
                  (emit_line 1 combiner_fn_decl
                   ++ (emit_line 2 ("double result = " ++ format_float initial_value ++ ";")
                       ++ emit_line 2 "int i;"
                       ++ emit_line 2 pragma_line
                       ++ (emit_line 2 (for_line n)
                           ++ emit_line 3 (increment_line weight)
                           ++ emit_line 2 "}")
                       ++ emit_line 2 "return result;")
                   ++ emit_line 1 "}")).
  { apply bracketed_emits; try easy.
    apply emits_seq.
    { apply write_emits. now rewrite !is_ascii_app, Hv. }
    apply emits_seq. { now apply write_emits. }
    apply emits_seq. { now apply write_emits. }
    apply emits_seq. { exact Hloop. }
    now apply write_emits. }
  assert (Hblock : emits (bracketed extern_C "}"
                    (fun g =>
                       g1 <- write_each (fun it : nat * Tree real => forward_decl (fst it))
                               (enumerate trees) g ;;
                       g2 <- write (funcs_line n) g1 ;;
                       bracketed combiner_fn_decl "}"
                         (fun g =>
                            g3 <- write ("double result = " ++ format_float initial_value ++ ";") g ;;
                            g4 <- write "int i;" g3 ;;
                            g5 <- write pragma_line g4 ;;
                            g6 <- bracketed (for_line n) "}"
                                    (fun g => i <- last_index trees ;;
                                              write (increment_line weight) g) g5 ;;
                            write "return result;" g6) g2)) 0
                    (emit_line 0 extern_C
                     ++ (unlines (map (fun i => indentation 1 ++ forward_decl i) (seq 0 n))
                         ++ emit_line 1 (funcs_line n)
                         ++ (emit_line 1 combiner_fn_decl
                   ++ (emit_line 2 ("double result = " ++ format_float initial_value ++ ";")
                       ++ emit_line 2 "int i;"
                       ++ emit_line 2 pragma_line
                       ++ (emit_line 2 (for_line n)
                           ++ emit_line 3 (increment_line weight)
                           ++ emit_line 2 "}")
                       ++ emit_line 2 "return result;")
                   ++ emit_line 1 "}"))
                     ++ emit_line 0 "}")).
  { apply bracketed_emits; try easy.
    apply emits_seq. { exact Hdecl. }
    apply emits_seq. { apply write_emits, is_ascii_funcs_line. }
    exact Hfn. }
  intros g Hg. unfold emit_ensemble. fold n.
  destruct (OPENMP_SUPPORT m).
  - rewrite (write_emits "#include <omp.h>" 0 eq_refl g Hg), bind_inr.
    rewrite (Hblock (append_text (emit_line 0 "#include <omp.h>") g) Hg).
    rewrite append_text_app, combiner_unit_omp.
    change (unlines ("#include <omp.h>" :: ?l))
      with (emit_line 0 "#include <omp.h>" ++ unlines l).
    now rewrite combiner_unit_text.
  - cbn [ret bind]. rewrite (Hblock g Hg). now rewrite combiner_unit_text.
Qed.

(** [_gen_tree] on a well-formed tree: the unit named after its index. *)
Lemma gen_tree_unit (h : host) (depth i : nat) (tree : Tree real) (w : world) :
  wf_tree depth tree = true -> tree_printable tree = true ->
  exists (f : tmpfile) (w' : world),
    _gen_tree h depth i tree w = (inr f, w')
    /\ f_data f = unlines (tree_unit depth tree (partial_name i))
    /\ w_calls w' = w_calls w.
Proof.
  intros Hwf Hp.
  pose proof (emit_tree_emits depth tree (partial_name i) Hp
                (identifier_partial_name i) Hwf) as He.
  unfold emits in He.
  unfold _gen_tree.
  cbv beta iota zeta delta [code_gen_tree io_bind new_CodeGenerator
    NamedTemporaryFile io_ret lift file flush].
  rewrite He by reflexivity.
  eexists _, _. split; [reflexivity|]. split; reflexivity.
Qed.

Lemma gen_trees_units (h : host) (depth : nat) (trees : list (Tree real)) :
  forallb (wf_tree depth) trees = true ->
  forallb tree_printable trees = true ->
  forall (i : nat) (w : world),
  exists (files : list tmpfile) (w' : world),
    io_map (fun it => _gen_tree h depth (fst it) (snd it))
      (enumerate_from i trees) w = (inr files, w')
    /\ map f_data files
       = map (fun it => unlines (tree_unit depth (snd it) (partial_name (fst it))))
           (enumerate_from i trees)
    /\ w_calls w' = w_calls w.
Proof.
  induction trees as [|t trees IH]; intros Hwf Hp i w.
  - exists [], w. repeat split.
  - apply andb_prop in Hwf as [Hwt Hwf]. apply andb_prop in Hp as [Hpt Hp].
    destruct (gen_tree_unit h depth i t w Hwt Hpt) as (f & w1 & E1 & D1 & C1).
    destruct (IH Hwf Hp (S i) w1) as (fs & w2 & E2 & D2 & C2).
    exists (f :: fs), w2. cbn [enumerate_from io_map fst snd map].
    unfold io_bind at 1. rewrite E1. unfold io_bind at 1. rewrite E2.
    unfold io_ret. repeat split.
    + cbn [map]. now rewrite D1, D2.
    + congruence.
Qed.

(** [code_gen_ensemble] on well-formed trees: the units of the trees in
    their order, then the unit of the combiner. *)
Lemma code_gen_ensemble_units (h : host) (m : globals) (depth : nat)
    (trees : list (Tree real)) (weight initial_value : real) (w : world) :
  trees <> [] ->
  forallb (wf_tree depth) trees = true ->
  forallb tree_printable trees = true ->
  printable weight = true -> printable initial_value = true ->
  exists (files : list tmpfile) (w' : world),
    code_gen_ensemble h m depth trees weight initial_value None w
    = (inr files, w')
    /\ map f_data files
       = (map (fun it => unlines (tree_unit depth (snd it) (partial_name (fst it))))
            (enumerate trees)
          ++ [unlines (combiner_unit (OPENMP_SUPPORT m) (List.length trees)
                         weight initial_value)])%list
    /\ w_calls w' = w_calls w.
Proof.
  intros Hne Hwf Hp Hw Hv.
  pose proof (emit_ensemble_emits m trees weight initial_value Hne Hw Hv) as He.
  unfold emits in He.
  unfold code_gen_ensemble.
  unfold io_bind at 1. unfold new_CodeGenerator at 1.
  unfold io_bind at 1. unfold NamedTemporaryFile at 1. unfold io_ret at 1.
  set (w1 := {| w_tmp := S (w_tmp w);
                w_disk := disk_put (tmp_path h "compiledtrees_" ".cpp" w)
                            EmptyString (w_disk w);
                w_calls := w_calls w |}).
  destruct (gen_trees_units h depth trees Hwf Hp 0 w1)
    as (fs & w2 & E2 & D2 & C2).
  unfold io_bind at 1. unfold enumerate. rewrite E2.
  unfold io_bind at 1. unfold lift at 1. rewrite He by reflexivity.
  cbv beta iota zeta delta [io_bind io_ret file flush].
  eexists _, _. split; [reflexivity|]. split.
  - rewrite map_app. cbn [map]. now rewrite D2.
  - cbn [w_calls]. exact C2.
Qed.

End EnsembleFacts.

(* ================================================================== *)
(** * Running the linked program                                       *)
(* ================================================================== *)

Section ProgramFacts.

Context {real : Type} `{PyFloat real} `{CFloat real}.

Lemma lacks_join (c : ascii) (sep : string) (parts : list string) :
  lacks c sep = true -> forallb (lacks c) parts = true ->
  lacks c (join sep parts) = true.
Proof.
  intros Hs. induction parts as [|a parts IH]; [reflexivity|].
  intros [Ha Hp]%andb_prop. destruct parts as [|b parts]; [exact Ha|].
  change (join sep (a :: b :: parts)) with (a ++ sep ++ join sep (b :: parts)).
  now rewrite !lacks_app, Ha, Hs, IH.
Qed.

Lemma str_of_nat_lacks_LF (n : nat) : lacks LF (str_of_nat n) = true.
Proof. apply str_of_Z_lacks_LF. Qed.

Lemma combiner_unit_lacks_LF (omp : bool) (n : nat)
    (weight initial_value : real) :
  printable weight = true -> printable initial_value = true ->
  forallb (lacks LF) (combiner_unit omp n weight initial_value) = true.
Proof.
  intros [_ Hw]%andb_prop [_ Hv]%andb_prop.
  unfold combiner_unit. cbv zeta.
  rewrite forallb_app. apply andb_true_intro. split.
  { now destruct omp. }
  cbn [forallb]. apply andb_true_intro. split; [reflexivity|].
  rewrite forallb_app. apply andb_true_intro. split.
  - apply forallb_forall. intros x [i [<- _]]%in_map_iff.
    now rewrite !lacks_app, str_of_nat_lacks_LF.
  - cbn [forallb].
    rewrite !lacks_app, Hw, Hv, !str_of_nat_lacks_LF, lacks_join;
      try reflexivity.
    apply forallb_forall. intros x [i [<- _]]%in_map_iff.
    now rewrite !lacks_app, str_of_nat_lacks_LF.
Qed.





Lemma partial_name_inj (a b : nat) :
  partial_name a = partial_name b -> a = b.
Proof.
  unfold partial_name, EVALUATE_FN_NAME. intros E. simpl in E.
  injection E as E.
  assert (P : parse_nat (str_of_nat a) = parse_nat (str_of_nat b))
    by now rewrite E.
  rewrite !parse_nat_str_of_nat in P. congruence.
Qed.




End ProgramFacts.

Section EnsembleRun.

Context {real : Type} `{PyFloat real} `{CFloat real}.


Lemma length_enumerate_from {A : Type} (l : list A) :
  forall i : nat, List.length (enumerate_from i l) = List.length l.
Proof.
  induction l as [|a l IH]; intros i; [reflexivity|].
  cbn [enumerate_from List.length]. now rewrite IH.
Qed.







Lemma main_fin (units : list string) (fvec : list real)
    (toks : list ctoken) (acc : option real) (v : option real) :
  snd (fold_left (main_step units fvec) toks (acc, Fin v)) = Fin v.
Proof.
  revert acc. induction toks as [|t toks IH]; intros acc; [reflexivity|].
  cbn [fold_left main_step]. apply IH.
Qed.
















End EnsembleRun.

Section EnsembleClaims.

Context {real : Type} `{PyFloat real} `{CFloat real}.

Lemma nth_error_enumerate_from {A : Type} (l : list A) :
  forall (s i : nat),
    nth_error (enumerate_from s l) i
    = option_map (pair (s + i)%nat) (nth_error l i).
Proof.
  induction l as [|a l IH]; intros s i.
  - now destruct i.
  - destruct i as [|i]; cbn [enumerate_from nth_error option_map].
    + now rewrite Nat.add_0_r.
    + rewrite IH. now replace (S s + i)%nat with (s + S i)%nat by lia.
Qed.

(** C3, as the code has it.  For an ensemble of N well-formed trees
    [code_gen_ensemble] calls the tree generator for tree i, i from 0 to
    N-1, with the function name [evaluate_<i>]: unit i of the result is the
    unit of tree i under that name, and the combiner declares every one of
    these N names before it uses them. *)
Theorem C3_units_are_named_evaluate_i :
  forall (h : host) (m : globals) (depth : nat) (trees : list (Tree real))
         (weight initial_value : real) (w : world),
    trees <> [] ->
    forallb (wf_tree depth) trees = true ->
    forallb tree_printable trees = true ->
    printable weight = true -> printable initial_value = true ->
    exists (files : list tmpfile) (combiner : tmpfile) (w' : world),
      code_gen_ensemble h m depth trees weight initial_value None w
      = (inr files, w')
      /\ nth_error files (List.length trees) = Some combiner
      /\ (forall (i : nat) (tree : Tree real),
            nth_error trees i = Some tree ->
            option_map f_data (nth_error files i)
            = Some (unlines (tree_unit depth tree ("evaluate_" ++ str_of_nat i)))
            /\ In ("  double evaluate_" ++ str_of_nat i ++ "(float* f);")
                 (lines_of (f_data combiner)))
      /\ (forall (i : nat) (tree : Tree real) (w0 : world),
            _gen_tree h depth i tree w0
            = (gen <~ new_CodeGenerator h ;;
               code_gen_tree h depth tree ("evaluate_" ++ str_of_nat i)
                 (Some gen)) w0).
Proof.
  intros h m depth trees weight initial_value w Hne Hwf Hp Hw Hv.
  destruct (code_gen_ensemble_units h m depth trees weight initial_value w
              Hne Hwf Hp Hw Hv) as (files & w' & E & D & _).
  assert (Hc : option_map f_data (nth_error files (List.length trees))
               = Some (unlines (combiner_unit (OPENMP_SUPPORT m)
                                  (List.length trees) weight initial_value))).
  { rewrite <- nth_error_map, D.
    rewrite nth_error_app2; rewrite length_map; unfold enumerate;
      rewrite length_enumerate_from; [|lia].
    now rewrite Nat.sub_diag. }
  destruct (nth_error files (List.length trees)) as [combiner|] eqn:Ec;
    [|discriminate].
  injection Hc as Hc.
  exists files, combiner, w'. split; [exact E|]. split; [exact Ec|].
  split; [|reflexivity].
  intros i tree Hi.
  assert (Hlt : (i < List.length trees)%nat).
  { apply nth_error_Some. congruence. }
  split.
  - rewrite <- nth_error_map, D.
    rewrite nth_error_app1
      by (rewrite length_map; unfold enumerate;
          now rewrite length_enumerate_from).
    rewrite nth_error_map. unfold enumerate.
    now rewrite nth_error_enumerate_from, Hi.
  - rewrite Hc, lines_of_unlines
      by now apply combiner_unit_lacks_LF.
    apply in_or_app. left. unfold combiner_unit. cbv zeta.
    apply in_or_app. right. right. apply in_or_app. left.
    apply in_map_iff. exists i. split; [reflexivity|].
    apply in_seq. lia.
Qed.


End EnsembleClaims.

(* ================================================================== *)
(** * Facts about the build driver                                     *)
(* ================================================================== *)

Section BuildFacts.

Variable h : host.
Variable m : globals.

Lemma close_calls (f : tmpfile) (w : world) :
  exists w', close m f w = (inr tt, w')
             /\ w_calls w' = w_calls w /\ w_tmp w' = w_tmp w.
Proof. unfold close. eexists. repeat split. Qed.

Lemma io_iter_close (l : list tmpfile) :
  forall w : world,
  exists w', io_iter (close m) l w = (inr tt, w')
             /\ w_calls w' = w_calls w /\ w_tmp w' = w_tmp w.
Proof.
  induction l as [|f l IH]; intros w.
  - exists w. repeat split.
  - destruct (close_calls f w) as (w1 & E1 & C1 & T1).
    destruct (IH w1) as (w2 & E2 & C2 & T2).
    exists w2. cbn [io_iter]. unfold io_bind. rewrite E1.
    repeat split; congruence.
Qed.

Lemma unlink_calls (path : string) (w : world) :
  w_calls (snd (unlink path w)) = w_calls w.
Proof. unfold unlink. now destruct (disk_get path (w_disk w)). Qed.

Lemma io_iter_unlink_calls (l : list tmpfile) :
  forall w : world,
    w_calls (snd (io_iter (fun f => unlink (f_name f)) l w)) = w_calls w.
Proof.
  induction l as [|f l IH]; intros w; [reflexivity|].
  cbn [io_iter]. unfold io_bind.
  pose proof (unlink_calls (f_name f) w) as U.
  destruct (unlink (f_name f) w) as [[e|[]] w1]; cbn [snd] in *;
    [exact U|]. now rewrite IH.
Qed.

Lemma disk_get_put (path bytes : string) (d : list (string * string)) :
  disk_get path (disk_put path bytes d) = Some bytes.
Proof. unfold disk_put. cbn [disk_get]. now rewrite String.eqb_refl. Qed.

Lemma write_entries_data (o_files : list tmpfile) :
  forall lf : tmpfile,
    f_name (write_entries o_files lf) = f_name lf
    /\ f_data (write_entries o_files lf)
       = f_data lf ++ String.concat EmptyString (map list_entry o_files).
Proof.
  unfold write_entries.
  induction o_files as [|o os IH]; intros lf; cbn [fold_left map].
  - split; [reflexivity|]. cbn. now rewrite append_nil_r.
  - destruct (IH (file_write lf (list_entry o))) as [Hn Hd].
    split; [exact Hn|]. rewrite Hd. cbn [file_write f_data].
    rewrite append_assoc. f_equal.
    destruct os as [|o' os]; [cbn; now rewrite append_nil_r | reflexivity].
Qed.

Lemma quiet_bind {A B : Type} (c : io A) (k : A -> io B) :
  quiet c -> (forall a, quiet (k a)) -> quiet (x <~ c ;; k x).
Proof.
  intros Hc Hk w. unfold io_bind. specialize (Hc w).
  destruct (c w) as [[e|a] w1]; cbn [snd] in *; [exact Hc|].
  now rewrite Hk.
Qed.

Lemma quiet_ret {A : Type} (a : A) : quiet (io_ret a).
Proof. now intros w. Qed.

Lemma quiet_unlink (path : string) : quiet (unlink path).
Proof. intros w. apply unlink_calls. Qed.

Lemma quiet_iter_unlink (l : list tmpfile) :
  quiet (io_iter (fun f => unlink (f_name f)) l).
Proof. intros w. apply io_iter_unlink_calls. Qed.

Lemma io_bind_inr {A B : Type} (c : io A) (k : A -> io B)
    (w w1 : world) (a : A) :
  c w = (inr a, w1) -> (x <~ c ;; k x) w = k a w1.
Proof. intros E. unfold io_bind. now rewrite E. Qed.

Lemma calls_bind_quiet {A B : Type} (c : io A) (k : A -> io B) (w : world) :
  (forall a, quiet (k a)) ->
  w_calls (snd ((x <~ c ;; k x) w)) = w_calls (snd (c w)).
Proof.
  intros Hk. unfold io_bind.
  destruct (c w) as [[e|a] w1]; cbn [snd]; [reflexivity | apply Hk].
Qed.

Lemma call_succeeds (words : list string) (w : world) :
  (forall c, shell_status h c = 0) ->
  _call h (map Some words) w
  = (inr tt,
     {| w_tmp := w_tmp w; w_disk := w_disk w;
        w_calls := (w_calls w ++ [mk_call (join " " words) (w_disk w)])%list |}).
Proof.
  intros Hs. unfold _call.
  assert (E : all_text (map Some words) = inr words).
  { induction words as [|a l IH]; [reflexivity|].
    cbn [map all_text]. now rewrite IH. }
  rewrite E. unfold io_bind, lift. now rewrite Hs.
Qed.

Lemma call_status (words : list string) (w : world) :
  _call h (map Some words) w
  = ((if shell_status h (join " " words) =? 0 then inr tt
      else inl (CalledProcessError (join " " words)
                  (shell_status h (join " " words)))),
     {| w_tmp := w_tmp w; w_disk := w_disk w;
        w_calls := (w_calls w ++ [mk_call (join " " words) (w_disk w)])%list |}).
Proof.
  unfold _call.
  assert (E : all_text (map Some words) = inr words).
  { induction words as [|a l IH]; [reflexivity|].
    cbn [map all_text]. now rewrite IH. }
  rewrite E. unfold io_bind, lift.
  now destruct (shell_status h (join " " words) =? 0).
Qed.

Lemma call_with_None (args : list (option string)) (w : world) :
  In None args -> _call h args w = (inl TypeError, w).
Proof.
  intros Hin. unfold _call.
  assert (E : all_text args = inl TypeError).
  { induction args as [|a l IH]; [contradiction|].
    destruct a as [a|]; [|reflexivity].
    cbn [all_text]. destruct Hin as [|Hin]; [discriminate|].
    now rewrite (IH Hin). }
  now rewrite E.
Qed.

(** One compile job, whatever the compiler answers. *)
Lemma compile_job (cxx cpp_f : string) (w : world) :
  CXX_COMPILER m = Some cxx ->
  exists (w' : world) (d : list (string * string)),
    _compile h m cpp_f w
    = ((if shell_status h
              (compile_cmd m cxx cpp_f (numbered h "compiledtrees_" (w_tmp w) ".o"))
           =? 0
        then inr {| f_name := numbered h "compiledtrees_" (w_tmp w) ".o";
                    f_data := EmptyString |}
        else inl (CalledProcessError
                    (compile_cmd m cxx cpp_f
                       (numbered h "compiledtrees_" (w_tmp w) ".o"))
                    (shell_status h
                       (compile_cmd m cxx cpp_f
                          (numbered h "compiledtrees_" (w_tmp w) ".o"))))),
       w')
    /\ w_tmp w' = S (w_tmp w)
    /\ w_calls w'
       = (w_calls w
          ++ [mk_call (compile_cmd m cxx cpp_f
                         (numbered h "compiledtrees_" (w_tmp w) ".o")) d])%list.
Proof.
  intros Hc. unfold _compile. rewrite Hc.
  cbv beta iota zeta delta [io_bind NamedTemporaryFile io_ret close _call
    lift all_text bind ret tmp_path].
  destruct (system_eqb (platform_system h) Windows);
    cbv beta iota zeta; cbn [w_tmp w_disk w_calls f_name];
    fold (compile_cmd m cxx cpp_f (numbered h "compiledtrees_" (w_tmp w) ".o"));
    destruct (shell_status h _ =? 0); eexists _, _; repeat split.
Qed.

Lemma compile_jobs_ok (cxx : string) :
  CXX_COMPILER m = Some cxx ->
  forall (files : list tmpfile) (w : world),
    Forall (fun c => shell_status h c = 0)
      (map (fun p => compile_cmd m cxx (f_name (fst p))
                       (numbered h "compiledtrees_" (snd p) ".o"))
         (combine files (seq (w_tmp w) (List.length files)))) ->
    exists (o_files : list tmpfile) (w' : world) (cs : list shell_call),
      io_map (fun f => _compile h m (f_name f)) files w = (inr o_files, w')
      /\ map f_name o_files
         = map (fun k => numbered h "compiledtrees_" k ".o")
             (seq (w_tmp w) (List.length files))
      /\ w_tmp w' = (w_tmp w + List.length files)%nat
      /\ w_calls w' = (w_calls w ++ cs)%list
      /\ map sc_cmd cs
         = map (fun p => compile_cmd m cxx (f_name (fst p))
                           (numbered h "compiledtrees_" (snd p) ".o"))
             (combine files (seq (w_tmp w) (List.length files))).
Proof.
  intros Hc. induction files as [|f files IH]; intros w Hok.
  - exists [], w, []. cbn. rewrite Nat.add_0_r, app_nil_r. repeat split.
  - cbn [List.length seq combine map fst snd] in Hok.
    inversion Hok as [|? ? Hf Hrest]; subst.
    destruct (compile_job cxx (f_name f) w Hc) as (w1 & d & E1 & T1 & C1).
    rewrite Hf in E1. cbn [Z.eqb] in E1.
    rewrite <- T1 in Hrest.
    destruct (IH w1 Hrest) as (os & w2 & cs & E2 & N2 & T2 & C2 & S2).
    exists ({| f_name := numbered h "compiledtrees_" (w_tmp w) ".o";
               f_data := EmptyString |} :: os), w2,
      (mk_call (compile_cmd m cxx (f_name f)
                  (numbered h "compiledtrees_" (w_tmp w) ".o")) d :: cs).
    cbn [io_map]. unfold io_bind at 1. rewrite E1.
    unfold io_bind at 1. rewrite E2. unfold io_ret.
    split; [reflexivity|].
    cbn [List.length seq map combine fst snd sc_cmd f_name].
    rewrite T1 in N2, T2, S2.
    rewrite N2, T2, C2, C1, S2, <- app_assoc.
    split; [reflexivity|]. split; [lia|]. split; reflexivity.
Qed.

Lemma compile_jobs_fail (cxx : string) :
  CXX_COMPILER m = Some cxx ->
  forall (pre : list tmpfile) (f : tmpfile) (post : list tmpfile) (w : world),
    Forall (fun c => shell_status h c = 0)
      (map (fun p => compile_cmd m cxx (f_name (fst p))
                       (numbered h "compiledtrees_" (snd p) ".o"))
         (combine pre (seq (w_tmp w) (List.length pre)))) ->
    shell_status h
      (compile_cmd m cxx (f_name f)
         (numbered h "compiledtrees_" (w_tmp w + List.length pre) ".o")) <> 0 ->
    exists (w' : world) (cs : list shell_call),
      io_map (fun f => _compile h m (f_name f)) (pre ++ f :: post) w
      = (inl (CalledProcessError
                (compile_cmd m cxx (f_name f)
                   (numbered h "compiledtrees_" (w_tmp w + List.length pre) ".o"))
                (shell_status h
                   (compile_cmd m cxx (f_name f)
                      (numbered h "compiledtrees_" (w_tmp w + List.length pre) ".o")))),
         w')
      /\ w_tmp w' = (w_tmp w + List.length pre + 1)%nat
      /\ w_calls w' = (w_calls w ++ cs)%list
      /\ map sc_cmd cs
         = (map (fun p => compile_cmd m cxx (f_name (fst p))
                            (numbered h "compiledtrees_" (snd p) ".o"))
              (combine pre (seq (w_tmp w) (List.length pre)))
            ++ [compile_cmd m cxx (f_name f)
                  (numbered h "compiledtrees_" (w_tmp w + List.length pre) ".o")])%list.
Proof.
  intros Hc. induction pre as [|a pre IH]; intros f post w Hok Hbad.
  - cbn [List.length] in *. rewrite Nat.add_0_r in *.
    destruct (compile_job cxx (f_name f) w Hc) as (w1 & d & E1 & T1 & C1).
    apply Z.eqb_neq in Hbad. rewrite Hbad in E1.
    exists w1, [mk_call (compile_cmd m cxx (f_name f)
                           (numbered h "compiledtrees_" (w_tmp w) ".o")) d].
    cbn [app io_map]. unfold io_bind at 1. rewrite E1.
    split; [reflexivity|]. split; [lia|]. split; [exact C1|]. reflexivity.
  - cbn [List.length seq combine map fst snd] in Hok.
    inversion Hok as [|? ? Ha Hrest]; subst.
    destruct (compile_job cxx (f_name a) w Hc) as (w1 & d & E1 & T1 & C1).
    rewrite Ha in E1. cbn [Z.eqb] in E1.
    rewrite <- T1 in Hrest.
    assert (Hbad1 : shell_status h
              (compile_cmd m cxx (f_name f)
                 (numbered h "compiledtrees_" (w_tmp w1 + List.length pre) ".o"))
              <> 0).
    { rewrite T1. cbn [List.length] in Hbad.
      now replace (S (w_tmp w) + List.length pre)%nat
        with (w_tmp w + S (List.length pre))%nat by lia. }
    destruct (IH f post w1 Hrest Hbad1) as (w2 & cs & E2 & T2 & C2 & S2).
    exists w2, (mk_call (compile_cmd m cxx (f_name a)
                           (numbered h "compiledtrees_" (w_tmp w) ".o")) d :: cs).
    cbn [app io_map]. unfold io_bind at 1. rewrite E1.
    unfold io_bind at 1. rewrite E2.
    cbn [List.length seq map combine fst snd sc_cmd app].
    rewrite T1 in *.
    replace (w_tmp w + S (List.length pre))%nat
      with (S (w_tmp w) + List.length pre)%nat by lia.
    split; [reflexivity|]. split; [lia|].
    split; [now rewrite C2, C1, <- app_assoc|].
    now rewrite S2.
Qed.

Lemma pre_close (files : list tmpfile) (w : world) :
  exists w1,
    (if system_eqb (platform_system h) Windows
     then io_iter (close m) files else io_ret tt) w = (inr tt, w1)
    /\ w_calls w1 = w_calls w /\ w_tmp w1 = w_tmp w.
Proof.
  destruct (system_eqb (platform_system h) Windows).
  - apply io_iter_close.
  - exists w. repeat split.
Qed.

End BuildFacts.

Section DiskFacts.

Lemma disk_get_remove_same (p : string) (d : list (string * string)) :
  disk_get p (disk_remove p d) = None.
Proof.
  induction d as [|[q c] d IH]; [reflexivity|]. cbn [disk_remove].
  destruct (String.eqb q p) eqn:E; [exact IH|].
  cbn [disk_get]. now rewrite E.
Qed.

Lemma disk_get_remove_other (p q : string) (d : list (string * string)) :
  p <> q -> disk_get p (disk_remove q d) = disk_get p d.
Proof.
  intros Hpq. induction d as [|[r c] d IH]; [reflexivity|].
  cbn [disk_remove disk_get].
  destruct (String.eqb r q) eqn:E.
  - apply String.eqb_eq in E. subst r.
    assert (N : String.eqb q p = false) by (apply String.eqb_neq; congruence).
    now rewrite N.
  - cbn [disk_get]. now rewrite IH.
Qed.

Lemma disk_get_put_other (p q bytes : string) (d : list (string * string)) :
  p <> q -> disk_get p (disk_put q bytes d) = disk_get p d.
Proof.
  intros Hpq. unfold disk_put. cbn [disk_get].
  assert (N : String.eqb q p = false) by (apply String.eqb_neq; congruence).
  rewrite N. now apply disk_get_remove_other.
Qed.

Lemma disk_put_keeps (p q bytes : string) (d : list (string * string)) :
  disk_get p d <> None -> disk_get p (disk_put q bytes d) <> None.
Proof.
  intros Hp. destruct (string_dec p q) as [->|N].
  - now rewrite disk_get_put.
  - now rewrite disk_get_put_other.
Qed.

Lemma disk_remove_absent (p q : string) (d : list (string * string)) :
  disk_get p d = None -> disk_get p (disk_remove q d) = None.
Proof.
  intros Hp. destruct (string_dec p q) as [->|N].
  - apply disk_get_remove_same.
  - now rewrite disk_get_remove_other.
Qed.

Lemma append_inj_l (a x y : string) : a ++ x = a ++ y -> x = y.
Proof.
  induction a as [|c a IH]; intros E; [exact E|].
  cbn [append] in E. injection E as E. now apply IH.
Qed.

(** A run of digits ends at the first character that is no digit. *)
Lemma digits_end (a b x y : string) (c c' : ascii) :
  all_chars is_digit a = true ->
  all_chars is_digit b = true ->
  is_digit c = false ->
  is_digit c' = false ->
  a ++ String c x = b ++ String c' y ->
  a = b /\ String c x = String c' y.
Proof.
  revert b. induction a as [|u a IH]; intros [|v b] Ha Hb Hc Hc' E.
  - now split.
  - cbn [append] in E. injection E as -> _.
    cbn [all_chars] in Hb. apply andb_prop in Hb. destruct Hb as [Hv _].
    congruence.
  - cbn [append] in E. injection E as <- _.
    cbn [all_chars] in Ha. apply andb_prop in Ha. destruct Ha as [Hu _].
    congruence.
  - cbn [append] in E. injection E as -> E.
    cbn [all_chars] in Ha, Hb.
    apply andb_prop in Ha. apply andb_prop in Hb.
    destruct (IH b (proj2 Ha) (proj2 Hb) Hc Hc' E) as [-> R].
    now split.
Qed.

Variable h : host.

Lemma numbered_inj (prefix : string) (c : ascii) (s : string) (j k : nat) :
  is_digit c = false ->
  numbered h prefix j (String c s) = numbered h prefix k (String c s) ->
  j = k.
Proof.
  intros Hc E. unfold numbered in E.
  apply append_inj_l in E. apply append_inj_l in E.
  apply digits_end in E; try apply str_of_nat_digits; try exact Hc.
  destruct E as [E _].
  assert (P : parse_nat (str_of_nat j) = parse_nat (str_of_nat k))
    by now rewrite E.
  rewrite !parse_nat_str_of_nat in P. congruence.
Qed.

Lemma object_is_not_library (j k : nat) :
  numbered h "compiledtrees_" j ".o" <> numbered h "compiledtrees_" k ".so".
Proof.
  intros E. unfold numbered in E.
  apply append_inj_l in E. apply append_inj_l in E.
  apply digits_end in E; try apply str_of_nat_digits; try reflexivity.
  destruct E as [_ E]. discriminate E.
Qed.

Lemma list_file_is_no_unit (j k : nat) (s s' : string) :
  numbered h "list_ofiles_" j s <> numbered h "compiledtrees_" k s'.
Proof.
  intros E. unfold numbered in E.
  apply append_inj_l in E. cbn [append] in E. discriminate E.
Qed.

Lemma NoDup_objects (a n : nat) :
  NoDup (map (fun k => numbered h "compiledtrees_" k ".o") (seq a n)).
Proof.
  assert (Hs : NoDup (seq a n)) by apply seq_NoDup.
  induction Hs as [|k l Hk Hl IH]; cbn [map]; constructor; [|exact IH].
  intros Hin. apply in_map_iff in Hin. destruct Hin as (j & E & Hj).
  apply numbered_inj in E; [|reflexivity]. now subst j.
Qed.

(** Unlinking a list of files that are all there, each once. *)
Lemma iter_unlink_ok (l : list tmpfile) :
  forall w : world,
    NoDup (map f_name l) ->
    (forall p, In p (map f_name l) -> disk_get p (w_disk w) <> None) ->
    exists w' : world,
      io_iter (fun f => unlink (f_name f)) l w = (inr tt, w')
      /\ w_tmp w' = w_tmp w
      /\ w_calls w' = w_calls w
      /\ (forall p, In p (map f_name l) -> disk_get p (w_disk w') = None)
      /\ (forall p, ~ In p (map f_name l) ->
                    disk_get p (w_disk w') = disk_get p (w_disk w)).
Proof.
  induction l as [|f l IH]; intros w Hnd Hin.
  - exists w. repeat split; try reflexivity. intros p [].
  - cbn [map] in Hnd, Hin. inversion Hnd as [|? ? Hf Hl]; subst.
    cbn [io_iter]. unfold io_bind at 1. unfold unlink at 1.
    destruct (disk_get (f_name f) (w_disk w)) eqn:G;
      [|exfalso; apply (Hin (f_name f)); [now left | exact G]].
    destruct (IH {| w_tmp := w_tmp w;
                    w_disk := disk_remove (f_name f) (w_disk w);
                    w_calls := w_calls w |} Hl)
      as (w' & E & T & C & Gone & Kept).
    { intros p Hp. cbn [w_disk]. rewrite disk_get_remove_other.
      - apply Hin. now right.
      - intros ->. contradiction. }
    exists w'. split; [exact E|]. split; [exact T|]. split; [exact C|].
    cbn [w_disk] in Kept. split.
    + intros p [<-|Hp]; [|now apply Gone].
      rewrite (Kept _ Hf). apply disk_get_remove_same.
    + intros p Hp. cbn [map In] in Hp.
      rewrite Kept by tauto. apply disk_get_remove_other.
      intros ->. apply Hp. now left.
Qed.

(** A file that is not there makes the unlinking stop with [OSError]. *)
Lemma iter_unlink_missing (l : list tmpfile) :
  forall (w : world) (p : string),
    In p (map f_name l) ->
    disk_get p (w_disk w) = None ->
    exists w' : world,
      io_iter (fun f => unlink (f_name f)) l w = (inl OSError, w')
      /\ w_calls w' = w_calls w.
Proof.
  induction l as [|f l IH]; intros w p Hp G; [destruct Hp|].
  cbn [io_iter]. unfold io_bind at 1. unfold unlink at 1.
  destruct (disk_get (f_name f) (w_disk w)) eqn:Gf.
  - destruct Hp as [<-|Hp]; [congruence|].
    destruct (IH {| w_tmp := w_tmp w;
                    w_disk := disk_remove (f_name f) (w_disk w);
                    w_calls := w_calls w |} p Hp) as (w' & E & C).
    { cbn [w_disk]. now apply disk_remove_absent. }
    exists w'. now split.
  - exists w. now split.
Qed.

(** A name that comes twice makes the unlinking stop with [OSError]. *)
Lemma iter_unlink_twice (l : list tmpfile) :
  forall w : world,
    ~ NoDup (map f_name l) ->
    exists w' : world,
      io_iter (fun f => unlink (f_name f)) l w = (inl OSError, w')
      /\ w_calls w' = w_calls w.
Proof.
  induction l as [|f l IH]; intros w Hd.
  - exfalso. apply Hd. constructor.
  - cbn [io_iter]. unfold io_bind at 1. unfold unlink at 1.
    destruct (disk_get (f_name f) (w_disk w)) eqn:Gf;
      [|exists w; now split].
    destruct (in_dec string_dec (f_name f) (map f_name l)) as [Hin|Hout].
    + destruct (iter_unlink_missing l
                  {| w_tmp := w_tmp w;
                     w_disk := disk_remove (f_name f) (w_disk w);
                     w_calls := w_calls w |} (f_name f) Hin)
        as (w' & E & C); [apply disk_get_remove_same|].
      exists w'. now split.
    + destruct (IH {| w_tmp := w_tmp w;
                      w_disk := disk_remove (f_name f) (w_disk w);
                      w_calls := w_calls w |}) as (w' & E & C).
      { intros Hl. apply Hd. cbn [map]. now constructor. }
      exists w'. now split.
Qed.

(** Unlinking raises nothing but [OSError]. *)
Lemma iter_unlink_result (l : list tmpfile) :
  forall w : world,
    exists (r : result unit) (w' : world),
      io_iter (fun f => unlink (f_name f)) l w = (r, w')
      /\ (r = inr tt \/ r = inl OSError)
      /\ w_calls w' = w_calls w.
Proof.
  induction l as [|f l IH]; intros w.
  - exists (inr tt), w. split; [reflexivity|]. split; [now left | reflexivity].
  - cbn [io_iter]. unfold io_bind at 1. unfold unlink at 1.
    destruct (disk_get (f_name f) (w_disk w)).
    + destruct (IH {| w_tmp := w_tmp w;
                      w_disk := disk_remove (f_name f) (w_disk w);
                      w_calls := w_calls w |}) as (r & w' & E & R & C).
      exists r, w'. now split.
    + exists (inl OSError), w. split; [reflexivity|].
      split; [now right | reflexivity].
Qed.

Variable m : globals.

(** Closing files that are kept puts every one of them on the disk. *)
Lemma iter_close_disk (l : list tmpfile) :
  delete_files m = false ->
  forall (w w' : world),
    io_iter (close m) l w = (inr tt, w') ->
    forall p, In p (map f_name l) \/ disk_get p (w_disk w) <> None ->
              disk_get p (w_disk w') <> None.
Proof.
  intros Hdel. induction l as [|f l IH]; intros w w' E p Hp.
  - cbn in E. injection E as <-. destruct Hp as [[]|Hp]; exact Hp.
  - cbn [io_iter] in E. unfold io_bind at 1 in E. unfold close at 1 in E.
    rewrite Hdel in E. apply (IH _ _ E). cbn [w_disk].
    destruct Hp as [[<-|Hp]|Hp].
    + right. now rewrite disk_get_put.
    + now left.
    + right. now apply disk_put_keeps.
Qed.

End DiskFacts.

Section PoolFacts.

Variable h : host.
Variable m : globals.

Lemma compile_halves (cpp_f : string) (w : world) :
  _compile h m cpp_f w
  = (o_f <~ _compile_open h m cpp_f ;; _compile_run h m cpp_f o_f) w.
Proof.
  unfold _compile, _compile_open, _compile_run.
  destruct (CXX_COMPILER m) as [cxx|]; [|reflexivity].
  cbv beta iota zeta delta [io_bind NamedTemporaryFile io_ret].
  destruct (system_eqb (platform_system h) Windows); reflexivity.
Qed.

(** Without a compiler a job raises at once and changes nothing. *)
Lemma open_without_compiler (cpp_f : string) (w : world) :
  CXX_COMPILER m = None ->
  _compile_open h m cpp_f w = (inl (Exception no_compiler_message), w).
Proof. intros Hc. unfold _compile_open. now rewrite Hc. Qed.

(** The first step of a job: its object file is the next temporary file. *)
Lemma open_step (cxx cpp_f : string) (w : world) :
  CXX_COMPILER m = Some cxx ->
  exists w' : world,
    _compile_open h m cpp_f w
    = (inr {| f_name := numbered h "compiledtrees_" (w_tmp w) ".o";
              f_data := EmptyString |}, w')
    /\ w_tmp w' = S (w_tmp w)
    /\ w_calls w' = w_calls w
    /\ (keeps_files h m ->
        forall q : string,
          q = numbered h "compiledtrees_" (w_tmp w) ".o"
          \/ disk_get q (w_disk w) <> None ->
          disk_get q (w_disk w') <> None).
Proof.
  intros Hc. unfold _compile_open. rewrite Hc.
  cbv beta iota zeta delta [io_bind NamedTemporaryFile io_ret close tmp_path].
  destruct (system_eqb (platform_system h) Windows) eqn:Ew;
    cbv beta iota zeta; cbn [w_tmp w_disk w_calls f_name f_data];
    eexists; (split; [reflexivity|]); cbn [w_tmp w_calls w_disk];
    (split; [reflexivity|]); (split; [reflexivity|]); intros Hk q Hq.
  - assert (Hw : platform_system h = Windows)
      by (destruct (platform_system h); (reflexivity || discriminate)).
    rewrite (Hk Hw).
    destruct Hq as [->|Hq]; [now rewrite disk_get_put|].
    now repeat apply disk_put_keeps.
  - destruct Hq as [->|Hq]; [now rewrite disk_get_put|].
    now apply disk_put_keeps.
Qed.

(** The second step of a job: the command goes to the shell. *)
Lemma run_step (cxx cpp_f : string) (o_f : tmpfile) (w : world) :
  CXX_COMPILER m = Some cxx ->
  let cmd := compile_cmd m cxx cpp_f (f_name o_f) in
  _compile_run h m cpp_f o_f w
  = ((if shell_status h cmd =? 0 then inr o_f
      else inl (CalledProcessError cmd (shell_status h cmd))),
     {| w_tmp := w_tmp w; w_disk := w_disk w;
        w_calls := (w_calls w ++ [mk_call cmd (w_disk w)])%list |}).
Proof.
  intros Hc cmd. unfold _compile_run. rewrite Hc.
  change [Some cxx; Some cpp_f; Some "-c"; Some "-fPIC"; Some (openmp_flag m);
          Some "-o"; Some (f_name o_f); Some "-O3"; Some "-pipe"]
    with (map Some [cxx; cpp_f; "-c"; "-fPIC"; openmp_flag m; "-o";
                    f_name o_f; "-O3"; "-pipe"]).
  unfold io_bind. rewrite call_status.
  fold (compile_cmd m cxx cpp_f (f_name o_f)). fold cmd.
  now destruct (shell_status h cmd =? 0).
Qed.

Lemma pool_objects_app (p q : list (string * stage)) :
  pool_objects (p ++ q) = (pool_objects p ++ pool_objects q)%list.
Proof.
  induction p as [|[c [|o|[e|o]]] p IH]; cbn [app pool_objects];
    now rewrite ?IH.
Qed.

Lemma pool_commands_app (cxx : string) (p q : list (string * stage)) :
  pool_commands m cxx (p ++ q)
  = (pool_commands m cxx p ++ pool_commands m cxx q)%list.
Proof.
  induction p as [|[c [|o|[e|o]]] p IH]; cbn [app pool_commands];
    now rewrite ?IH.
Qed.

Lemma first_error_app (p q : list (string * stage)) :
  first_error (p ++ q)
  = match first_error p with Some e => Some e | None => first_error q end.
Proof.
  induction p as [|[c [|o|[e|o]]] p IH]; cbn [app first_error];
    now rewrite ?IH.
Qed.

Lemma length_pool_objects (p : list (string * stage)) :
  (List.length (pool_objects p) <= List.length p)%nat.
Proof.
  induction p as [|[c [|o|[e|o]]] p IH]; cbn [pool_objects List.length]; lia.
Qed.

Section Running.

Variable cxx : string.
Variable names : list string.
Variable t0 : nat.
Variable calls0 : list shell_call.
Variable disk0 : list (string * string).

Hypothesis Hc : CXX_COMPILER m = Some cxx.
Hypothesis Hok :
  forall (c : string) (k : nat),
    In c names -> (t0 <= k < t0 + List.length names)%nat ->
    shell_status h (compile_cmd m cxx c (numbered h "compiledtrees_" k ".o")) = 0.

Lemma pool_open (pre post : list (string * stage)) (c : string) (w : world) :
  pool_ok h m cxx names t0 calls0 disk0 (pre ++ (c, Waiting) :: post) w ->
  exists (o_f : tmpfile) (w' : world),
    _compile_open h m c w = (inr o_f, w')
    /\ pool_ok h m cxx names t0 calls0 disk0
         (pre ++ (c, Opened o_f) :: post) w'.
Proof.
  intros (Hn & He & Ht & Hp & (cs & Hcs & Hpc) & Hd).
  destruct (open_step cxx c w Hc) as (w' & E & T & C & D).
  eexists _, w'. split; [exact E|].
  rewrite pool_objects_app, map_app in Hp, Hd. cbn [pool_objects] in Hp, Hd.
  rewrite first_error_app in He. cbn [first_error] in He.
  rewrite pool_commands_app in Hpc. cbn [pool_commands] in Hpc.
  unfold pool_ok.
  rewrite pool_objects_app, !map_app, first_error_app, pool_commands_app.
  cbn [pool_objects first_error pool_commands map f_name fst].
  rewrite map_app in Hn. cbn [map fst] in Hn.
  split; [exact Hn|]. split; [exact He|].
  split; [lia|]. split.
  { rewrite T. replace (S (w_tmp w) - t0)%nat with (S (w_tmp w - t0)) by lia.
    rewrite seq_S, map_app. cbn [map].
    replace (t0 + (w_tmp w - t0))%nat with (w_tmp w) by lia.
    apply Permutation_sym.
    eapply Permutation_trans; [apply Permutation_sym, Permutation_cons_append|].
    apply Permutation_cons_app. now apply Permutation_sym. }
  split.
  { exists cs. split; [congruence | exact Hpc]. }
  intros Hk q Hq. apply (D Hk). destruct Hq as [Hq|Hq].
  - apply in_app_or in Hq. destruct Hq as [Hq|[<-|Hq]].
    + right. apply (Hd Hk). left. apply in_or_app. now left.
    + now left.
    + right. apply (Hd Hk). left. apply in_or_app. now right.
  - right. apply (Hd Hk). now right.
Qed.

Lemma pool_run (pre post : list (string * stage)) (c : string)
    (o_f : tmpfile) (w : world) :
  pool_ok h m cxx names t0 calls0 disk0 (pre ++ (c, Opened o_f) :: post) w ->
  exists w' : world,
    _compile_run h m c o_f w = (inr o_f, w')
    /\ pool_ok h m cxx names t0 calls0 disk0
         (pre ++ (c, Finished (inr o_f)) :: post) w'.
Proof.
  intros (Hn & He & Ht & Hp & (cs & Hcs & Hpc) & Hd).
  assert (Hin : In c names).
  { rewrite <- Hn, map_app. apply in_or_app. right. now left. }
  assert (Hlen : (w_tmp w - t0 <= List.length names)%nat).
  { pose proof (Permutation_length Hp) as L.
    rewrite !length_map, length_seq in L. rewrite <- L, <- Hn, length_map.
    apply length_pool_objects. }
  assert (Ho : exists k, f_name o_f = numbered h "compiledtrees_" k ".o"
                         /\ (t0 <= k < t0 + List.length names)%nat).
  { assert (I : In (f_name o_f)
                  (map f_name (pool_objects (pre ++ (c, Opened o_f) :: post)))).
    { rewrite pool_objects_app, map_app. apply in_or_app. right. now left. }
    apply (Permutation_in _ Hp) in I. apply in_map_iff in I.
    destruct I as (k & E & Hk). exists k. split; [now symmetry|].
    apply in_seq in Hk. lia. }
  destruct Ho as (k & Ek & Hk).
  assert (S0 : shell_status h (compile_cmd m cxx c (f_name o_f)) = 0)
    by (rewrite Ek; now apply Hok).
  rewrite (run_step cxx c o_f w Hc). cbv zeta. rewrite S0. cbn [Z.eqb].
  eexists. split; [reflexivity|].
  unfold pool_ok. cbn [w_tmp w_calls w_disk].
  rewrite pool_objects_app in Hp, Hd |- *. cbn [pool_objects] in Hp, Hd |- *.
  rewrite first_error_app in He |- *. cbn [first_error] in He |- *.
  rewrite pool_commands_app in Hpc |- *. cbn [pool_commands] in Hpc |- *.
  rewrite map_app in Hn |- *. cbn [map fst] in Hn |- *.
  split; [exact Hn|]. split; [exact He|].
  split; [exact Ht|]. split; [exact Hp|]. split.
  { exists (cs ++ [mk_call (compile_cmd m cxx c (f_name o_f)) (w_disk w)])%list.
    split; [now rewrite Hcs, app_assoc|].
    rewrite map_app. cbn [map sc_cmd].
    eapply Permutation_trans; [apply Permutation_sym, Permutation_cons_append|].
    now apply Permutation_cons_app. }
  exact Hd.
Qed.

Lemma tick_ok (i : nat) :
  forall (pre pool : list (string * stage)) (w : world),
    pool_ok h m cxx names t0 calls0 disk0 (pre ++ pool) w ->
    exists (pool' : list (string * stage)) (w' : world),
      tick h m i pool w = (pool', w')
      /\ pool_ok h m cxx names t0 calls0 disk0 (pre ++ pool') w'.
Proof.
  induction i as [|i IH]; intros pre [|[c s] rest] w Hp;
    try (eexists _, _; split; [reflexivity | exact Hp]).
  - cbn [tick]. unfold advance. destruct s as [|o|r].
    + destruct (pool_open pre rest c w Hp) as (o & w' & E & Hp').
      rewrite E. eexists _, _. split; [reflexivity | exact Hp'].
    + destruct (pool_run pre rest c o w Hp) as (w' & E & Hp').
      rewrite E. eexists _, _. split; [reflexivity | exact Hp'].
    + eexists _, _. split; [reflexivity | exact Hp].
  - cbn [tick].
    destruct (IH (pre ++ [(c, s)])%list rest w) as (rest' & w' & E & Hp').
    { now rewrite <- app_assoc. }
    rewrite E. eexists _, _. split; [reflexivity|].
    now rewrite <- app_assoc in Hp'.
Qed.

Lemma run_ticks_ok (order : list nat) :
  forall (pool : list (string * stage)) (w : world),
    pool_ok h m cxx names t0 calls0 disk0 pool w ->
    exists (pool' : list (string * stage)) (w' : world),
      run_ticks h m order pool w = (pool', w')
      /\ pool_ok h m cxx names t0 calls0 disk0 pool' w'.
Proof.
  induction order as [|i order IH]; intros pool w Hp.
  - exists pool, w. now split.
  - cbn [run_ticks].
    destruct (tick_ok i [] pool w Hp) as (pool1 & w1 & E1 & Hp1).
    rewrite E1. now apply IH.
Qed.

(** Bringing the jobs to their end, in their order. *)
Lemma finish_ok :
  forall (pool pre : list (string * stage)) (w : world),
    pool_ok h m cxx names t0 calls0 disk0 (pre ++ pool) w ->
    exists (o_files : list tmpfile) (w' : world),
      finish h m pool w = (inr o_files, w')
      /\ pool_ok h m cxx names t0 calls0 disk0
           (pre ++ combine (map fst pool) (map (fun o => Finished (inr o)) o_files))
           w'
      /\ List.length o_files = List.length pool.
Proof.
  induction pool as [|[c s] rest IH]; intros pre w Hp.
  - exists [], w. split; [reflexivity|]. split; [exact Hp | reflexivity].
  - cbn [finish].
    assert (Hs : exists (o : tmpfile) (w1 : world),
               match s with
               | Waiting => _compile h m c
               | Opened o_f => _compile_run h m c o_f
               | Finished r => lift r
               end w = (inr o, w1)
               /\ pool_ok h m cxx names t0 calls0 disk0
                    (pre ++ (c, Finished (inr o)) :: rest) w1).
    { destruct s as [|o|[e|o]].
      - destruct (pool_open pre rest c w Hp) as (o & w1 & E1 & Hp1).
        destruct (pool_run pre rest c o w1 Hp1) as (w2 & E2 & Hp2).
        exists o, w2. split; [|exact Hp2].
        rewrite compile_halves. unfold io_bind. now rewrite E1.
      - destruct (pool_run pre rest c o w Hp) as (w2 & E2 & Hp2).
        exists o, w2. now split.
      - destruct Hp as (_ & He & _). rewrite first_error_app in He.
        cbn [first_error] in He. now destruct (first_error pre).
      - exists o, w. now split. }
    destruct Hs as (o & w1 & E1 & Hp1).
    destruct (IH (pre ++ [(c, Finished (inr o))])%list w1)
      as (os & w2 & E2 & Hp2 & L2).
    { now rewrite <- app_assoc. }
    exists (o :: os), w2.
    unfold io_bind at 1. rewrite E1. unfold io_bind at 1. rewrite E2.
    split; [reflexivity|]. split.
    + cbn [map combine fst]. now rewrite <- app_assoc in Hp2.
    + cbn [List.length]. now rewrite L2.
Qed.

End Running.

Lemma pool_objects_waiting (files : list tmpfile) :
  pool_objects (map (fun f => (f_name f, Waiting)) files) = [].
Proof. induction files as [|f fs IH]; [reflexivity | exact IH]. Qed.

Lemma pool_commands_waiting (cxx : string) (files : list tmpfile) :
  pool_commands m cxx (map (fun f => (f_name f, Waiting)) files) = [].
Proof. induction files as [|f fs IH]; [reflexivity | exact IH]. Qed.

Lemma first_error_waiting (files : list tmpfile) :
  first_error (map (fun f => (f_name f, Waiting)) files) = None.
Proof. induction files as [|f fs IH]; [reflexivity | exact IH]. Qed.

Lemma pool_objects_finished (names : list string) :
  forall os : list tmpfile,
    List.length os = List.length names ->
    pool_objects (combine names (map (fun o => Finished (inr o)) os)) = os.
Proof.
  induction names as [|c names IH]; intros [|o os] L; try discriminate;
    [reflexivity|].
  cbn [map combine pool_objects]. f_equal. apply IH.
  cbn [List.length] in L. lia.
Qed.

Lemma pool_commands_finished (cxx : string) (files : list tmpfile) :
  forall os : list tmpfile,
    pool_commands m cxx
      (combine (map f_name files) (map (fun o => Finished (inr o)) os))
    = map (fun p => compile_cmd m cxx (f_name (fst p)) (f_name (snd p)))
        (combine files os).
Proof.
  induction files as [|f files IH]; intros [|o os]; try reflexivity.
  cbn [map combine pool_commands fst snd]. f_equal. apply IH.
Qed.

Lemma commands_by_name (cxx : string) (files : list tmpfile) :
  forall (os : list tmpfile) (ks : list nat),
    map f_name os = map (fun k => numbered h "compiledtrees_" k ".o") ks ->
    map (fun p => compile_cmd m cxx (f_name (fst p))
                    (numbered h "compiledtrees_" (snd p) ".o"))
      (combine files ks)
    = map (fun p => compile_cmd m cxx (f_name (fst p)) (f_name (snd p)))
        (combine files os).
Proof.
  induction files as [|f files IH]; intros [|o os] [|k ks] E;
    try discriminate; try reflexivity.
  cbn [map] in E. injection E as E1 E2.
  cbn [combine map fst snd]. rewrite E1. f_equal. now apply IH.
Qed.

(** A compile job removes nothing where closed files are kept, and its
    object file is on the disk behind it. *)
Lemma compile_keeps (cpp_f : string) (w w' : world) (o_f : tmpfile) :
  keeps_files h m ->
  _compile h m cpp_f w = (inr o_f, w') ->
  disk_get (f_name o_f) (w_disk w') <> None
  /\ forall q, disk_get q (w_disk w) <> None -> disk_get q (w_disk w') <> None.
Proof.
  intros Hk. rewrite compile_halves.
  destruct (CXX_COMPILER m) as [cxx|] eqn:Hc.
  2:{ unfold io_bind. rewrite (open_without_compiler cpp_f w Hc). discriminate. }
  destruct (open_step cxx cpp_f w Hc) as (w1 & E1 & _ & _ & D).
  unfold io_bind. rewrite E1, (run_step cxx cpp_f _ w1 Hc). cbv zeta.
  destruct (shell_status h _ =? 0); [|discriminate].
  intros E. injection E as <- <-. cbn [w_disk f_name].
  split; [apply (D Hk); now left|].
  intros q Hq. apply (D Hk). now right.
Qed.

Lemma compile_jobs_keep (l : list tmpfile) :
  keeps_files h m ->
  forall (w w' : world) (os : list tmpfile),
    io_map (fun f => _compile h m (f_name f)) l w = (inr os, w') ->
    forall q, In q (map f_name os) \/ disk_get q (w_disk w) <> None ->
              disk_get q (w_disk w') <> None.
Proof.
  intros Hk. induction l as [|f l IH]; intros w w' os E q Hq.
  - cbn in E. injection E as <- <-. destruct Hq as [[]|Hq]; exact Hq.
  - cbn [io_map] in E. unfold io_bind at 1 in E.
    destruct (_compile h m (f_name f) w) as [[e|o] w1] eqn:E1; [discriminate|].
    unfold io_bind at 1 in E.
    destruct (io_map _ l w1) as [[e|os'] w2] eqn:E2; [discriminate|].
    unfold io_ret in E. injection E as <- <-.
    destruct (compile_keeps _ _ _ _ Hk E1) as [Ho Hkeep].
    apply (IH _ _ _ E2). cbn [map In] in Hq.
    destruct Hq as [[<-|Hq]|Hq];
      [right; exact Ho | now left | right; now apply Hkeep].
Qed.

(** The compile jobs of a build in which every compile command succeeds:
    whatever the number of jobs and the order of their steps, every unit has
    its object file, the object files are the next temporary files in some
    order, and the commands run are the compile commands of the units with
    their object files, in some order; with one job, in the order of the
    units. *)
Lemma parallel_ok (cxx : string) (n_jobs : Z) (order : list nat)
    (files : list tmpfile) (w : world) :
  CXX_COMPILER m = Some cxx ->
  n_jobs <> 0 ->
  (n_jobs = 1 ->
   Forall (fun c => shell_status h c = 0)
     (map (fun p => compile_cmd m cxx (f_name (fst p))
                      (numbered h "compiledtrees_" (snd p) ".o"))
        (combine files (seq (w_tmp w) (List.length files))))) ->
  (n_jobs <> 1 ->
   forall (f : tmpfile) (k : nat),
     In f files -> (w_tmp w <= k < w_tmp w + List.length files)%nat ->
     shell_status h
       (compile_cmd m cxx (f_name f) (numbered h "compiledtrees_" k ".o")) = 0) ->
  exists (o_files : list tmpfile) (w' : world) (cs : list shell_call),
    Parallel_compile h m n_jobs order files w = (inr o_files, w')
    /\ List.length o_files = List.length files
    /\ Permutation (map f_name o_files)
         (map (fun k => numbered h "compiledtrees_" k ".o")
            (seq (w_tmp w) (List.length files)))
    /\ w_tmp w' = (w_tmp w + List.length files)%nat
    /\ w_calls w' = (w_calls w ++ cs)%list
    /\ Permutation (map sc_cmd cs)
         (map (fun p => compile_cmd m cxx (f_name (fst p)) (f_name (snd p)))
            (combine files o_files))
    /\ (n_jobs = 1 ->
        map f_name o_files
        = map (fun k => numbered h "compiledtrees_" k ".o")
            (seq (w_tmp w) (List.length files))
        /\ map sc_cmd cs
           = map (fun p => compile_cmd m cxx (f_name (fst p)) (f_name (snd p)))
               (combine files o_files))
    /\ (keeps_files h m ->
        forall q : string,
          In q (map f_name o_files) \/ disk_get q (w_disk w) <> None ->
          disk_get q (w_disk w') <> None).
Proof.
  intros Hc H0 Hseq Hpar. unfold Parallel_compile.
  destruct (Z.eqb_spec n_jobs 0) as [|_]; [contradiction|].
  destruct (Z.eqb_spec n_jobs 1) as [H1|H1].
  - destruct (compile_jobs_ok h m cxx Hc files w (Hseq H1))
      as (os & w2 & cs & E2 & N2 & T2 & C2 & S2).
    assert (L : List.length os = List.length files).
    { rewrite <- (length_map f_name), N2, length_map. apply length_seq. }
    rewrite (commands_by_name cxx files os _ N2) in S2.
    exists os, w2, cs. split; [exact E2|]. split; [exact L|].
    split; [now rewrite N2|]. split; [exact T2|]. split; [exact C2|].
    split; [now rewrite S2|]. split; [now intros _|].
    intros Hk. exact (compile_jobs_keep files Hk _ _ _ E2).
  - set (names := map f_name files).
    assert (Hok : forall (c : string) (k : nat),
              In c names ->
              (w_tmp w <= k < w_tmp w + List.length names)%nat ->
              shell_status h
                (compile_cmd m cxx c (numbered h "compiledtrees_" k ".o")) = 0).
    { intros c k Hin Hk. unfold names in Hin, Hk.
      apply in_map_iff in Hin. destruct Hin as (f & <- & Hf).
      rewrite length_map in Hk. now apply Hpar. }
    assert (P0 : pool_ok h m cxx names (w_tmp w) (w_calls w) (w_disk w)
                   (map (fun f => (f_name f, Waiting)) files) w).
    { unfold pool_ok.
      rewrite pool_objects_waiting, pool_commands_waiting, first_error_waiting.
      rewrite map_map, Nat.sub_diag. cbn [map fst seq].
      split; [reflexivity|]. split; [reflexivity|]. split; [lia|].
      split; [constructor|]. split.
      - exists []. split; [now rewrite app_nil_r | constructor].
      - intros _ q [[]|Hq]. exact Hq. }
    destruct (run_ticks_ok cxx names (w_tmp w) (w_calls w) (w_disk w) Hc Hok
                order _ w P0) as (pool1 & w1 & E1 & P1).
    rewrite E1. pose proof P1 as (N1 & F1 & _). rewrite F1.
    destruct (finish_ok cxx names (w_tmp w) (w_calls w) (w_disk w) Hc Hok
                pool1 [] w1 P1) as (os & w2 & E2 & P2 & L2).
    cbn [app] in P2. rewrite N1 in P2.
    assert (L : List.length os = List.length files).
    { rewrite L2, <- (length_map fst), N1. unfold names. apply length_map. }
    destruct P2 as (_ & _ & T2 & Q2 & (cs & C2 & S2) & D2).
    unfold names in Q2, S2, D2.
    rewrite pool_objects_finished in Q2, D2 by now rewrite length_map.
    rewrite pool_commands_finished in S2.
    assert (T : (w_tmp w2 - w_tmp w)%nat = List.length files).
    { pose proof (Permutation_length Q2) as PL.
      rewrite !length_map, length_seq in PL. lia. }
    rewrite T in Q2.
    exists os, w2, cs. split; [exact E2|]. split; [exact L|].
    split; [exact Q2|]. split; [lia|]. split; [exact C2|].
    split; [exact S2|]. split; [contradiction | exact D2].
Qed.

(** Without a compiler the compile jobs of a build with at least one unit
    end in the exception of [_compile], whatever the number of jobs and the
    order of their steps, and change nothing. *)
Lemma parallel_without_compiler (n_jobs : Z) (order : list nat)
    (files : list tmpfile) (w : world) :
  CXX_COMPILER m = None ->
  n_jobs <> 0 ->
  files <> [] ->
  Parallel_compile h m n_jobs order files w
  = (inl (Exception no_compiler_message), w).
Proof.
  intros Hc H0 Hne. unfold Parallel_compile.
  destruct (Z.eqb_spec n_jobs 0) as [|_]; [contradiction|].
  destruct files as [|f fs]; [contradiction|].
  destruct (Z.eqb_spec n_jobs 1) as [H1|H1].
  - cbn [io_map]. unfold io_bind at 1. unfold _compile at 1. now rewrite Hc.
  - set (idle := fun x : string * stage =>
                   snd x = Waiting
                   \/ snd x = Finished (inl (Exception no_compiler_message))).
    assert (Htick : forall i pool,
              Forall idle pool ->
              exists pool', tick h m i pool w = (pool', w)
                            /\ Forall idle pool'
                            /\ List.length pool' = List.length pool).
    { induction i as [|i IH]; intros [|[c s] rest] Hp;
        try (eexists; split; [reflexivity|]; split; [exact Hp | reflexivity]).
      - inversion Hp as [|? ? Hs Hrest]; subst. cbn [tick]. unfold advance.
        destruct Hs as [Hs|Hs]; cbn [snd] in Hs; subst s.
        + rewrite (open_without_compiler c w Hc).
          eexists. split; [reflexivity|]. split; [|reflexivity].
          constructor; [now right | exact Hrest].
        + eexists. split; [reflexivity|]. split; [|reflexivity].
          constructor; [now right | exact Hrest].
      - inversion Hp as [|? ? Hs Hrest]; subst. cbn [tick].
        destruct (IH rest Hrest) as (rest' & E & Hr & L). rewrite E.
        eexists. split; [reflexivity|]. split.
        + now constructor.
        + cbn [List.length]. now rewrite L. }
    assert (Hrun : forall (ticks : list nat) pool,
              Forall idle pool ->
              exists pool', run_ticks h m ticks pool w = (pool', w)
                            /\ Forall idle pool'
                            /\ List.length pool' = List.length pool).
    { induction ticks as [|i ticks IH]; intros pool Hp.
      - exists pool. now repeat split.
      - cbn [run_ticks]. destruct (Htick i pool Hp) as (p1 & E1 & H1' & L1).
        rewrite E1. destruct (IH p1 H1') as (p2 & E2 & H2 & L2).
        exists p2. split; [exact E2|]. split; [exact H2 | congruence]. }
    destruct (Hrun order (map (fun f => (f_name f, Waiting)) (f :: fs)))
      as (pool & E & Hi & L).
    { apply Forall_forall. intros x Hx. apply in_map_iff in Hx.
      destruct Hx as (f' & <- & _). now left. }
    rewrite E.
    assert (Herr : forall p, Forall idle p ->
              match first_error p with
              | Some e => e = Exception no_compiler_message
              | None => Forall (fun x => snd x = Waiting) p
              end).
    { induction p as [|[c s] p IH]; intros Hp; [constructor|].
      inversion Hp as [|? ? Hs Hrest]; subst. specialize (IH Hrest).
      destruct Hs as [Hs|Hs]; cbn [snd] in Hs; subst s; cbn [first_error].
      - destruct (first_error p); [exact IH | now constructor].
      - reflexivity. }
    specialize (Herr pool Hi).
    destruct (first_error pool) as [e|]; [now subst e|].
    destruct pool as [|[c s] rest]; [discriminate L|].
    inversion Herr as [|? ? Hs _]; subst. cbn [snd] in Hs. subst s.
    cbn [finish]. unfold io_bind at 1. unfold _compile at 1. now rewrite Hc.
Qed.

(** A pool whose threads take no step before the caller looks runs the jobs
    one after the other. *)
Lemma finish_waiting (files : list tmpfile) (w : world) :
  finish h m (map (fun f => (f_name f, Waiting)) files) w
  = io_map (fun f => _compile h m (f_name f)) files w.
Proof.
  revert w. induction files as [|f fs IH]; intros w; [reflexivity|].
  cbn [map finish io_map]. unfold io_bind at 1 3.
  destruct (_compile h m (f_name f) w) as [[e|o] w1]; [reflexivity|].
  unfold io_bind. now rewrite IH.
Qed.


(** The same when every command succeeds. *)
Lemma parallel_all_ok (cxx : string) (n_jobs : Z) (order : list nat)
    (files : list tmpfile) (w : world) :
  CXX_COMPILER m = Some cxx ->
  n_jobs <> 0 ->
  (forall c, shell_status h c = 0) ->
  exists (o_files : list tmpfile) (w' : world) (cs : list shell_call),
    Parallel_compile h m n_jobs order files w = (inr o_files, w')
    /\ List.length o_files = List.length files
    /\ Permutation (map f_name o_files)
         (map (fun k => numbered h "compiledtrees_" k ".o")
            (seq (w_tmp w) (List.length files)))
    /\ w_tmp w' = (w_tmp w + List.length files)%nat
    /\ w_calls w' = (w_calls w ++ cs)%list
    /\ Permutation (map sc_cmd cs)
         (map (fun p => compile_cmd m cxx (f_name (fst p)) (f_name (snd p)))
            (combine files o_files))
    /\ (n_jobs = 1 ->
        map f_name o_files
        = map (fun k => numbered h "compiledtrees_" k ".o")
            (seq (w_tmp w) (List.length files))
        /\ map sc_cmd cs
           = map (fun p => compile_cmd m cxx (f_name (fst p)) (f_name (snd p)))
               (combine files o_files))
    /\ (keeps_files h m ->
        forall q : string,
          In q (map f_name o_files) \/ disk_get q (w_disk w) <> None ->
          disk_get q (w_disk w') <> None).
Proof.
  intros Hc H0 Hs. apply parallel_ok; try assumption.
  - intros _. apply Forall_forall. intros c _. apply Hs.
  - intros _ f k _ _. apply Hs.
Qed.

Lemma commands_of_names (cxx : string) (files : list tmpfile) :
  forall os : list tmpfile,
    map (fun p => compile_cmd m cxx (f_name (fst p)) (f_name (snd p)))
      (combine files os)
    = map (fun p : tmpfile * string => compile_cmd m cxx (f_name (fst p)) (snd p))
        (combine files (map f_name os)).
Proof.
  induction files as [|f files IH]; intros [|o os]; try reflexivity.
  cbn [map combine fst snd]. f_equal. apply IH.
Qed.

(** Without units the caller gets the empty list, if the number of jobs is
    accepted. *)
Lemma parallel_nil (n_jobs : Z) (order : list nat) (w : world) :
  n_jobs <> 0 -> Parallel_compile h m n_jobs order [] w = (inr [], w).
Proof.
  intros H0. unfold Parallel_compile.
  destruct (Z.eqb_spec n_jobs 0) as [|_]; [contradiction|].
  destruct (n_jobs =? 1); [reflexivity|].
  assert (E : run_ticks h m order [] w = ([], w))
    by (induction order as [|i order IH]; [reflexivity | exact IH]).
  cbn [map]. now rewrite E.
Qed.


End PoolFacts.

(* ================================================================== *)
(** * The build driver: the claims                                     *)
(* ================================================================== *)

Section BuildClaims.

Variable h : host.
Variable m : globals.

(** C5, as the code has it.  Without a compiler [compile_code_to_object],
    given at least one source unit, raises the exception that tells to set
    [CXX]; it does so in the first compile job, before any command is handed
    to the shell and before any object or library file is created, whatever
    the number of jobs that joblib accepts and the order in which the jobs
    run.  The check is made there and nowhere else: the generator does not
    look at the compiler. *)
Theorem C5_no_compiler_is_reported_by_the_first_compile_job :
  forall (files : files_arg) (n_jobs : Z) (order : list nat) (w : world),
    CXX_COMPILER m = None ->
    as_list files <> [] ->
    n_jobs <> 0 ->
    (exists w' : world,
       compile_code_to_object h m files n_jobs order w
       = (inl (Exception no_compiler_message), w')
       /\ w_calls w' = w_calls w
       /\ w_tmp w' = w_tmp w)
    /\ forall (real : Type) (F : PyFloat real) (cxx : option string)
              (depth : nat) (trees : list (Tree real))
              (weight initial_value : real) (gen : option CodeGenerator)
              (w0 : world),
         code_gen_ensemble h
           {| CXX_COMPILER := cxx; delete_files := delete_files m;
              OPENMP_SUPPORT := OPENMP_SUPPORT m |}
           depth trees weight initial_value gen w0
         = code_gen_ensemble h m depth trees weight initial_value gen w0.
Proof.
  intros files n_jobs order w Hc Hne H0. split; [|reflexivity].
  unfold compile_code_to_object.
  destruct (pre_close h m (as_list files) w) as (w1 & E1 & C1 & T1).
  exists w1. unfold io_bind at 1. rewrite E1.
  unfold io_bind at 1.
  rewrite (parallel_without_compiler h m n_jobs order _ w1 Hc H0 Hne).
  repeat split; assumption.
Qed.

(** C9, as the code has it.  On Windows, where the command line is short,
    the link step writes the names of the object files, in the order of the
    units, to a list file, each name with its backslashes doubled and
    followed by one carriage return, without quotes and without line feeds,
    and links once, with a single command that names the list file behind
    [@] and the library as its output.  The compile commands that come first
    are those of the units with their object files; a pool of threads runs
    them in an order of its own, one job runs them in the order of the
    units. *)
Theorem C9_windows_links_once_from_a_list_file :
  forall (files : files_arg) (n_jobs : Z) (order : list nat) (w : world)
         (cxx : string),
    platform_system h = Windows ->
    CXX_COMPILER m = Some cxx ->
    delete_files m = false ->
    (forall c, shell_status h c = 0) ->
    n_jobs <> 0 ->
    let srcs := as_list files in
    let n := List.length srcs in
    let numbers := seq (w_tmp w) n in
    let so_name := numbered h "compiledtrees_" (w_tmp w + n) ".so" in
    let list_name := numbered h "list_ofiles_" (w_tmp w + n + 1) EmptyString in
    exists (objs : list string) (compile_calls : list shell_call)
           (link_disk : list (string * string)),
      Permutation objs
        (map (fun k => numbered h "compiledtrees_" k ".o") numbers)
      /\ w_calls (snd (compile_code_to_object h m files n_jobs order w))
         = (w_calls w ++ compile_calls
            ++ [mk_call (link_cmd_windows m cxx list_name so_name) link_disk])%list
      /\ Permutation (map sc_cmd compile_calls)
           (map (fun p : tmpfile * string =>
                   compile_cmd m cxx (f_name (fst p)) (snd p))
              (combine srcs objs))
      /\ disk_get list_name link_disk
         = Some (String.concat EmptyString
                   (map (fun o => replace_char BACKSLASH
                                    (chr BACKSLASH ++ chr BACKSLASH) o
                                  ++ chr CR) objs))
      /\ (n_jobs = 1 ->
          objs = map (fun k => numbered h "compiledtrees_" k ".o") numbers
          /\ map sc_cmd compile_calls
             = map (fun p : tmpfile * string =>
                      compile_cmd m cxx (f_name (fst p)) (snd p))
                 (combine srcs objs)).
Proof.
  intros files n_jobs order w cxx Hsys Hc Hdel Hs H0 srcs n numbers so_name
    list_name.
  unfold compile_code_to_object. fold srcs. rewrite Hsys, Hc. cbn [system_eqb].
  destruct (io_iter_close m srcs w) as (w1 & E1 & C1 & T1).
  destruct (parallel_all_ok h m cxx n_jobs order srcs w1 Hc H0 Hs)
    as (os & w2 & cs & E2 & L2 & Q2 & T2 & C2 & S2 & O2 & _).
  rewrite T1 in Q2, T2, O2. fold n in Q2, T2, O2. fold numbers in Q2, O2.
  rewrite commands_of_names in S2, O2.
  exists (map f_name os), cs.
  rewrite (io_bind_inr _ _ _ _ _ E1), (io_bind_inr _ _ _ _ _ E2).
  erewrite io_bind_inr by reflexivity.
  erewrite io_bind_inr by reflexivity.
  rewrite calls_bind_quiet by (intros a; apply quiet_ret).
  erewrite io_bind_inr by reflexivity. cbv zeta.
  erewrite io_bind_inr by (unfold close; rewrite Hdel; reflexivity).
  rewrite calls_bind_quiet.
  2:{ intros a. apply quiet_bind; [apply quiet_iter_unlink|].
      intros a'. apply quiet_bind; [apply quiet_iter_unlink|].
      intros a''. apply quiet_unlink. }
  match goal with
  | |- context [_call h [Some cxx; Some "-shared"; Some ?a; Some (openmp_flag m);
                         Some "-fPIC"; Some "-flto"; Some "-o"; Some ?b;
                         Some "-O3"; Some "-pipe"]] =>
      change [Some cxx; Some "-shared"; Some a; Some (openmp_flag m);
              Some "-fPIC"; Some "-flto"; Some "-o"; Some b;
              Some "-O3"; Some "-pipe"]
        with (map Some [cxx; "-shared"; a; openmp_flag m; "-fPIC"; "-flto";
                        "-o"; b; "-O3"; "-pipe"])
  end.
  rewrite (call_succeeds _ _ _ Hs). cbn [snd w_calls w_disk f_name].
  rewrite !(proj1 (write_entries_data os _)), !(proj2 (write_entries_data os _)).
  cbn [f_name f_data append]. unfold tmp_path. cbn [w_tmp].
  rewrite T2.
  replace (S (w_tmp w + n)) with (w_tmp w + n + 1)%nat by lia.
  fold so_name list_name.
  eexists. split; [exact Q2|]. split.
  { rewrite C2, C1, <- app_assoc. reflexivity. }
  split; [exact S2|]. split; [|exact O2].
  rewrite disk_get_put. f_equal. f_equal.
  rewrite map_map. reflexivity.
Qed.

End BuildClaims.

(* ================================================================== *)
(** * The claims on concrete inputs                                    *)
(* ================================================================== *)

(** The tree of the docstring and what is written for it. *)
Example stump9_unit :
  tree_unit 2 stump9 "evaluate"
  = [ extern_C;
      "  __attribute__((__always_inline__)) double evaluate(float* f) {";
      "    if (f[9] <= 0.176f) {";
      "      return 0.0;";
      "    }";
      "    else {";
      "      return 1.0;";
      "    }";
      "  }";
      "}" ].
Proof. reflexivity. Qed.

Example stump9_below :
  predict 2 stump9 0 (repeat (Milli 100) 10) = Some (Milli 0).
Proof. reflexivity. Qed.

Example stump9_above :
  predict 2 stump9 0 (repeat (Milli 200) 10) = Some (Milli 1000).
Proof. reflexivity. Qed.

Lemma C1_witness :
  exists (f : tmpfile) (w' : world),
    code_gen_tree linux_host 2 stump9 "evaluate" None empty_world = (inr f, w')
    /\ f_data f = unlines (tree_unit 2 stump9 "evaluate")
    /\ forall fvec : list milli,
         call_partial [f_data f] "evaluate" fvec = predict 2 stump9 0 fvec.
Proof.
  destruct (C1_tree_unit_agrees_with_node_arrays linux_host 2 stump9 "evaluate"
              empty_world) as (f & w' & E & D & R).
  - reflexivity.
  - reflexivity.
  - reflexivity.
  - exists f, w'. split; [exact E|]. split; [exact D|].
    apply R. split; repeat constructor.
Defined.

(** The same stump on whole numbers with the threshold 16777219: the line
    of the test is written with the literal [16777219.0f], which denotes
    16777220 in single precision, so that the vector with 16777220 goes to
    the left leaf in the generated function and to the right leaf in the node
    arrays. *)
Lemma C1_counterexample :
  wf_tree 2 wide_stump = true
  /\ tree_printable wide_stump = true
  /\ match fst (code_gen_tree linux_host 2 wide_stump "evaluate" None
                  empty_world) with
     | inr f =>
         In "    if (f[0] <= 16777219.0f) {" (lines_of (f_data f))
         /\ call_partial [f_data f] "evaluate" [Whole 16777220]
            = Some (Whole 0)
         /\ predict 2 wide_stump 0 [Whole 16777220] = Some (Whole 1)
     | inl _ => False
     end.
Proof. vm_compute. repeat split. right. right. now left. Qed.

(** The round trip of the threshold 16777219: its literal is read back as
    16777220, and the vector with 16777220 lies on the other side of it. *)
Lemma C6_counterexample :
  branch_line 0 (Whole 16777219) = "if (f[0] <= 16777219.0f) {"
  /\ classify (branch_line 0 (Whole 16777219)) = TIf 0 "16777219.0"
  /\ read_float (format_float (Whole 16777219)) = Some (Whole 16777220)
  /\ Whole 16777220 <> Whole 16777219
  /\ real_le (Whole 16777220) (Whole 16777219) = false
  /\ real_le (Whole 16777220) (Whole 16777220) = true
  /\ read_double (format_float (Whole 16777219)) = Some (Whole 16777219).
Proof. vm_compute. repeat split. discriminate. Qed.

Lemma C6_witness :
  reread wide_stump = Some wide_stump_single
  /\ exists (f : tmpfile) (w' : world),
       code_gen_tree linux_host 2 wide_stump "evaluate" None empty_world
       = (inr f, w')
       /\ forall fvec : list whole,
            call_partial [f_data f] "evaluate" fvec
            = predict 2 wide_stump_single 0 fvec.
Proof.
  split; [reflexivity|].
  destruct (C6_evaluator_decides_by_the_literals_read_back linux_host 2
              wide_stump wide_stump_single "evaluate" empty_world)
    as (f & w' & E & _ & R).
  - reflexivity.
  - reflexivity.
  - reflexivity.
  - reflexivity.
  - exists f, w'. split; [exact E | exact R].
Defined.




Lemma C10_witness :
  exists w' : world,
    code_gen_tree linux_host 1 two_class_leaf "evaluate" None empty_world
    = (inl AssertionError, w').
Proof.
  destruct (C10_leaf_value_must_be_scalar linux_host 1 two_class_leaf
              "evaluate" empty_world) as [Hcall _].
  - reflexivity.
  - reflexivity.
  - reflexivity.
  - reflexivity.
  - exact Hcall.
Defined.

(** C3 as stated fails: the unit of tree 0 defines [evaluate_0], and the
    name [evaluate_partial_0] occurs in none of the units. *)
Lemma C3_counterexample :
  match fst (code_gen_ensemble linux_host linux_globals 2 [stump9]
               (Milli 100) (Milli 0) None empty_world) with
  | inr files =>
      forallb (fun f => negb (contains "evaluate_partial_0" (f_data f))) files
      = true
      /\ option_map (fun f => contains "double evaluate_0(float* f) {" (f_data f))
           (nth_error files 0) = Some true
      /\ option_map (fun f => String.eqb (f_data f)
                                (unlines (tree_unit 2 stump9 "evaluate_partial_0")))
           (nth_error files 0) = Some false
  | inl _ => False
  end.
Proof. vm_compute. repeat split. Qed.

Lemma C3_witness :
  exists (files : list tmpfile) (combiner : tmpfile),
    fst (code_gen_ensemble linux_host linux_globals 2 [tree_a; tree_b]
           (Milli 500) (Milli 0) None empty_world) = inr files
    /\ nth_error files 2 = Some combiner
    /\ option_map f_data (nth_error files 1)
       = Some (unlines (tree_unit 2 tree_b "evaluate_1"))
    /\ In "  double evaluate_1(float* f);" (lines_of (f_data combiner)).
Proof.
  destruct (C3_units_are_named_evaluate_i linux_host linux_globals 2
              [tree_a; tree_b] (Milli 500) (Milli 0) empty_world)
    as (files & combiner & w' & E & Ec & Hunits & _).
  - discriminate.
  - reflexivity.
  - reflexivity.
  - reflexivity.
  - reflexivity.
  - exists files, combiner. rewrite E.
    destruct (Hunits 1%nat tree_b eq_refl) as [Hu Hd].
    repeat split; assumption.
Defined.



(** C5 as stated fails: without a compiler the generator still runs and
    returns its units; the exception comes when they are compiled. *)
Lemma C5_counterexample :
  module_init bare_host = inr bare_globals
  /\ CXX_COMPILER bare_globals = None
  /\ match code_gen_ensemble bare_host bare_globals 2 [stump9]
             (Milli 100) (Milli 0) None empty_world with
     | (inr files, w') =>
         List.length files = 2%nat
         /\ w_tmp w' = 2%nat
         /\ fst (compile_code_to_object bare_host bare_globals (FileList files)
                   1 [] w')
            = inl (Exception no_compiler_message)
     | (inl _, _) => False
     end.
Proof. vm_compute. repeat split. Qed.

Lemma C5_witness :
  exists w' : world,
    compile_code_to_object bare_host bare_globals (FileList [unit_a; unit_a])
      2 [1; 0]%nat empty_world
    = (inl (Exception no_compiler_message), w')
    /\ w_calls w' = [].
Proof.
  destruct (C5_no_compiler_is_reported_by_the_first_compile_job bare_host
              bare_globals (FileList [unit_a; unit_a]) 2 [1; 0]%nat empty_world)
    as [(w' & E & C & _) _].
  - reflexivity.
  - discriminate.
  - discriminate.
  - exists w'. split; [exact E | exact C].
Defined.

(** C9 as stated fails: the entry of the list file has no quotes and ends
    with a carriage return, not with a line feed. *)
Lemma C9_counterexample :
  match w_calls (snd (compile_code_to_object windows_host windows_globals
                        (FileList [unit_a]) 1 [] empty_world)) with
  | [_; link] =>
      match disk_get (numbered windows_host "list_ofiles_" 2 EmptyString)
              (sc_disk link) with
      | Some bytes =>
          bytes = "C:" ++ chr BACKSLASH ++ chr BACKSLASH ++ "Temp"
                  ++ chr BACKSLASH ++ chr BACKSLASH ++ "compiledtrees_0.o"
                  ++ chr CR
          /\ lacks DQUOTE bytes = true
          /\ lacks LF bytes = true
      | None => False
      end
  | _ => False
  end.
Proof. vm_compute. repeat split. Qed.

Lemma C9_witness :
  exists (objs : list string) (compile_calls : list shell_call)
         (link_disk : list (string * string)),
    Permutation objs
      [numbered windows_host "compiledtrees_" 0 ".o";
       numbered windows_host "compiledtrees_" 1 ".o"]
    /\ w_calls (snd (compile_code_to_object windows_host windows_globals
                       (FileList [unit_a; unit_d]) 2 [1; 0; 0; 1]%nat
                       empty_world))
       = (compile_calls
          ++ [mk_call (link_cmd_windows windows_globals "g++"
                         (numbered windows_host "list_ofiles_" 3 EmptyString)
                         (numbered windows_host "compiledtrees_" 2 ".so"))
                link_disk])%list
    /\ disk_get (numbered windows_host "list_ofiles_" 3 EmptyString) link_disk
       = Some (String.concat EmptyString
                 (map (fun o => replace_char BACKSLASH
                                  (chr BACKSLASH ++ chr BACKSLASH) o
                                ++ chr CR) objs)).
Proof.
  destruct (C9_windows_links_once_from_a_list_file windows_host windows_globals
              (FileList [unit_a; unit_d]) 2 [1; 0; 0; 1]%nat empty_world "g++")
    as (objs & cs & d & Hobjs & Hcalls & _ & Hdisk & _).
  - reflexivity.
  - reflexivity.
  - reflexivity.
  - reflexivity.
  - discriminate.
  - exists objs, cs, d. split; [exact Hobjs|].
    split; [exact Hcalls | exact Hdisk].
Defined.

(* ================================================================== *)
(** * More about the module: what is set at import                     *)
(* ================================================================== *)

Section ImportFacts.

(** X1. When the import succeeds, OpenMP support is off exactly on Darwin with
    a compiler that reports clang; the compiler is the variable [CXX] of the
    environment on Windows and the one of [sysconfig] elsewhere, and
    temporary files are kept on close exactly on Windows. *)
Theorem import_resolves_toolchain :
  forall (h : host) (m : globals),
    module_init h = inr m ->
    (OPENMP_SUPPORT m = false
     <-> platform_system h = Darwin
         /\ exists v, cxx_version h = inr v /\ contains "clang" v = true)
    /\ (platform_system h = Windows -> CXX_COMPILER m = environ_CXX h)
    /\ (platform_system h <> Windows -> CXX_COMPILER m = sysconfig_CXX h)
    /\ (delete_files m = false <-> platform_system h = Windows).
Proof.
  intros h m. unfold module_init.
  destruct (platform_system h) eqn:Hs; cbn [system_eqb negb].
  - intros [= <-]. cbn. repeat split; try congruence; try discriminate.
    intros [? _]. discriminate.
  - destruct (sysconfig_CXX h) as [c|]; [|discriminate].
    destruct (cxx_version h) as [e|v] eqn:Hv; [discriminate|].
    cbn. intros [= <-]. cbn. repeat split; try congruence; try discriminate.
    + exists v. split; [reflexivity|]. now apply negb_false_iff.
    + intros [_ (v' & [= <-] & Hc)]. now rewrite Hc.
  - intros [= <-]. cbn. repeat split; try congruence; try discriminate.
    intros [? _]. discriminate.
Qed.

(** X2. The import itself fails only on Darwin: with [TypeError] when
    [sysconfig] names no compiler, and with the exception of the version
    query when that query fails. *)
Theorem import_fails_only_on_darwin :
  forall (h : host) (e : exn),
    module_init h = inl e
    <-> platform_system h = Darwin
        /\ ((sysconfig_CXX h = None /\ e = TypeError)
            \/ (sysconfig_CXX h <> None /\ cxx_version h = inl e)).
Proof.
  intros h e. unfold module_init.
  destruct (platform_system h) eqn:Hs; cbn [system_eqb negb].
  - split; [discriminate | intros [? _]; discriminate].
  - destruct (sysconfig_CXX h) as [c|].
    + destruct (cxx_version h) as [e'|v]; cbn.
      * split.
        -- intros [= <-]. split; [reflexivity|]. right. split; congruence.
        -- intros [_ [[? _]|[_ E]]]; congruence.
      * split; [discriminate|].
        intros [_ [[? _]|[_ E]]]; congruence.
    + cbn. split.
      * intros [= <-]. split; [reflexivity|]. now left.
      * intros [_ [[_ ->]|[N _]]]; congruence.
  - split; [discriminate | intros [? _]; discriminate].
Qed.

End ImportFacts.

(* ================================================================== *)
(** * More about the emitter and the generators                        *)
(* ================================================================== *)

Section GeneratorFacts.

Context {real : Type} `{PyFloat real} `{CFloat real}.

(** X3. [write] has one way to fail: it raises [UnicodeEncodeError] exactly when
    the line has a character outside ASCII, and appends the line
    otherwise. *)
Theorem write_fails_iff_not_ascii :
  forall (line : string) (gen : CodeGenerator),
    (write line gen = inl UnicodeEncodeError <-> is_ascii line = false)
    /\ (write line gen
        = inr (append_text (emit_line (_indent gen) line) gen)
        <-> is_ascii line = true)
    /\ forall e, write line gen = inl e -> e = UnicodeEncodeError.
Proof.
  intros line gen. destruct (is_ascii line) eqn:Hl.
  - rewrite (write_ascii _ _ Hl). repeat split; try discriminate; auto.
  - rewrite (write_not_ascii _ _ Hl). repeat split; try discriminate; auto.
    congruence.
Qed.

Lemma quiet_NamedTemporaryFile (h : host) (prefix suffix : string) :
  quiet (NamedTemporaryFile h prefix suffix).
Proof. now intros w. Qed.

Lemma quiet_lift {A : Type} (r : result A) : quiet (lift r).
Proof. now intros w. Qed.

Lemma quiet_file (g : CodeGenerator) : quiet (file g).
Proof. now intros w. Qed.

Lemma quiet_new_CodeGenerator (h : host) : quiet (new_CodeGenerator h).
Proof.
  apply quiet_bind; [apply quiet_NamedTemporaryFile|].
  intros f. apply quiet_ret.
Qed.

Lemma quiet_code_gen_tree (h : host) (depth : nat) (tree : Tree real)
    (name : string) (gen : option CodeGenerator) :
  quiet (code_gen_tree h depth tree name gen).
Proof.
  unfold code_gen_tree. apply quiet_bind.
  { destruct gen; [apply quiet_ret | apply quiet_new_CodeGenerator]. }
  intros g. apply quiet_bind; [apply quiet_lift|].
  intros g'. apply quiet_file.
Qed.

Lemma quiet_io_map {A B : Type} (f : A -> io B) (l : list A) :
  (forall a, quiet (f a)) -> quiet (io_map f l).
Proof.
  intros Hf. induction l as [|a l IH]; [apply quiet_ret|].
  cbn [io_map]. apply quiet_bind; [apply Hf|].
  intros b. apply quiet_bind; [exact IH|]. intros bs. apply quiet_ret.
Qed.

(** X4. The generators never hand a command to the shell, whatever they are
    given and whether they return or raise. *)
Theorem generation_runs_no_command :
  forall (h : host) (m : globals) (depth : nat) (trees : list (Tree real))
         (tree : Tree real) (name : string) (weight initial_value : real)
         (gen : option CodeGenerator) (i : nat) (w : world),
    w_calls (snd (code_gen_tree h depth tree name gen w)) = w_calls w
    /\ w_calls (snd (_gen_tree h depth i tree w)) = w_calls w
    /\ w_calls (snd (code_gen_ensemble h m depth trees weight initial_value
                       gen w)) = w_calls w.
Proof.
  intros h m depth trees tree name weight initial_value gen i w.
  split; [apply quiet_code_gen_tree|]. split.
  - unfold _gen_tree.
    apply (quiet_bind (new_CodeGenerator h)
             (fun g => code_gen_tree h depth tree (partial_name i) (Some g))).
    + apply quiet_new_CodeGenerator.
    + intros g. apply quiet_code_gen_tree.
  - unfold code_gen_ensemble. apply quiet_bind.
    { destruct gen; [apply quiet_ret | apply quiet_new_CodeGenerator]. }
    intros g. apply quiet_bind.
    { apply quiet_io_map. intros it. unfold _gen_tree.
      apply (quiet_bind (new_CodeGenerator h)
               (fun g0 => code_gen_tree h depth (snd it)
                            (partial_name (fst it)) (Some g0))).
      - apply quiet_new_CodeGenerator.
      - intros g0. apply quiet_code_gen_tree. }
    intros fs. apply quiet_bind; [apply quiet_lift|].
    intros g'. apply quiet_bind; [apply quiet_file|].
    intros f. apply quiet_ret.
Qed.

(** X5. The file [code_gen_tree] returns has been flushed: the disk holds, under
    its name, all the bytes written to it. *)
Theorem code_gen_tree_returns_flushed_file :
  forall (h : host) (depth : nat) (tree : Tree real) (name : string)
         (gen : option CodeGenerator) (w w' : world) (f : tmpfile),
    code_gen_tree h depth tree name gen w = (inr f, w') ->
    disk_get (f_name f) (w_disk w') = Some (f_data f).
Proof.
  intros h depth tree name gen w w' f.
  unfold code_gen_tree.
  destruct gen as [g|];
    cbv beta iota zeta delta [io_bind new_CodeGenerator NamedTemporaryFile
      io_ret lift file flush];
    destruct (emit_tree depth tree name _) as [e|g']; try discriminate;
    intros [= <- <-]; cbn [w_disk]; apply disk_get_put.
Qed.

End GeneratorFacts.

Section GeneratorEdges.

Context {real : Type} `{PyFloat real} `{CFloat real}.

Lemma code_gen_tree_on (h : host) (depth : nat) (tree : Tree real)
    (name : string) (g : CodeGenerator) (w : world) :
  tree_printable tree = true -> identifier name = true ->
  wf_tree depth tree = true -> _indent g = 0 ->
  code_gen_tree h depth tree name (Some g) w
  = (inr (file_write (_file g) (unlines (tree_unit depth tree name))),
     {| w_tmp := w_tmp w;
        w_disk := disk_put (f_name (_file g))
                    (f_data (_file g) ++ unlines (tree_unit depth tree name))
                    (w_disk w);
        w_calls := w_calls w |}).
Proof.
  intros Hp Hn Hwf Hg.
  pose proof (emit_tree_emits depth tree name Hp Hn Hwf g Hg) as He.
  cbv beta iota zeta delta [code_gen_tree io_bind io_ret lift file flush].
  now rewrite He.
Qed.

(** X6. A generator handed to [code_gen_tree] is appended to: two calls with the
    same generator leave the two units one after the other in its file,
    behind what it held before, and create no temporary file. *)
Theorem code_gen_tree_appends_to_its_generator :
  forall (h : host) (depth : nat) (t1 t2 : Tree real) (n1 n2 : string)
         (g : CodeGenerator) (w : world),
    _indent g = 0 ->
    wf_tree depth t1 = true -> wf_tree depth t2 = true ->
    tree_printable t1 = true -> tree_printable t2 = true ->
    identifier n1 = true -> identifier n2 = true ->
    exists (f1 f2 : tmpfile) (w1 w2 : world),
      code_gen_tree h depth t1 n1 (Some g) w = (inr f1, w1)
      /\ code_gen_tree h depth t2 n2
           (Some {| _file := f1; _indent := _indent g |}) w1 = (inr f2, w2)
      /\ f_name f2 = f_name (_file g)
      /\ f_data f2 = f_data (_file g) ++ unlines (tree_unit depth t1 n1)
                       ++ unlines (tree_unit depth t2 n2)
      /\ w_tmp w2 = w_tmp w.
Proof.
  intros h depth t1 t2 n1 n2 g w Hg W1 W2 P1 P2 N1 N2.
  eexists _, _, _, _.
  split; [apply code_gen_tree_on; assumption|].
  split; [apply code_gen_tree_on; assumption|].
  cbn [file_write f_name f_data _file w_tmp].
  repeat split. now rewrite append_assoc.
Qed.

(** X7. A tree without nodes is refused with [IndexError]. *)
Theorem code_gen_tree_on_empty_tree :
  forall (h : host) (depth : nat) (tree : Tree real) (name : string)
         (w : world),
    children_left tree = [] ->
    is_ascii name = true ->
    exists w' : world,
      code_gen_tree h (S depth) tree name None w = (inl IndexError, w').
Proof.
  intros h depth tree name w Hc Hn.
  rewrite code_gen_tree_new. cbv zeta.
  assert (E : forall g, _indent g = 0 ->
                emit_tree (S depth) tree name g = inl IndexError).
  { intros g Hg. unfold emit_tree.
    apply bracketed_raises with (d := 0); try easy.
    apply (bracketed_raises _ _ _ 1); try easy.
    { unfold tree_fn_decl. now rewrite !is_ascii_app, Hn. }
    intros g' _. rewrite recur_S, Hc. reflexivity. }
  rewrite E by reflexivity. now eexists.
Qed.

(** X8. An ensemble without trees is refused: the increment line reads the loop
    variable [i], which no iteration has set. *)
Theorem code_gen_ensemble_on_no_trees :
  forall (h : host) (m : globals) (depth : nat)
         (weight initial_value : real) (w : world),
    is_ascii (format_float initial_value) = true ->
    exists w' : world,
      code_gen_ensemble h m depth [] weight initial_value None w
      = (inl UnboundLocalError, w').
Proof.
  intros h m depth weight initial_value w Hv.
  assert (E : forall g, _indent g = 0 ->
                emit_ensemble m [] weight initial_value g
                = inl UnboundLocalError).
  { intros g Hg. unfold emit_ensemble.
    assert (B : forall g0, _indent g0 = 0 ->
              bracketed extern_C "}"
                (fun g1 =>
                   g2 <- write_each (fun it : nat * Tree real => forward_decl (fst it))
                           (enumerate []) g1 ;;
                   g3 <- write (funcs_line (List.length (@nil (Tree real)))) g2 ;;
                   bracketed combiner_fn_decl "}"
                     (fun g4 =>
                        g5 <- write ("double result = " ++ format_float initial_value ++ ";") g4 ;;
                        g6 <- write "int i;" g5 ;;
                        g7 <- write pragma_line g6 ;;
                        g8 <- bracketed (for_line (List.length (@nil (Tree real)))) "}"
                                (fun g9 => i <- last_index (@nil (Tree real)) ;;
                                           write (increment_line weight) g9) g7 ;;
                        write "return result;" g8) g3) g0
              = inl UnboundLocalError).
    { apply bracketed_raises with (d := 0); try easy.
      intros g1 Hg1. cbn [enumerate enumerate_from write_each ret bind List.length].
      rewrite (write_ascii _ g1 (is_ascii_funcs_line 0)). cbn [bind].
      apply (bracketed_raises _ _ _ 1); try easy.
      intros g4 Hg4.
      rewrite write_ascii by now rewrite !is_ascii_app, Hv.
      cbn [bind]. rewrite write_ascii by reflexivity. cbn [bind].
      rewrite write_ascii by reflexivity. cbn [bind].
      rewrite (bracketed_raises _ _ _ 2 UnboundLocalError); try easy. }
    destruct (OPENMP_SUPPORT m).
    - rewrite write_ascii by reflexivity. cbn [bind]. now apply B.
    - cbn [ret bind]. now apply B. }
  cbv beta iota zeta delta [code_gen_ensemble io_bind new_CodeGenerator
    NamedTemporaryFile io_ret lift enumerate enumerate_from io_map].
  rewrite E by reflexivity. now eexists.
Qed.

Lemma laid_out_mono (P : list real -> bool) (tree : Tree real) :
  forall (d d' : nat) (node : Z),
    laid_out P d tree node = true -> (d <= d')%nat ->
    laid_out P d' tree node = true.
Proof.
  induction d as [|d IH]; intros d' node Hl Hle; [discriminate|].
  destruct d' as [|d']; [lia|]. cbn [laid_out] in *.
  destruct (entry (children_left tree) node) as [l|]; [|discriminate].
  destruct (l =? -1); [exact Hl|].
  destruct (entry (children_right tree) node) as [r|]; [|discriminate].
  destruct (entry (feature tree) node) as [k|]; [|discriminate].
  destruct (entry (threshold tree) node) as [t|]; [|discriminate].
  apply andb_prop in Hl as [Hl Hr].
  rewrite (IH d' l Hl), (IH d' r Hr) by lia. reflexivity.
Qed.

Lemma lowering_mono (P : list real -> bool) (tree : Tree real) :
  forall (d d' : nat) (node i : Z),
    laid_out P d tree node = true -> (d <= d')%nat ->
    lowering d' tree node i = lowering d tree node i.
Proof.
  induction d as [|d IH]; intros d' node i Hl Hle; [discriminate|].
  destruct d' as [|d']; [lia|]. cbn [laid_out lowering] in *.
  destruct (entry (children_left tree) node) as [l|]; [|discriminate].
  destruct (l =? -1); [reflexivity|].
  destruct (entry (children_right tree) node) as [r|]; [|discriminate].
  destruct (entry (feature tree) node) as [k|]; [|discriminate].
  destruct (entry (threshold tree) node) as [t|]; [|discriminate].
  apply andb_prop in Hl as [Hl Hr]. cbv zeta.
  rewrite (IH d' l (i + 1) Hl), (IH d' r (i + 1) Hr) by lia. reflexivity.
Qed.

(** X9. Once the allowed depth of calls suffices for a tree, allowing more does
    not change the unit that is written. *)
Theorem deeper_limit_writes_the_same_unit :
  forall (h : host) (d d' : nat) (tree : Tree real) (name : string)
         (w : world),
    wf_tree d tree = true -> (d <= d')%nat ->
    tree_printable tree = true -> identifier name = true ->
    exists (f f' : tmpfile) (w1 w2 : world),
      code_gen_tree h d tree name None w = (inr f, w1)
      /\ code_gen_tree h d' tree name None w = (inr f', w2)
      /\ f' = f.
Proof.
  intros h d d' tree name w Hwf Hle Hp Hn.
  assert (Hwf' : wf_tree d' tree = true) by (eapply laid_out_mono; eassumption).
  rewrite !code_gen_tree_new. cbv zeta.
  pose proof (emit_tree_emits d tree name Hp Hn Hwf) as E.
  pose proof (emit_tree_emits d' tree name Hp Hn Hwf') as E'.
  unfold emits in E, E'. rewrite E, E' by reflexivity.
  eexists _, _, _, _. split; [reflexivity|]. split; [reflexivity|].
  unfold tree_unit. cbv zeta.
  now rewrite (lowering_mono _ tree d d' 0 2 Hwf Hle).
Qed.

Lemma recur_too_deep (tree : Tree real) :
  tree_printable tree = true ->
  forall (d D : nat) (node i : Z) (g : CodeGenerator),
    0 <= i -> _indent g = i ->
    laid_out (fun v => (List.length v =? 1)%nat) D tree node = true ->
    laid_out (fun v => (List.length v =? 1)%nat) d tree node = false ->
    recur d tree node g = inl RecursionError.
Proof.
  intros Hp. induction d as [|d IH]; intros D node i g Hi Hg HD Hd;
    [reflexivity|].
  destruct D as [|D]; [discriminate|].
  cbn [laid_out] in HD, Hd. rewrite recur_S.
  destruct (entry (children_left tree) node) as [l|] eqn:El; [|discriminate].
  rewrite (entry_py_index _ _ _ El), bind_inr.
  destruct (l =? -1) eqn:Hl; [congruence|].
  destruct (entry (children_right tree) node) as [r|] eqn:Er; [|discriminate].
  destruct (entry (feature tree) node) as [k|] eqn:Ek; [|discriminate].
  destruct (entry (threshold tree) node) as [t|] eqn:Et; [|discriminate].
  apply andb_prop in HD as [HDl HDr].
  rewrite (entry_py_index _ _ _ Ek), bind_inr.
  rewrite (entry_py_index _ _ _ Et), bind_inr.
  rewrite (entry_py_index _ _ _ Er).
  destruct (printable_threshold _ _ _ Hp Et) as [Ha _].
  pose proof (is_ascii_branch_line k t Ha) as Hb.
  change (bind (bracketed (branch_line k t) "}" (recur d tree l) g)
            (bracketed "else {" "}" (recur d tree r))
          = inl RecursionError).
  destruct (laid_out (fun v => (List.length v =? 1)%nat) d tree l) eqn:Hwl.
  - assert (Hleft : emits (bracketed (branch_line k t) "}" (recur d tree l))
                      i (emit_line i (branch_line k t)
                         ++ unlines (lowering d tree l (i + 1))
                         ++ emit_line i "}")).
    { apply bracketed_emits; try easy.
      apply recur_emits; [assumption | lia | assumption]. }
    rewrite (Hleft g Hg), bind_inr.
    apply bracketed_raises with (d := i); try easy.
    intros g' Hg'. apply IH with (D := D) (i := i + 1); try assumption; lia.
  - rewrite (bracketed_raises (branch_line k t) "}" (recur d tree l) i
               RecursionError Hi Hb); [reflexivity | | assumption].
    intros g' Hg'. apply IH with (D := D) (i := i + 1); try assumption; lia.
Qed.

(** X10. A well-formed tree that is deeper than the allowed depth of calls is
    refused with [RecursionError]; no shortened unit is returned. *)
Theorem too_deep_tree_raises_RecursionError :
  forall (h : host) (d D : nat) (tree : Tree real) (name : string)
         (w : world),
    wf_tree D tree = true -> wf_tree d tree = false ->
    tree_printable tree = true -> identifier name = true ->
    exists w' : world,
      code_gen_tree h d tree name None w = (inl RecursionError, w').
Proof.
  intros h d D tree name w HD Hd Hp Hn.
  rewrite code_gen_tree_new. cbv zeta.
  assert (E : forall g, _indent g = 0 ->
                emit_tree d tree name g = inl RecursionError).
  { intros g Hg. unfold emit_tree.
    apply bracketed_raises with (d := 0); try easy.
    apply (bracketed_raises _ _ _ 1); try easy.
    { now apply is_ascii_tree_fn_decl. }
    intros g' Hg'. now apply (recur_too_deep tree Hp d D 0 2 g'). }
  rewrite E by reflexivity. now eexists.
Qed.

(** X11. The names of the per-tree functions are C identifiers, differ for
    different trees and differ from the name of the combiner. *)
Theorem partial_names_are_distinct_identifiers :
  forall i j : nat,
    identifier (partial_name i) = true
    /\ partial_name i <> EVALUATE_FN_NAME
    /\ (partial_name i = partial_name j <-> i = j).
Proof.
  intros i j. split; [apply identifier_partial_name|]. split.
  - unfold partial_name, EVALUATE_FN_NAME. intros E.
    apply (f_equal String.length) in E. rewrite string_length_app in E.
    simpl in E. lia.
  - split; [apply partial_name_inj | now intros ->].
Qed.

End GeneratorEdges.

Section EvaluatorFacts.

Context {real : Type} `{PyFloat real} `{CFloat real}.

Lemma nth_error_combine_some {A B : Type} (a : list A) :
  forall (b : list B) (n : nat) (x : A) (y : B),
    nth_error a n = Some x -> nth_error b n = Some y ->
    In (x, y) (combine a b).
Proof.
  induction a as [|a0 a IH]; intros b n x y Ha Hb.
  - destruct n; discriminate.
  - destruct b as [|b0 b]; [destruct n; discriminate|].
    destruct n as [|n]; cbn in *.
    + left. congruence.
    + right. eauto.
Qed.

Lemma entry_combine {A B : Type} (a : list A) (b : list B) (i : Z)
    (x : A) (y : B) :
  entry a i = Some x -> entry b i = Some y -> In (x, y) (combine a b).
Proof.
  unfold entry. destruct (i <? 0); [discriminate|].
  apply nth_error_combine_some.
Qed.

Lemma predict_total (tree : Tree real) (fvec : list real) :
  features_fit tree (List.length fvec) = true ->
  forall (depth : nat) (node : Z),
    laid_out (fun v => (List.length v =? 1)%nat) depth tree node = true ->
    exists v, predict depth tree node fvec = Some v /\ In [v] (value tree).
Proof.
  intros Hfit. induction depth as [|depth IH]; intros node Hwf;
    [discriminate|].
  cbn [laid_out predict] in *.
  destruct (entry (children_left tree) node) as [l|] eqn:El; [|discriminate].
  destruct (l =? -1) eqn:Hl.
  - destruct (entry (value tree) node) as [[|v [|v' vs]]|] eqn:Ev;
      try discriminate.
    exists v. split; [reflexivity|]. now apply entry_In in Ev.
  - destruct (entry (children_right tree) node) as [r|]; [|discriminate].
    destruct (entry (feature tree) node) as [k|] eqn:Ek; [|discriminate].
    destruct (entry (threshold tree) node) as [t|]; [|discriminate].
    apply andb_prop in Hwf as [Hwl Hwr].
    unfold features_fit in Hfit. rewrite forallb_forall in Hfit.
    specialize (Hfit _ (entry_combine _ _ _ _ _ El Ek)). cbn [fst snd] in Hfit.
    rewrite Hl in Hfit. cbn [orb] in Hfit.
    apply andb_prop in Hfit as [Hk0 Hkn].
    apply Z.leb_le in Hk0. apply Z.ltb_lt in Hkn.
    unfold feature_at. destruct (Z.ltb_spec k 0); [lia|].
    destruct (nth_error fvec (Z.to_nat k)) as [x|] eqn:Ex.
    + destruct (real_le x t); now apply IH.
    + apply nth_error_None in Ex. lia.
Qed.

(** X12. On a feature vector that has every feature the tree tests, the function
    generated for a well-formed tree returns, and what it returns is the
    value stored at one of the leaves. *)
Theorem generated_evaluator_returns_a_leaf_value :
  forall (h : host) (depth : nat) (tree : Tree real) (name : string)
         (w : world) (fvec : list real),
    wf_tree depth tree = true ->
    tree_printable tree = true ->
    identifier name = true ->
    literals_exact tree ->
    features_fit tree (List.length fvec) = true ->
    exists (f : tmpfile) (w' : world) (v : real),
      code_gen_tree h depth tree name None w = (inr f, w')
      /\ call_partial [f_data f] name fvec = Some v
      /\ In [v] (value tree).
Proof.
  intros h depth tree name w fvec Hwf Hp Hn Hex Hfit.
  destruct (predict_total tree fvec Hfit depth 0 Hwf) as (v & Hv & Hin).
  rewrite code_gen_tree_new. cbv zeta.
  pose proof (emit_tree_emits depth tree name Hp Hn Hwf) as He.
  unfold emits in He. rewrite He by reflexivity.
  eexists _, _, v. split; [reflexivity|]. split; [|exact Hin].
  cbn [append_text _file file_write f_data append].
  now rewrite (call_tree_unit depth tree name fvec [] Hp Hn Hwf Hex).
Qed.

End EvaluatorFacts.

(* ================================================================== *)
(** * More about the build driver                                      *)
(* ================================================================== *)

Section BuildEdges.

Variable h : host.
Variable m : globals.

(** X13. With one job, the default, a compile job that fails stops the
    build: the exception names the failing command, the units behind the
    failing one are not compiled, no library file is created and no link
    command is run. *)
Theorem failing_compile_job_stops_the_build :
  forall (files : files_arg) (pre : list tmpfile) (f : tmpfile)
         (post : list tmpfile) (order : list nat) (w : world) (cxx : string),
    CXX_COMPILER m = Some cxx ->
    as_list files = (pre ++ f :: post)%list ->
    Forall (fun c => shell_status h c = 0)
      (map (fun p => compile_cmd m cxx (f_name (fst p))
                       (numbered h "compiledtrees_" (snd p) ".o"))
         (combine pre (seq (w_tmp w) (List.length pre)))) ->
    shell_status h
      (compile_cmd m cxx (f_name f)
         (numbered h "compiledtrees_" (w_tmp w + List.length pre) ".o")) <> 0 ->
    let bad := compile_cmd m cxx (f_name f)
                 (numbered h "compiledtrees_" (w_tmp w + List.length pre) ".o") in
    exists (w' : world) (cs : list shell_call),
      compile_code_to_object h m files 1 order w
      = (inl (CalledProcessError bad (shell_status h bad)), w')
      /\ w_calls w' = (w_calls w ++ cs)%list
      /\ map sc_cmd cs
         = (map (fun p => compile_cmd m cxx (f_name (fst p))
                            (numbered h "compiledtrees_" (snd p) ".o"))
              (combine pre (seq (w_tmp w) (List.length pre)))
            ++ [bad])%list
      /\ w_tmp w' = (w_tmp w + List.length pre + 1)%nat.
Proof.
  intros files pre f post order w cxx Hc Hfiles Hok Hbad bad.
  unfold compile_code_to_object. rewrite Hfiles.
  destruct (pre_close h m (pre ++ f :: post) w) as (w1 & E1 & C1 & T1).
  rewrite <- T1 in Hok, Hbad.
  destruct (compile_jobs_fail h m cxx Hc pre f post w1 Hok Hbad)
    as (w2 & cs & E2 & T2 & C2 & S2).
  rewrite T1 in *. fold bad in E2, S2.
  exists w2, cs. rewrite (io_bind_inr _ _ _ _ _ E1).
  unfold io_bind at 1.
  change (Parallel_compile h m 1 order (pre ++ f :: post))
    with (io_map (fun f => _compile h m (f_name f)) (pre ++ f :: post)).
  rewrite E2.
  repeat split; try assumption. congruence.
Qed.

End BuildEdges.

Section LinkEdges.

Variable h : host.
Variable m : globals.

(** X14. Without a compiler and without units no compile job runs, so the
    clear message is never raised: the link command cannot be joined and the
    call ends in [TypeError]; no command is handed to the shell. *)
Theorem no_compiler_and_no_units_is_a_TypeError :
  forall (files : files_arg) (n_jobs : Z) (order : list nat) (w : world),
    CXX_COMPILER m = None ->
    as_list files = [] ->
    n_jobs <> 0 ->
    exists w' : world,
      compile_code_to_object h m files n_jobs order w = (inl TypeError, w')
      /\ w_calls w' = w_calls w.
Proof.
  intros files n_jobs order w Hc Hf H0.
  unfold compile_code_to_object. rewrite Hf, Hc.
  destruct (system_eqb (platform_system h) Windows).
  - cbn [io_iter map app].
    rewrite (io_bind_inr _ _ w w tt) by reflexivity.
    rewrite (io_bind_inr _ _ w w []) by now apply parallel_nil.
    erewrite io_bind_inr by reflexivity.
    erewrite io_bind_inr by reflexivity.
    unfold io_bind at 1. unfold io_bind at 1.
    unfold NamedTemporaryFile at 1. cbv zeta.
    unfold io_bind at 1. unfold close at 1.
    unfold io_bind at 1.
    rewrite call_with_None by (left; reflexivity).
    eexists. split; reflexivity.
  - cbn [map app].
    rewrite (io_bind_inr _ _ w w tt) by reflexivity.
    rewrite (io_bind_inr _ _ w w []) by now apply parallel_nil.
    erewrite io_bind_inr by reflexivity.
    erewrite io_bind_inr by reflexivity.
    unfold io_bind at 1.
    rewrite call_with_None by (left; reflexivity).
    eexists. split; reflexivity.
Qed.

(** X15. Off Windows a build that succeeds runs the compile command of
    every unit, one job in the order of the units and a pool of threads in an
    order of its own, and then one link command that names the object files
    on the command line in the order of their units; it returns the library
    file. *)
Theorem posix_build_links_objects_on_the_command_line :
  forall (files : files_arg) (n_jobs : Z) (order : list nat) (w : world)
         (cxx : string),
    platform_system h <> Windows ->
    CXX_COMPILER m = Some cxx ->
    (forall c, shell_status h c = 0) ->
    n_jobs <> 0 ->
    let srcs := as_list files in
    let n := List.length srcs in
    let numbers := seq (w_tmp w) n in
    let so_name := numbered h "compiledtrees_" (w_tmp w + n) ".so" in
    exists (w' : world) (objs : list string) (compile_calls : list shell_call)
           (d : list (string * string)),
      compile_code_to_object h m files n_jobs order w
      = (inr {| f_name := so_name; f_data := EmptyString |}, w')
      /\ Permutation objs
           (map (fun k => numbered h "compiledtrees_" k ".o") numbers)
      /\ w_calls w'
         = (w_calls w ++ compile_calls
            ++ [mk_call
                  (join " "
                     ([cxx; "-shared"] ++ objs
                      ++ ["-fPIC"; "-flto"; openmp_flag m; "-o"; so_name;
                          "-O3"; "-pipe"]))
                  d])%list
      /\ Permutation (map sc_cmd compile_calls)
           (map (fun p : tmpfile * string =>
                   compile_cmd m cxx (f_name (fst p)) (snd p))
              (combine srcs objs))
      /\ (n_jobs = 1 ->
          objs = map (fun k => numbered h "compiledtrees_" k ".o") numbers
          /\ map sc_cmd compile_calls
             = map (fun p : tmpfile * string =>
                      compile_cmd m cxx (f_name (fst p)) (snd p))
                 (combine srcs objs))
      /\ w_tmp w' = (w_tmp w + n + 1)%nat.
Proof.
  intros files n_jobs order w cxx Hsys Hc Hs H0 srcs n numbers so_name.
  unfold compile_code_to_object. fold srcs. rewrite Hc.
  assert (Hw : system_eqb (platform_system h) Windows = false)
    by (destruct (platform_system h); [congruence | reflexivity | reflexivity]).
  rewrite Hw.
  destruct (parallel_all_ok h m cxx n_jobs order srcs w Hc H0 Hs)
    as (os & w2 & cs & E2 & L2 & Q2 & T2 & C2 & S2 & O2 & _).
  fold n in Q2, T2, O2. fold numbers in Q2, O2.
  rewrite commands_of_names in S2, O2.
  rewrite (io_bind_inr _ _ w w tt) by reflexivity.
  rewrite (io_bind_inr _ _ _ _ _ E2).
  erewrite io_bind_inr by reflexivity.
  erewrite io_bind_inr by reflexivity.
  cbn [f_name].
  replace ([Some cxx; Some "-shared"]
           ++ map (fun f => Some (f_name f)) os
           ++ [Some "-fPIC"; Some "-flto"; Some (openmp_flag m); Some "-o";
               Some (tmp_path h "compiledtrees_" ".so" w2);
               Some "-O3"; Some "-pipe"])%list
    with (map Some ([cxx; "-shared"] ++ map f_name os
                    ++ ["-fPIC"; "-flto"; openmp_flag m; "-o";
                        tmp_path h "compiledtrees_" ".so" w2;
                        "-O3"; "-pipe"])%list)
    by (rewrite !map_app, map_map; reflexivity).
  erewrite io_bind_inr by (apply call_succeeds; exact Hs).
  unfold io_ret, tmp_path. rewrite T2. fold so_name.
  eexists _, (map f_name os), cs, _. split; [reflexivity|].
  split; [exact Q2|].
  cbn [w_calls w_tmp]. split; [now rewrite C2, <- app_assoc|].
  split; [exact S2|]. split; [exact O2 | lia].
Qed.

(** X16. On Windows a link command that fails ends the call with the
    exception that names it, and the clean-up behind it is skipped: the list
    file, with the names of the object files in the order of the units,
    stays on the disk. *)
Theorem windows_link_failure_skips_the_cleanup :
  forall (files : files_arg) (n_jobs : Z) (order : list nat) (w : world)
         (cxx : string),
    platform_system h = Windows ->
    CXX_COMPILER m = Some cxx ->
    delete_files m = false ->
    n_jobs <> 0 ->
    let srcs := as_list files in
    let n := List.length srcs in
    let numbers := seq (w_tmp w) n in
    let so_name := numbered h "compiledtrees_" (w_tmp w + n) ".so" in
    let list_name := numbered h "list_ofiles_" (w_tmp w + n + 1) EmptyString in
    let link := link_cmd_windows m cxx list_name so_name in
    (n_jobs = 1 ->
     Forall (fun c => shell_status h c = 0)
       (map (fun p => compile_cmd m cxx (f_name (fst p))
                        (numbered h "compiledtrees_" (snd p) ".o"))
          (combine srcs numbers))) ->
    (n_jobs <> 1 ->
     forall (f : tmpfile) (k : nat),
       In f srcs -> In k numbers ->
       shell_status h
         (compile_cmd m cxx (f_name f) (numbered h "compiledtrees_" k ".o"))
       = 0) ->
    shell_status h link <> 0 ->
    exists (w' : world) (objs : list string),
      compile_code_to_object h m files n_jobs order w
      = (inl (CalledProcessError link (shell_status h link)), w')
      /\ Permutation objs
           (map (fun k => numbered h "compiledtrees_" k ".o") numbers)
      /\ (n_jobs = 1 ->
          objs = map (fun k => numbered h "compiledtrees_" k ".o") numbers)
      /\ disk_get list_name (w_disk w')
         = Some (String.concat EmptyString
                   (map (fun o => replace_char BACKSLASH
                                    (chr BACKSLASH ++ chr BACKSLASH) o
                                  ++ chr CR) objs)).
Proof.
  intros files n_jobs order w cxx Hsys Hc Hdel H0 srcs n numbers so_name
    list_name link Hseq Hpar Hbad.
  unfold compile_code_to_object. fold srcs. rewrite Hsys, Hc. cbn [system_eqb].
  destruct (io_iter_close m srcs w) as (w1 & E1 & C1 & T1).
  destruct (parallel_ok h m cxx n_jobs order srcs w1 Hc H0)
    as (os & w2 & cs & E2 & L2 & Q2 & T2 & C2 & S2 & O2 & _).
  { rewrite T1. exact Hseq. }
  { rewrite T1. intros H1 f k Hf Hk. apply (Hpar H1 f k Hf).
    apply in_seq. exact Hk. }
  rewrite T1 in Q2, T2, O2. fold n in Q2, T2, O2. fold numbers in Q2, O2.
  rewrite (io_bind_inr _ _ _ _ _ E1), (io_bind_inr _ _ _ _ _ E2).
  erewrite io_bind_inr by reflexivity.
  erewrite io_bind_inr by reflexivity.
  unfold io_bind at 1.
  erewrite io_bind_inr by reflexivity. cbv zeta.
  erewrite io_bind_inr by (unfold close; rewrite Hdel; reflexivity).
  match goal with
  | |- context [_call h [Some cxx; Some "-shared"; Some ?a; Some (openmp_flag m);
                         Some "-fPIC"; Some "-flto"; Some "-o"; Some ?b;
                         Some "-O3"; Some "-pipe"]] =>
      change [Some cxx; Some "-shared"; Some a; Some (openmp_flag m);
              Some "-fPIC"; Some "-flto"; Some "-o"; Some b;
              Some "-O3"; Some "-pipe"]
        with (map Some [cxx; "-shared"; a; openmp_flag m; "-fPIC"; "-flto";
                        "-o"; b; "-O3"; "-pipe"])
  end.
  unfold io_bind at 1. rewrite call_status.
  rewrite !(proj1 (write_entries_data os _)), !(proj2 (write_entries_data os _)).
  cbn [f_name f_data append]. unfold tmp_path. cbn [w_tmp].
  rewrite T2.
  replace (S (w_tmp w + n)) with (w_tmp w + n + 1)%nat by lia.
  fold so_name list_name.
  change (join " " [cxx; "-shared"; String "@" list_name; openmp_flag m;
                    "-fPIC"; "-flto"; "-o"; so_name; "-O3"; "-pipe"])
    with link.
  apply Z.eqb_neq in Hbad. rewrite Hbad.
  eexists _, (map f_name os). split; [reflexivity|].
  split; [exact Q2|]. split; [intros H1; apply (O2 H1)|].
  cbn [w_disk]. rewrite disk_get_put. f_equal. f_equal.
  rewrite map_map. reflexivity.
Qed.

End LinkEdges.

(* ================================================================== *)
(** * The files a build leaves behind                                  *)
(* ================================================================== *)

Section BuildCleanup.

Variable h : host.
Variable m : globals.

(** X17. On Windows a build that succeeds returns the library file and
    leaves it on the disk, while the list file, the object files and the
    units themselves are removed.  The units have to be distinct files, and
    none of them may lie where the build puts its own files. *)
Theorem windows_build_removes_its_intermediates :
  forall (files : files_arg) (n_jobs : Z) (order : list nat) (w : world)
         (cxx : string),
    platform_system h = Windows ->
    CXX_COMPILER m = Some cxx ->
    delete_files m = false ->
    (forall c, shell_status h c = 0) ->
    n_jobs <> 0 ->
    let srcs := as_list files in
    let n := List.length srcs in
    let objs := map (fun k => numbered h "compiledtrees_" k ".o")
                  (seq (w_tmp w) n) in
    let so_name := numbered h "compiledtrees_" (w_tmp w + n) ".so" in
    let list_name := numbered h "list_ofiles_" (w_tmp w + n + 1) EmptyString in
    NoDup (map f_name srcs) ->
    (forall p, In p (map f_name srcs) ->
               ~ In p (so_name :: list_name :: objs)) ->
    exists w' : world,
      compile_code_to_object h m files n_jobs order w
      = (inr {| f_name := so_name; f_data := EmptyString |}, w')
      /\ disk_get so_name (w_disk w') = Some EmptyString
      /\ forall p, In p (list_name :: objs ++ map f_name srcs)%list ->
                   disk_get p (w_disk w') = None.
Proof.
  intros files n_jobs order w cxx Hsys Hc Hdel Hs H0 srcs n objs so_name
    list_name Hnd Hfresh.
  unfold compile_code_to_object. fold srcs. rewrite Hsys, Hc. cbn [system_eqb].
  destruct (io_iter_close m srcs w) as (w1 & E1 & C1 & T1).
  destruct (parallel_all_ok h m cxx n_jobs order srcs w1 Hc H0 Hs)
    as (os & w2 & cs & E2 & L2 & Q2 & T2 & C2 & S2 & _ & D2).
  pose proof (iter_close_disk m srcs Hdel _ _ E1) as D1.
  specialize (D2 (fun _ => Hdel)).
  rewrite T1 in Q2, T2. fold n in Q2, T2. fold objs in Q2.
  assert (Hobj : forall p, In p (map f_name os) <-> In p objs).
  { intros p. split; intros Hp.
    - exact (Permutation_in _ Q2 Hp).
    - exact (Permutation_in _ (Permutation_sym Q2) Hp). }
  rewrite (io_bind_inr _ _ _ _ _ E1), (io_bind_inr _ _ _ _ _ E2).
  erewrite io_bind_inr by reflexivity.
  erewrite io_bind_inr by reflexivity.
  unfold io_bind at 1.
  erewrite io_bind_inr by reflexivity. cbv zeta.
  erewrite io_bind_inr by (unfold close; rewrite Hdel; reflexivity).
  match goal with
  | |- context [_call h [Some cxx; Some "-shared"; Some ?a; Some (openmp_flag m);
                         Some "-fPIC"; Some "-flto"; Some "-o"; Some ?b;
                         Some "-O3"; Some "-pipe"]] =>
      change [Some cxx; Some "-shared"; Some a; Some (openmp_flag m);
              Some "-fPIC"; Some "-flto"; Some "-o"; Some b;
              Some "-O3"; Some "-pipe"]
        with (map Some [cxx; "-shared"; a; openmp_flag m; "-fPIC"; "-flto";
                        "-o"; b; "-O3"; "-pipe"])
  end.
  erewrite io_bind_inr by (apply call_succeeds; exact Hs).
  rewrite !(proj1 (write_entries_data os _)), !(proj2 (write_entries_data os _)).
  cbn [f_name f_data append w_tmp w_disk w_calls]. unfold tmp_path. cbn [w_tmp].
  rewrite T2.
  replace (S (w_tmp w + n)) with (w_tmp w + n + 1)%nat by lia.
  fold so_name list_name.
  match goal with |- context [io_bind _ _ ?W] => set (WL := W) end.
  assert (Hls : list_name <> so_name) by apply list_file_is_no_unit.
  assert (Hlo : ~ In list_name objs).
  { intros Hin. apply in_map_iff in Hin. destruct Hin as (k & E & _).
    symmetry in E. now apply list_file_is_no_unit in E. }
  assert (Hso : ~ In so_name objs).
  { intros Hin. apply in_map_iff in Hin. destruct Hin as (k & E & _).
    now apply object_is_not_library in E. }
  assert (HsoL : disk_get so_name (w_disk WL) = Some EmptyString).
  { unfold WL. cbn [w_disk].
    rewrite !disk_get_put_other by congruence. apply disk_get_put. }
  assert (HlistL : disk_get list_name (w_disk WL) <> None).
  { unfold WL. cbn [w_disk]. now rewrite disk_get_put. }
  assert (HobjL : forall p, In p objs -> disk_get p (w_disk WL) <> None).
  { intros p Hp. unfold WL. cbn [w_disk]. repeat apply disk_put_keeps.
    apply D2. left. now apply Hobj. }
  assert (HsrcL : forall p, In p (map f_name srcs) ->
                            disk_get p (w_disk WL) <> None).
  { intros p Hp. unfold WL. cbn [w_disk]. repeat apply disk_put_keeps.
    apply D2. right. apply D1. now left. }
  destruct (iter_unlink_ok os WL) as (wa & Ea & Ta & Ca & GoneA & KeptA).
  { apply (Permutation_NoDup (Permutation_sym Q2)). apply NoDup_objects. }
  { intros p Hp. apply HobjL. now apply Hobj. }
  assert (Hfo : forall p, In p (map f_name srcs) -> ~ In p (map f_name os)).
  { intros p Hp Ho. apply (Hfresh p Hp). right; right. now apply Hobj. }
  destruct (iter_unlink_ok srcs wa Hnd) as (wb & Eb & Tb & Cb & GoneB & KeptB).
  { intros p Hp. rewrite KeptA by now apply Hfo. now apply HsrcL. }
  rewrite (io_bind_inr _ _ _ _ _ Ea), (io_bind_inr _ _ _ _ _ Eb).
  assert (Hl : ~ In list_name (map f_name srcs)).
  { intros Hin. apply (Hfresh _ Hin). right. now left. }
  assert (Hsn : ~ In so_name (map f_name srcs)).
  { intros Hin. apply (Hfresh _ Hin). now left. }
  assert (Hlo' : ~ In list_name (map f_name os))
    by (intros Hin; apply Hlo; now apply Hobj).
  assert (Hso' : ~ In so_name (map f_name os))
    by (intros Hin; apply Hso; now apply Hobj).
  unfold unlink.
  destruct (disk_get list_name (w_disk wb)) eqn:G.
  2:{ exfalso. rewrite (KeptB _ Hl), (KeptA _ Hlo') in G. now apply HlistL. }
  unfold io_ret. eexists. split; [reflexivity|]. cbn [w_disk]. split.
  - rewrite disk_get_remove_other by congruence.
    now rewrite (KeptB _ Hsn), (KeptA _ Hso').
  - intros p [<-|Hp]; [apply disk_get_remove_same|].
    apply disk_remove_absent. apply in_app_or in Hp.
    destruct Hp as [Hp|Hp]; [|now apply GoneB].
    destruct (in_dec string_dec p (map f_name srcs)) as [Hi|Ho];
      [now apply GoneB|].
    rewrite (KeptB _ Ho). apply GoneA. now apply Hobj.
Qed.

(** X18. On Windows a unit that is listed twice is compiled twice and
    linked, and then the clean-up fails: the second attempt to remove it
    finds no file, and the call ends in [OSError] although the library was
    built. *)
Theorem windows_repeated_unit_fails_in_the_cleanup :
  forall (files : files_arg) (n_jobs : Z) (order : list nat) (w : world)
         (cxx : string),
    platform_system h = Windows ->
    CXX_COMPILER m = Some cxx ->
    delete_files m = false ->
    (forall c, shell_status h c = 0) ->
    n_jobs <> 0 ->
    let srcs := as_list files in
    let n := List.length srcs in
    let so_name := numbered h "compiledtrees_" (w_tmp w + n) ".so" in
    let list_name := numbered h "list_ofiles_" (w_tmp w + n + 1) EmptyString in
    ~ NoDup (map f_name srcs) ->
    exists (w' : world) (compile_calls : list shell_call)
           (d : list (string * string)),
      compile_code_to_object h m files n_jobs order w = (inl OSError, w')
      /\ w_calls w'
         = (w_calls w ++ compile_calls
            ++ [mk_call (link_cmd_windows m cxx list_name so_name) d])%list
      /\ List.length compile_calls = n.
Proof.
  intros files n_jobs order w cxx Hsys Hc Hdel Hs H0 srcs n so_name list_name
    Hdup.
  unfold compile_code_to_object. fold srcs. rewrite Hsys, Hc. cbn [system_eqb].
  destruct (io_iter_close m srcs w) as (w1 & E1 & C1 & T1).
  destruct (parallel_all_ok h m cxx n_jobs order srcs w1 Hc H0 Hs)
    as (os & w2 & cs & E2 & L2 & Q2 & T2 & C2 & S2 & _ & _).
  rewrite T1 in T2. fold n in T2, L2.
  rewrite (io_bind_inr _ _ _ _ _ E1), (io_bind_inr _ _ _ _ _ E2).
  erewrite io_bind_inr by reflexivity.
  erewrite io_bind_inr by reflexivity.
  unfold io_bind at 1.
  erewrite io_bind_inr by reflexivity. cbv zeta.
  erewrite io_bind_inr by (unfold close; rewrite Hdel; reflexivity).
  match goal with
  | |- context [_call h [Some cxx; Some "-shared"; Some ?a; Some (openmp_flag m);
                         Some "-fPIC"; Some "-flto"; Some "-o"; Some ?b;
                         Some "-O3"; Some "-pipe"]] =>
      change [Some cxx; Some "-shared"; Some a; Some (openmp_flag m);
              Some "-fPIC"; Some "-flto"; Some "-o"; Some b;
              Some "-O3"; Some "-pipe"]
        with (map Some [cxx; "-shared"; a; openmp_flag m; "-fPIC"; "-flto";
                        "-o"; b; "-O3"; "-pipe"])
  end.
  erewrite io_bind_inr by (apply call_succeeds; exact Hs).
  rewrite !(proj1 (write_entries_data os _)), !(proj2 (write_entries_data os _)).
  cbn [f_name f_data append w_tmp w_disk w_calls]. unfold tmp_path. cbn [w_tmp].
  rewrite T2.
  replace (S (w_tmp w + n)) with (w_tmp w + n + 1)%nat by lia.
  fold so_name list_name.
  change (join " " [cxx; "-shared"; String "@" list_name; openmp_flag m;
                    "-fPIC"; "-flto"; "-o"; so_name; "-O3"; "-pipe"])
    with (link_cmd_windows m cxx list_name so_name).
  match goal with |- context [io_bind _ _ ?W] => set (WL := W) end.
  assert (CL : w_calls WL
               = (w_calls w ++ cs
                  ++ [mk_call (link_cmd_windows m cxx list_name so_name)
                        (w_disk WL)])%list).
  { unfold WL. cbn [w_calls w_disk]. now rewrite C2, C1, <- app_assoc. }
  assert (Len : List.length cs = n).
  { rewrite <- (length_map sc_cmd), (Permutation_length S2), length_map,
      length_combine, L2. fold n. apply Nat.min_id. }
  destruct (iter_unlink_result os WL) as (r & wa & Ea & [->| ->] & Ca).
  - rewrite (io_bind_inr _ _ _ _ _ Ea).
    destruct (iter_unlink_twice srcs wa Hdup) as (wb & Eb & Cb).
    unfold io_bind at 1. rewrite Eb.
    exists wb, cs, (w_disk WL). split; [reflexivity|].
    split; [congruence | exact Len].
  - unfold io_bind at 1. rewrite Ea.
    exists wa, cs, (w_disk WL). split; [reflexivity|].
    split; [congruence | exact Len].
Qed.

End BuildCleanup.

(* ================================================================== *)
(** * The further properties on concrete inputs                        *)
(* ================================================================== *)

Lemma import_resolves_toolchain_witness :
  (OPENMP_SUPPORT darwin_globals = false
   <-> platform_system darwin_host = Darwin
       /\ exists v, cxx_version darwin_host = inr v
                    /\ contains "clang" v = true)
  /\ (platform_system darwin_host = Windows ->
      CXX_COMPILER darwin_globals = environ_CXX darwin_host)
  /\ (platform_system darwin_host <> Windows ->
      CXX_COMPILER darwin_globals = sysconfig_CXX darwin_host)
  /\ (delete_files darwin_globals = false
      <-> platform_system darwin_host = Windows).
Proof.
  apply (import_resolves_toolchain darwin_host darwin_globals).
  reflexivity.
Defined.

Lemma code_gen_tree_returns_flushed_file_witness :
  exists (f : tmpfile) (w' : world),
    code_gen_tree linux_host 2 stump9 "evaluate" None empty_world = (inr f, w')
    /\ disk_get (f_name f) (w_disk w') = Some (f_data f).
Proof.
  eexists _, _. split.
  - vm_compute. reflexivity.
  - apply (code_gen_tree_returns_flushed_file linux_host 2 stump9 "evaluate"
             None empty_world).
    vm_compute. reflexivity.
Defined.

Lemma code_gen_tree_appends_to_its_generator_witness :
  exists (f1 f2 : tmpfile) (w1 w2 : world),
    code_gen_tree linux_host 2 tree_a "evaluate_0" (Some blank_gen) empty_world
    = (inr f1, w1)
    /\ code_gen_tree linux_host 2 tree_b "evaluate_1"
         (Some {| _file := f1; _indent := _indent blank_gen |}) w1
       = (inr f2, w2)
    /\ f_name f2 = f_name (_file blank_gen)
    /\ f_data f2 = f_data (_file blank_gen)
                   ++ unlines (tree_unit 2 tree_a "evaluate_0")
                   ++ unlines (tree_unit 2 tree_b "evaluate_1")
    /\ w_tmp w2 = w_tmp empty_world.
Proof.
  apply (code_gen_tree_appends_to_its_generator linux_host 2 tree_a tree_b
           "evaluate_0" "evaluate_1" blank_gen empty_world); reflexivity.
Defined.

Lemma code_gen_tree_on_empty_tree_witness :
  exists w' : world,
    code_gen_tree linux_host 1 no_nodes "evaluate" None empty_world
    = (inl IndexError, w').
Proof.
  apply (code_gen_tree_on_empty_tree linux_host 0 no_nodes "evaluate"
           empty_world); reflexivity.
Defined.

Lemma code_gen_ensemble_on_no_trees_witness :
  exists w' : world,
    code_gen_ensemble linux_host linux_globals 2 [] (Milli 500) (Milli 0)
      None empty_world
    = (inl UnboundLocalError, w').
Proof.
  apply (code_gen_ensemble_on_no_trees linux_host linux_globals 2
           (Milli 500) (Milli 0) empty_world).
  reflexivity.
Defined.

Lemma deeper_limit_writes_the_same_unit_witness :
  exists (f f' : tmpfile) (w1 w2 : world),
    code_gen_tree linux_host 2 stump9 "evaluate" None empty_world = (inr f, w1)
    /\ code_gen_tree linux_host 5 stump9 "evaluate" None empty_world
       = (inr f', w2)
    /\ f' = f.
Proof.
  apply (deeper_limit_writes_the_same_unit linux_host 2 5 stump9 "evaluate"
           empty_world); try reflexivity.
  lia.
Defined.

Lemma too_deep_tree_raises_RecursionError_witness :
  exists w' : world,
    code_gen_tree linux_host 1 stump9 "evaluate" None empty_world
    = (inl RecursionError, w').
Proof.
  apply (too_deep_tree_raises_RecursionError linux_host 1 2 stump9 "evaluate"
           empty_world); reflexivity.
Defined.

Lemma generated_evaluator_returns_a_leaf_value_witness :
  exists (f : tmpfile) (w' : world) (v : milli),
    code_gen_tree linux_host 2 stump9 "evaluate" None empty_world = (inr f, w')
    /\ call_partial [f_data f] "evaluate" (List.repeat (Milli 100) 10) = Some v
    /\ In [v] (value stump9).
Proof.
  apply (generated_evaluator_returns_a_leaf_value linux_host 2 stump9
           "evaluate" empty_world (List.repeat (Milli 100) 10)).
  - reflexivity.
  - reflexivity.
  - reflexivity.
  - split; repeat constructor.
  - reflexivity.
Defined.

Lemma failing_compile_job_stops_the_build_witness :
  exists (w' : world) (cs : list shell_call),
    compile_code_to_object flaky_host linux_globals
      (FileList [unit_c; unit_b]) 1 [] empty_world
    = (inl (CalledProcessError
              (compile_cmd linux_globals "g++" "/tmp/b.cpp"
                 (numbered flaky_host "compiledtrees_" 1 ".o")) 1), w')
    /\ w_calls w' = (w_calls empty_world ++ cs)%list
    /\ map sc_cmd cs
       = [compile_cmd linux_globals "g++" "/tmp/c.cpp"
            (numbered flaky_host "compiledtrees_" 0 ".o");
          compile_cmd linux_globals "g++" "/tmp/b.cpp"
            (numbered flaky_host "compiledtrees_" 1 ".o")]
    /\ w_tmp w' = 2%nat.
Proof.
  apply (failing_compile_job_stops_the_build flaky_host linux_globals
           (FileList [unit_c; unit_b]) [unit_c] unit_b [] [] empty_world "g++").
  - reflexivity.
  - reflexivity.
  - repeat constructor.
  - vm_compute. discriminate.
Defined.

Lemma no_compiler_and_no_units_is_a_TypeError_witness :
  exists w' : world,
    compile_code_to_object bare_host bare_globals (FileList []) 2 [0]%nat
      empty_world
    = (inl TypeError, w')
    /\ w_calls w' = w_calls empty_world.
Proof.
  apply (no_compiler_and_no_units_is_a_TypeError bare_host bare_globals
           (FileList []) 2 [0%nat] empty_world).
  - reflexivity.
  - reflexivity.
  - discriminate.
Defined.

Lemma posix_build_links_objects_on_the_command_line_witness :
  exists (w' : world) (objs : list string) (compile_calls : list shell_call)
         (d : list (string * string)),
    compile_code_to_object linux_host linux_globals
      (FileList [unit_c; unit_b]) 2 [1; 0; 0; 1]%nat empty_world
    = (inr {| f_name := "/tmp/compiledtrees_2.so"; f_data := EmptyString |}, w')
    /\ Permutation objs ["/tmp/compiledtrees_0.o"; "/tmp/compiledtrees_1.o"]
    /\ w_calls w'
       = (w_calls empty_world ++ compile_calls
          ++ [mk_call
                (join " "
                   (["g++"; "-shared"] ++ objs
                    ++ ["-fPIC"; "-flto"; "-fopenmp"; "-o";
                        "/tmp/compiledtrees_2.so"; "-O3"; "-pipe"]))
                d])%list
    /\ Permutation (map sc_cmd compile_calls)
         (map (fun p : tmpfile * string =>
                 compile_cmd linux_globals "g++" (f_name (fst p)) (snd p))
            (combine [unit_c; unit_b] objs))
    /\ w_tmp w' = 3%nat.
Proof.
  destruct (posix_build_links_objects_on_the_command_line linux_host
              linux_globals (FileList [unit_c; unit_b]) 2 [1; 0; 0; 1]%nat
              empty_world "g++")
    as (w' & objs & cs & d & E & P & C & S & _ & T).
  - discriminate.
  - reflexivity.
  - reflexivity.
  - discriminate.
  - exists w', objs, cs, d. repeat split; assumption.
Defined.

Lemma windows_link_failure_skips_the_cleanup_witness :
  exists (w' : world) (objs : list string),
    compile_code_to_object no_link_host windows_globals
      (FileList [unit_a; unit_d]) 2 [1; 0; 0; 1]%nat empty_world
    = (inl (CalledProcessError
              (link_cmd_windows windows_globals "g++"
                 (numbered no_link_host "list_ofiles_" 3 EmptyString)
                 (numbered no_link_host "compiledtrees_" 2 ".so")) 1), w')
    /\ Permutation objs
         [numbered no_link_host "compiledtrees_" 0 ".o";
          numbered no_link_host "compiledtrees_" 1 ".o"]
    /\ disk_get (numbered no_link_host "list_ofiles_" 3 EmptyString) (w_disk w')
       = Some (String.concat EmptyString
                 (map (fun o => replace_char BACKSLASH
                                  (chr BACKSLASH ++ chr BACKSLASH) o
                                ++ chr CR) objs)).
Proof.
  destruct (windows_link_failure_skips_the_cleanup no_link_host windows_globals
              (FileList [unit_a; unit_d]) 2 [1; 0; 0; 1]%nat empty_world "g++")
    as (w' & objs & E & P & _ & D).
  - reflexivity.
  - reflexivity.
  - reflexivity.
  - discriminate.
  - discriminate.
  - intros _ f k Hf Hk. cbn in Hf, Hk.
    destruct Hf as [<-|[<-|[]]], Hk as [<-|[<-|[]]]; reflexivity.
  - vm_compute. discriminate.
  - exists w', objs. split; [exact E|]. split; [exact P | exact D].
Defined.

Lemma windows_build_removes_its_intermediates_witness :
  exists w' : world,
    compile_code_to_object windows_host windows_globals (FileList [unit_a])
      2 [0]%nat empty_world
    = (inr {| f_name := numbered windows_host "compiledtrees_" 1 ".so";
              f_data := EmptyString |}, w')
    /\ disk_get (numbered windows_host "compiledtrees_" 1 ".so") (w_disk w')
       = Some EmptyString
    /\ forall p,
         In p [numbered windows_host "list_ofiles_" 2 EmptyString;
               numbered windows_host "compiledtrees_" 0 ".o";
               f_name unit_a] ->
         disk_get p (w_disk w') = None.
Proof.
  apply (windows_build_removes_its_intermediates windows_host windows_globals
           (FileList [unit_a]) 2 [0%nat] empty_world "g++").
  - reflexivity.
  - reflexivity.
  - reflexivity.
  - reflexivity.
  - discriminate.
  - repeat constructor. intros [].
  - intros p [<-|[]]. vm_compute.
    intros [E|[E|[E|[]]]]; discriminate E.
Defined.

Lemma windows_repeated_unit_fails_in_the_cleanup_witness :
  exists (w' : world) (compile_calls : list shell_call)
         (d : list (string * string)),
    compile_code_to_object windows_host windows_globals
      (FileList [unit_a; unit_a]) 2 [1; 1; 0]%nat empty_world
    = (inl OSError, w')
    /\ w_calls w'
       = (w_calls empty_world ++ compile_calls
          ++ [mk_call (link_cmd_windows windows_globals "g++"
                         (numbered windows_host "list_ofiles_" 3 EmptyString)
                         (numbered windows_host "compiledtrees_" 2 ".so"))
                d])%list
    /\ List.length compile_calls = 2%nat.
Proof.
  apply (windows_repeated_unit_fails_in_the_cleanup windows_host windows_globals
           (FileList [unit_a; unit_a]) 2 [1; 1; 0]%nat empty_world "g++").
  - reflexivity.
  - reflexivity.
  - reflexivity.
  - reflexivity.
  - discriminate.
  - intros Hnd. inversion Hnd as [|? ? Hin _]. apply Hin. now left.
Defined.
